(** * HMAP: a chained hash map over opaque byte blobs (hmap.c, hmap_intf.h)

    A shallow embedding of the C code.  The table's private storage lives in
    a block-structured memory: every call of an allocator hook yields a fresh
    block, [free] retires it, and touching a retired block, indexing an array
    outside its bounds or dividing by zero is a fault (undefined behaviour in
    C).  Blobs handed in by the caller are the byte sequences their
    (pointer, length) pairs designate. *)

From stdpp Require Import gmap list.
From Stdlib Require Import ZArith Lia.
From Stdlib.Strings Require Import Byte.

Local Open Scope Z_scope.

#[export] Instance byte_eq_decision : EqDecision byte := Byte.byte_eq_dec.

(** ** Platform layout *)

(** Width of [unsigned int] and the sizes [sizeof] yields for the private
    structures.  The C standard only fixes a lower bound for the width. *)
Class Layout := {
  uint_bits : Z;
  sizeof_map : Z;
  sizeof_entry : Z;
  sizeof_bucket : Z;
  uint_bits_ge : 16 <= uint_bits
}.

(** ** Interface types (hmap_intf.h) *)

Inductive HMAP_bool_t8 := HMAP_BOOL_FALSE | HMAP_BOOL_TRUE.

Inductive HMAP_status_t8 :=
  | HMAP_STATUS_SUCCESS
  | HMAP_STATUS_INVALID_ARG
  | HMAP_STATUS_INVALID_DEF
  | HMAP_STATUS_KEY_NOT_IN_MAP
  | HMAP_STATUS_MAP_UNINITIALIZED.

Abbreviation HMAP_hash_val_type := Z (only parsing).
Abbreviation addr := Z (only parsing).

Definition HMAP_INVALID_POINTER : addr := 0.

Definition HMAP_HASH_FUNC_SDBM : Z := 0.
Definition HMAP_HASH_FUNC_CUSTOM : Z := 1.

(** The bytes a [const HMAP_anon_type *] argument designates: the [size]
    bytes found at [ptr]. *)
Abbreviation blob := (list byte) (only parsing).

Definition blob_size (b : blob) : Z := Z.of_nat (length b).

(** An [HMAP_anon_type] stored inside the table: [ptr] names a block. *)
Record HMAP_anon_type := { a_ptr : addr; a_size : Z }.

(** An [HMAP_anon_type *] out-argument: the caller's storage behind [ptr]
    (as long as the buffer the caller provided) and the [size] field. *)
Record HMAP_anon_out := { out_storage : list byte; out_size : Z }.

(** Function pointers: [None] is the null pointer. *)
Definition HMAP_hash_func_type := blob -> HMAP_hash_val_type.
Abbreviation HMAP_hash_fptr_type := (option HMAP_hash_func_type) (only parsing).

Inductive HMAP_malloc_func := caller_malloc.
Inductive HMAP_free_func := caller_free.
Abbreviation HMAP_malloc_fptr := (option HMAP_malloc_func) (only parsing).
Abbreviation HMAP_free_fptr := (option HMAP_free_func) (only parsing).

Record HMAP_def_type := {
  d_map_size : Z;
  d_hash_type : Z;
  d_hash : HMAP_hash_fptr_type;
  d_malloc : HMAP_malloc_fptr;
  d_free : HMAP_free_fptr
}.

Record HMAP_obj_type := { o_data : addr }.

(** ** Private types (hmap.c) *)

Record hmap_entry_type := {
  e_data : HMAP_anon_type;
  e_key : HMAP_anon_type;
  e_key_hash : HMAP_hash_val_type;
  e_next : addr;
  e_previous : addr;
  e_size : Z
}.

Record hmap_map_type := {
  m_buckets : addr;
  m_buckets_len : Z;
  m_data_size : Z;
  m_entry_count : Z;
  m_key_size : Z;
  m_size : Z;
  m_hash : HMAP_hash_fptr_type;
  m_free : HMAP_free_fptr;
  m_malloc : HMAP_malloc_fptr
}.

(** ** Memory *)

Inductive block :=
  | BBytes (bs : list byte)
  | BEntry (e : hmap_entry_type)
  | BBuckets (heads : list addr)
  | BMap (m : hmap_map_type).

Record mem := { heap : gmap Z block; brk : Z }.

Definition mem_init : mem := {| heap := ∅; brk := 1 |}.

Inductive fault :=
  | DivisionByZero
  | OutOfBounds
  | InvalidPointer
  | NoTermination.

Inductive res (A : Type) :=
  | Ok (a : A)
  | Fault (f : fault).
Arguments Ok {A} a.
Arguments Fault {A} f.

(** Computations over the memory that may fault. *)
Definition M (A : Type) : Type := mem -> res (A * mem).

Definition ret {A} (a : A) : M A := fun s => Ok (a, s).

Definition bind {A B} (c : M A) (k : A -> M B) : M B :=
  fun s => match c s with
           | Ok (a, s') => k a s'
           | Fault f => Fault f
           end.

Definition raise {A} (f : fault) : M A := fun _ => Fault f.

Definition lift {A} (r : res A) : M A :=
  fun s => match r with Ok a => Ok (a, s) | Fault f => Fault f end.

Declare Scope hmap_scope.
Delimit Scope hmap_scope with hmap.
Notation "x <- c ;; k" := (bind c (fun x => k))
  (at level 100, c at level 99, right associativity, only parsing) : hmap_scope.
Notation "c ;;; k" := (bind c (fun _ => k))
  (at level 100, right associativity, only parsing) : hmap_scope.
Local Open Scope hmap_scope.

Definition load (p : addr) : M block :=
  fun s => match heap s !! p with
           | Some b => Ok (b, s)
           | None => Fault InvalidPointer
           end.

Definition store (p : addr) (b : block) : M unit :=
  fun s => match heap s !! p with
           | Some _ => Ok (tt, {| heap := <[p := b]> (heap s); brk := brk s |})
           | None => Fault InvalidPointer
           end.

Definition load_bytes (p : addr) : M (list byte) :=
  b <- load p ;; match b with BBytes bs => ret bs | _ => raise InvalidPointer end.

Definition load_entry (p : addr) : M hmap_entry_type :=
  b <- load p ;; match b with BEntry e => ret e | _ => raise InvalidPointer end.

Definition load_buckets (p : addr) : M (list addr) :=
  b <- load p ;; match b with BBuckets l => ret l | _ => raise InvalidPointer end.

Definition load_map (p : addr) : M hmap_map_type :=
  b <- load p ;; match b with BMap m => ret m | _ => raise InvalidPointer end.

(** The allocator hooks.  A call through a null hook faults; a present hook
    behaves as an allocator that never fails and never hands out a block
    twice.  [init] is the shape the code gives the fresh storage. *)
Definition call_malloc (f : HMAP_malloc_fptr) (size : Z) (init : block) : M addr :=
  fun s => match f with
           | None => Fault InvalidPointer
           | Some _ =>
               Ok (brk s, {| heap := <[brk s := init]> (heap s); brk := brk s + 1 |})
           end.

Definition call_free (f : HMAP_free_fptr) (memory : addr) : M unit :=
  fun s => match f with
           | None => Fault InvalidPointer
           | Some _ =>
               if memory =? HMAP_INVALID_POINTER then Ok (tt, s)
               else match heap s !! memory with
                    | Some _ => Ok (tt, {| heap := delete memory (heap s); brk := brk s |})
                    | None => Fault InvalidPointer
                    end
           end.

Definition call_hash (f : HMAP_hash_fptr_type) (key : blob) : M HMAP_hash_val_type :=
  match f with
  | None => raise InvalidPointer
  | Some h => ret (h key)
  end.

(** Number of live blocks: a walk along [next] links that visits more
    entries than that has entered a cycle. *)
Definition live_blocks : M nat := fun s => Ok (size (heap s), s).

(** Arrays indexed by an [unsigned int]. *)
Definition array_load {A} (l : list A) (i : Z) : res A :=
  if (0 <=? i) && (i <? Z.of_nat (length l)) then
    match l !! Z.to_nat i with Some x => Ok x | None => Fault OutOfBounds end
  else Fault OutOfBounds.

Definition array_store {A} (l : list A) (i : Z) (x : A) : res (list A) :=
  if (0 <=? i) && (i <? Z.of_nat (length l)) then Ok (<[Z.to_nat i := x]> l)
  else Fault OutOfBounds.

(** ** The procedures of hmap.c *)

Section Procedures.
Context `{Layout}.

(** Conversion to [unsigned int]. *)
Definition wrap (x : Z) : Z := x mod 2 ^ uint_bits.

Definition set_e_data (e : hmap_entry_type) (d : HMAP_anon_type) : hmap_entry_type :=
  {| e_data := d; e_key := e_key e; e_key_hash := e_key_hash e;
     e_next := e_next e; e_previous := e_previous e; e_size := e_size e |}.

Definition set_e_next (e : hmap_entry_type) (p : addr) : hmap_entry_type :=
  {| e_data := e_data e; e_key := e_key e; e_key_hash := e_key_hash e;
     e_next := p; e_previous := e_previous e; e_size := e_size e |}.

Definition set_e_previous (e : hmap_entry_type) (p : addr) : hmap_entry_type :=
  {| e_data := e_data e; e_key := e_key e; e_key_hash := e_key_hash e;
     e_next := e_next e; e_previous := p; e_size := e_size e |}.

(** [map->entry_count], [map->data_size], [map->key_size] and [map->size]
    assigned together. *)
Definition set_m_totals (m : hmap_map_type) (count dsz ksz sz : Z) : hmap_map_type :=
  {| m_buckets := m_buckets m; m_buckets_len := m_buckets_len m;
     m_data_size := dsz; m_entry_count := count; m_key_size := ksz; m_size := sz;
     m_hash := m_hash m; m_free := m_free m; m_malloc := m_malloc m |}.

(** [anon_data_match]: sizes first, then byte for byte from index 0. *)
Fixpoint anon_data_match_loop (n : nat) (i : Z) (storage_1 storage_2 : list byte)
  : res HMAP_bool_t8 :=
  match n with
  | O => Ok HMAP_BOOL_TRUE
  | S n' =>
      match array_load storage_1 i, array_load storage_2 i with
      | Ok b1, Ok b2 =>
          if Byte.eqb b1 b2 then anon_data_match_loop n' (i + 1) storage_1 storage_2
          else Ok HMAP_BOOL_FALSE
      | Fault f, _ => Fault f
      | _, Fault f => Fault f
      end
  end.

Definition anon_data_match (storage_1 : list byte) (size_1 : Z)
    (storage_2 : list byte) (size_2 : Z) : res HMAP_bool_t8 :=
  if negb (size_1 =? size_2) then Ok HMAP_BOOL_FALSE
  else anon_data_match_loop (Z.to_nat size_1) 0 storage_1 storage_2.

(** [copy_anon_data]: yields the destination's storage and [size] field. *)
Fixpoint copy_anon_data_loop (n : nat) (i : Z) (destination source : list byte)
  : res (list byte) :=
  match n with
  | O => Ok destination
  | S n' =>
      match array_load source i with
      | Ok b =>
          match array_store destination i b with
          | Ok destination' => copy_anon_data_loop n' (i + 1) destination' source
          | Fault f => Fault f
          end
      | Fault f => Fault f
      end
  end.

Definition copy_anon_data (destination : list byte) (source : list byte)
    (source_size : Z) : res (list byte * Z) :=
  match copy_anon_data_loop (Z.to_nat source_size) 0 destination source with
  | Ok destination' => Ok (destination', source_size)
  | Fault f => Fault f
  end.

(** [hash_sdbm]: the loop over [key_bytes[i]], every operation in
    [unsigned int]. *)
Fixpoint hash_sdbm_loop (n : nat) (i : Z) (key_bytes : list byte)
    (hash : HMAP_hash_val_type) : HMAP_hash_val_type :=
  match n with
  | O => hash
  | S n' =>
      let b := Z.of_N (Byte.to_N (nth (Z.to_nat i) key_bytes x00)) in
      hash_sdbm_loop n' (i + 1) key_bytes
        (wrap (wrap (wrap (wrap (Z.shiftl hash 16) + wrap (Z.shiftl hash 6)) - hash) + b))
  end.

Definition hash_sdbm (key : blob) : HMAP_hash_val_type :=
  hash_sdbm_loop (Z.to_nat (blob_size key)) 0 key 0.

(** [create_entry] *)
Definition create_entry (map : addr) (key data : blob) : M addr :=
  m <- load_map map ;;
  entry <- call_malloc (m_malloc m) sizeof_entry
             (BEntry {| e_data := {| a_ptr := 0; a_size := 0 |};
                        e_key := {| a_ptr := 0; a_size := 0 |};
                        e_key_hash := 0; e_next := 0; e_previous := 0; e_size := 0 |}) ;;
  let data_size := blob_size data in
  data_ptr <- call_malloc (m_malloc m) data_size (BBytes (repeat x00 (Z.to_nat data_size))) ;;
  let key_size := blob_size key in
  key_hash <- call_hash (m_hash m) key ;;
  key_ptr <- call_malloc (m_malloc m) key_size (BBytes (repeat x00 (Z.to_nat key_size))) ;;
  key_storage <- load_bytes key_ptr ;;
  copied <- lift (copy_anon_data key_storage key (blob_size key)) ;;
  store key_ptr (BBytes (fst copied)) ;;;
  let e := {| e_data := {| a_ptr := data_ptr; a_size := data_size |};
              e_key := {| a_ptr := key_ptr; a_size := snd copied |};
              e_key_hash := wrap key_hash;
              e_next := HMAP_INVALID_POINTER;
              e_previous := HMAP_INVALID_POINTER;
              e_size := wrap (wrap (data_size + snd copied) + sizeof_entry) |} in
  store entry (BEntry e) ;;;
  store map (BMap (set_m_totals m
                     (wrap (m_entry_count m + 1))
                     (wrap (m_data_size m + blob_size data))
                     (wrap (m_key_size m + blob_size key))
                     (wrap (m_size m + e_size e)))) ;;;
  ret entry.

(** [destroy_entry] *)
Definition destroy_entry (map : addr) (entry : addr) : M unit :=
  m <- load_map map ;;
  e <- load_entry entry ;;
  store map (BMap (set_m_totals m
                     (wrap (m_entry_count m - 1))
                     (wrap (m_data_size m - a_size (e_data e)))
                     (wrap (m_key_size m - a_size (e_key e)))
                     (wrap (m_size m - e_size e)))) ;;;
  call_free (m_free m) (a_ptr (e_data e)) ;;;
  call_free (m_free m) (a_ptr (e_key e)) ;;;
  call_free (m_free m) entry.

(** [get_bucket_by_hash]: the bucket [&map->buckets[index]] as the bucket
    array and the index into it. *)
Definition get_bucket_by_hash (map : addr) (key_hash : HMAP_hash_val_type)
  : M (addr * Z) :=
  m <- load_map map ;;
  if m_buckets_len m =? 0 then raise DivisionByZero
  else ret (m_buckets m, key_hash mod m_buckets_len m).

Definition load_bucket (bucket : addr * Z) : M addr :=
  heads <- load_buckets (fst bucket) ;;
  lift (array_load heads (snd bucket)).

Definition store_bucket (bucket : addr * Z) (entry : addr) : M unit :=
  heads <- load_buckets (fst bucket) ;;
  heads' <- lift (array_store heads (snd bucket) entry) ;;
  store (fst bucket) (BBuckets heads').

(** [get_entry_by_hash]: the walk along the chain; [entries] is the
    caller's array, [entries_len] the running count. *)
Fixpoint get_entry_by_hash_loop (fuel : nat) (key_hash : HMAP_hash_val_type)
    (entry : addr) (entries : list addr) (entries_len : Z) : M (list addr * Z) :=
  match fuel with
  | O => raise NoTermination
  | S fuel' =>
      if entry =? HMAP_INVALID_POINTER then ret (entries, entries_len)
      else
        e <- load_entry entry ;;
        if e_key_hash e =? key_hash then
          entries' <- lift (array_store entries entries_len entry) ;;
          get_entry_by_hash_loop fuel' key_hash (e_next e) entries' (wrap (entries_len + 1))
        else
          get_entry_by_hash_loop fuel' key_hash (e_next e) entries entries_len
  end.

Definition get_entry_by_hash (map : addr) (key_hash : HMAP_hash_val_type)
    (entries : list addr) (entries_len : Z) : M (list addr * Z) :=
  bucket <- get_bucket_by_hash map key_hash ;;
  let entries_len := 0 in
  entry <- load_bucket bucket ;;
  fuel <- live_blocks ;;
  get_entry_by_hash_loop (S fuel) key_hash entry entries entries_len.

(** [get_entry_by_key] *)
Definition MAX_COLLISIONS : Z := 5.

Fixpoint get_entry_by_key_loop (n : nat) (i : Z) (entries : list addr) (key : blob)
  : M addr :=
  match n with
  | O => ret HMAP_INVALID_POINTER
  | S n' =>
      p <- lift (array_load entries i) ;;
      e <- load_entry p ;;
      entry_key <- load_bytes (a_ptr (e_key e)) ;;
      matched <- lift (anon_data_match entry_key (a_size (e_key e)) key (blob_size key)) ;;
      match matched with
      | HMAP_BOOL_TRUE => ret p
      | HMAP_BOOL_FALSE => get_entry_by_key_loop n' (i + 1) entries key
      end
  end.

Definition get_entry_by_key (map : addr) (key : blob) : M addr :=
  let entries := repeat HMAP_INVALID_POINTER (Z.to_nat MAX_COLLISIONS) in
  m <- load_map map ;;
  key_hash <- call_hash (m_hash m) key ;;
  let key_hash := wrap key_hash in
  found <- get_entry_by_hash map key_hash entries MAX_COLLISIONS ;;
  get_entry_by_key_loop (Z.to_nat (snd found)) 0 (fst found) key.

(** ** The interface procedures *)

(** The loop of [HMAP_create] that empties every bucket. *)
Fixpoint HMAP_create_loop (n : nat) (i : Z) (heads : list addr) : res (list addr) :=
  match n with
  | O => Ok heads
  | S n' =>
      match array_store heads i HMAP_INVALID_POINTER with
      | Ok heads' => HMAP_create_loop n' (i + 1) heads'
      | Fault f => Fault f
      end
  end.

Definition HMAP_create (hmap_def : option HMAP_def_type)
    (out_obj : option HMAP_obj_type) : M (HMAP_status_t8 * option HMAP_obj_type) :=
  match hmap_def, out_obj with
  | Some def, Some _ =>
      match d_malloc def, d_free def with
      | Some _, Some _ =>
          let obj := {| o_data := HMAP_INVALID_POINTER |} in
          let buckets_len := wrap (d_map_size def) in
          map <- call_malloc (d_malloc def) sizeof_map
                   (BMap {| m_buckets := 0; m_buckets_len := 0; m_data_size := 0;
                            m_entry_count := 0; m_key_size := 0; m_size := 0;
                            m_hash := None; m_free := None; m_malloc := None |}) ;;
          buckets <- call_malloc (d_malloc def) (buckets_len * sizeof_bucket)
                       (BBuckets (repeat 0 (Z.to_nat buckets_len))) ;;
          heads <- load_buckets buckets ;;
          heads' <- lift (HMAP_create_loop (Z.to_nat buckets_len) 0 heads) ;;
          store buckets (BBuckets heads') ;;;
          let m := {| m_buckets := buckets; m_buckets_len := buckets_len;
                      m_data_size := 0; m_entry_count := 0; m_key_size := 0;
                      m_size := wrap (sizeof_map + sizeof_bucket * buckets_len);
                      m_hash := None; m_free := d_free def; m_malloc := d_malloc def |} in
          store map (BMap m) ;;;
          if d_hash_type def =? HMAP_HASH_FUNC_CUSTOM then
            match d_hash def with
            | None => ret (HMAP_STATUS_INVALID_DEF, Some obj)
            | Some h =>
                store map (BMap {| m_buckets := m_buckets m; m_buckets_len := m_buckets_len m;
                                   m_data_size := m_data_size m;
                                   m_entry_count := m_entry_count m;
                                   m_key_size := m_key_size m; m_size := m_size m;
                                   m_hash := Some h; m_free := m_free m;
                                   m_malloc := m_malloc m |}) ;;;
                ret (HMAP_STATUS_SUCCESS, Some {| o_data := map |})
            end
          else
            store map (BMap {| m_buckets := m_buckets m; m_buckets_len := m_buckets_len m;
                               m_data_size := m_data_size m;
                               m_entry_count := m_entry_count m;
                               m_key_size := m_key_size m; m_size := m_size m;
                               m_hash := Some hash_sdbm; m_free := m_free m;
                               m_malloc := m_malloc m |}) ;;;
            ret (HMAP_STATUS_SUCCESS, Some {| o_data := map |})
      | _, _ => ret (HMAP_STATUS_INVALID_DEF, out_obj)
      end
  | _, _ => ret (HMAP_STATUS_INVALID_ARG, out_obj)
  end.

(** The inner loop of [HMAP_destroy]: pop the top entry of bucket [i] and
    destroy it until the bucket is empty. *)
Fixpoint HMAP_destroy_bucket (fuel : nat) (map : addr) (i : Z) : M unit :=
  match fuel with
  | O => raise NoTermination
  | S fuel' =>
      m <- load_map map ;;
      entry <- load_bucket (m_buckets m, i) ;;
      if entry =? HMAP_INVALID_POINTER then ret tt
      else
        e <- load_entry entry ;;
        store_bucket (m_buckets m, i) (e_next e) ;;;
        destroy_entry map entry ;;;
        HMAP_destroy_bucket fuel' map i
  end.

Fixpoint HMAP_destroy_loop (n : nat) (i : Z) (map : addr) : M unit :=
  match n with
  | O => ret tt
  | S n' =>
      fuel <- live_blocks ;;
      HMAP_destroy_bucket (S fuel) map i ;;;
      HMAP_destroy_loop n' (i + 1) map
  end.

Definition HMAP_destroy (obj : option HMAP_obj_type)
  : M (HMAP_status_t8 * option HMAP_obj_type) :=
  match obj with
  | None => ret (HMAP_STATUS_INVALID_ARG, obj)
  | Some o =>
      if o_data o =? HMAP_INVALID_POINTER then ret (HMAP_STATUS_MAP_UNINITIALIZED, obj)
      else
        let map := o_data o in
        m <- load_map map ;;
        HMAP_destroy_loop (Z.to_nat (m_buckets_len m)) 0 map ;;;
        m <- load_map map ;;
        call_free (m_free m) (m_buckets m) ;;;
        m <- load_map map ;;
        call_free (m_free m) map ;;;
        ret (HMAP_STATUS_SUCCESS, Some {| o_data := HMAP_INVALID_POINTER |})
  end.

Definition HMAP_get_data (obj : option HMAP_obj_type) (key : option blob)
    (data : option HMAP_anon_out) : M (HMAP_status_t8 * option HMAP_anon_out) :=
  match obj, key, data with
  | Some o, Some k, Some d =>
      if o_data o =? HMAP_INVALID_POINTER then ret (HMAP_STATUS_MAP_UNINITIALIZED, data)
      else
        let map := o_data o in
        entry <- get_entry_by_key map k ;;
        if entry =? HMAP_INVALID_POINTER then ret (HMAP_STATUS_KEY_NOT_IN_MAP, data)
        else
          e <- load_entry entry ;;
          source <- load_bytes (a_ptr (e_data e)) ;;
          copied <- lift (copy_anon_data (out_storage d) source (a_size (e_data e))) ;;
          ret (HMAP_STATUS_SUCCESS,
               Some {| out_storage := fst copied; out_size := snd copied |})
  | _, _, _ => ret (HMAP_STATUS_INVALID_ARG, data)
  end.

(** [entry_count], [size] and [hash] out-pointers: [None] is a null pointer,
    [Some _] the caller's variable. *)
Definition HMAP_get_entry_count (obj : option HMAP_obj_type) (entry_count : option Z)
  : M (HMAP_status_t8 * option Z) :=
  match obj with
  | None => ret (HMAP_STATUS_INVALID_ARG, entry_count)
  | Some o =>
      if o_data o =? HMAP_INVALID_POINTER then
        ret (HMAP_STATUS_MAP_UNINITIALIZED, entry_count)
      else
        m <- load_map (o_data o) ;;
        match entry_count with
        | None => raise InvalidPointer
        | Some _ => ret (HMAP_STATUS_SUCCESS, Some (m_entry_count m))
        end
  end.

Definition HMAP_get_hash (obj : option HMAP_obj_type) (data : option blob)
    (hash : option HMAP_hash_val_type) : M (HMAP_status_t8 * option HMAP_hash_val_type) :=
  match obj, data, hash with
  | Some o, Some d, Some _ =>
      if o_data o =? HMAP_INVALID_POINTER then ret (HMAP_STATUS_MAP_UNINITIALIZED, hash)
      else
        m <- load_map (o_data o) ;;
        h <- call_hash (m_hash m) d ;;
        ret (HMAP_STATUS_SUCCESS, Some (wrap h))
  | _, _, _ => ret (HMAP_STATUS_INVALID_ARG, hash)
  end.

Definition HMAP_get_size (obj : option HMAP_obj_type) (size : option Z)
  : M (HMAP_status_t8 * option Z) :=
  match obj with
  | None => ret (HMAP_STATUS_INVALID_ARG, size)
  | Some o =>
      if o_data o =? HMAP_INVALID_POINTER then ret (HMAP_STATUS_MAP_UNINITIALIZED, size)
      else
        m <- load_map (o_data o) ;;
        match size with
        | None => raise InvalidPointer
        | Some _ => ret (HMAP_STATUS_SUCCESS, Some (m_size m))
        end
  end.

Definition HMAP_key_in_map (obj : option HMAP_obj_type) (key : option blob)
  : M HMAP_bool_t8 :=
  match obj, key with
  | Some o, Some k =>
      if o_data o =? HMAP_INVALID_POINTER then ret HMAP_BOOL_FALSE
      else
        entry <- get_entry_by_key (o_data o) k ;;
        ret (if entry =? HMAP_INVALID_POINTER then HMAP_BOOL_FALSE else HMAP_BOOL_TRUE)
  | _, _ => ret HMAP_BOOL_FALSE
  end.

Definition HMAP_remove_entry (obj : option HMAP_obj_type) (key : option blob)
  : M HMAP_status_t8 :=
  match obj, key with
  | Some o, Some k =>
      if o_data o =? HMAP_INVALID_POINTER then ret HMAP_STATUS_MAP_UNINITIALIZED
      else
        let map := o_data o in
        entry <- get_entry_by_key map k ;;
        (if negb (entry =? HMAP_INVALID_POINTER) then
           e <- load_entry entry ;;
           (if negb (e_previous e =? HMAP_INVALID_POINTER) then
              previous <- load_entry (e_previous e) ;;
              store (e_previous e) (BEntry (set_e_next previous (e_next e))) ;;;
              if negb (e_next e =? HMAP_INVALID_POINTER) then
                next <- load_entry (e_next e) ;;
                store (e_next e) (BEntry (set_e_previous next (e_previous e)))
              else ret tt
            else
              bucket <- get_bucket_by_hash map (e_key_hash e) ;;
              store_bucket bucket (e_next e)) ;;;
           destroy_entry map entry
         else ret tt) ;;;
        ret HMAP_STATUS_SUCCESS
  | _, _ => ret HMAP_STATUS_INVALID_ARG
  end.

Definition HMAP_set_data (obj : option HMAP_obj_type) (key data : option blob)
  : M HMAP_status_t8 :=
  match obj, key, data with
  | Some o, Some k, Some d =>
      if o_data o =? HMAP_INVALID_POINTER then ret HMAP_STATUS_MAP_UNINITIALIZED
      else
        let map := o_data o in
        found <- get_entry_by_key map k ;;
        entry <- (if found =? HMAP_INVALID_POINTER then
                    entry <- create_entry map k d ;;
                    e <- load_entry entry ;;
                    bucket <- get_bucket_by_hash map (e_key_hash e) ;;
                    head <- load_bucket bucket ;;
                    store entry (BEntry (set_e_next e head)) ;;;
                    (if negb (head =? HMAP_INVALID_POINTER) then
                       next <- load_entry head ;;
                       store head (BEntry (set_e_previous next entry))
                     else ret tt) ;;;
                    store_bucket bucket entry ;;;
                    ret entry
                  else ret found) ;;
        e <- load_entry entry ;;
        (if negb (a_size (e_data e) =? blob_size d) then
           m <- load_map map ;;
           let delta := wrap (blob_size d - a_size (e_data e)) in
           store map (BMap (set_m_totals m (m_entry_count m)
                              (wrap (m_data_size m + delta))
                              (m_key_size m)
                              (wrap (m_size m + delta)))) ;;;
           call_free (m_free m) (a_ptr (e_data e)) ;;;
           p <- call_malloc (m_malloc m) (blob_size d)
                  (BBytes (repeat x00 (Z.to_nat (blob_size d)))) ;;
           store entry (BEntry (set_e_data e {| a_ptr := p; a_size := blob_size d |}))
         else ret tt) ;;;
        e <- load_entry entry ;;
        destination <- load_bytes (a_ptr (e_data e)) ;;
        copied <- lift (copy_anon_data destination d (blob_size d)) ;;
        store (a_ptr (e_data e)) (BBytes (fst copied)) ;;;
        store entry (BEntry (set_e_data e {| a_ptr := a_ptr (e_data e);
                                             a_size := snd copied |})) ;;;
        ret HMAP_STATUS_SUCCESS
  | _, _, _ => ret HMAP_STATUS_INVALID_ARG
  end.

End Procedures.


(** The layout of the usual 64-bit ABI: 32-bit [unsigned int], 8-byte
    pointers. *)
Definition lp64_uint_bits_ge : 16 <= 32.
Proof. lia. Qed.

#[export] Instance lp64 : Layout :=
  {| uint_bits := 32; sizeof_map := 56; sizeof_entry := 64; sizeof_bucket := 8;
     uint_bits_ge := lp64_uint_bits_ge |}.

(** ** The hash recurrence as the specification words it *)

Section HashSpec.
Context `{Layout}.

Definition byte_value (b : byte) : Z := Z.of_N (Byte.to_N b).

(** One step: [accumulator = (accumulator << 16) + (accumulator << 6)
    - accumulator + b], reduced modulo [2 ^ W] once. *)
Definition sdbm_step (accumulator : Z) (b : byte) : Z :=
  (Z.shiftl accumulator 16 + Z.shiftl accumulator 6 - accumulator + byte_value b)
    mod 2 ^ uint_bits.

Definition sdbm_recurrence (input : blob) : Z := fold_left sdbm_step input 0.

End HashSpec.

(** ** The table a memory represents *)

Section Representation.
Context `{Layout}.

(** An entry together with its address and the contents of its key and
    data blocks. *)
Record node := {
  n_addr : addr;
  n_entry : hmap_entry_type;
  n_key : list byte;
  n_data : list byte
}.

(** The blocks an entry owns. *)
Definition node_fp (n : node) : list addr :=
  [n_addr n; a_ptr (e_key (n_entry n)); a_ptr (e_data (n_entry n))].

Definition node_ok (h : gmap Z block) (n : node) : Prop :=
  h !! n_addr n = Some (BEntry (n_entry n)) /\
  h !! a_ptr (e_key (n_entry n)) = Some (BBytes (n_key n)) /\
  h !! a_ptr (e_data (n_entry n)) = Some (BBytes (n_data n)) /\
  a_size (e_key (n_entry n)) = blob_size (n_key n) /\
  a_size (e_data (n_entry n)) = blob_size (n_data n).

(** [next] links: the chain starting at [p] visits exactly the nodes of
    [ch] and ends in the null pointer. *)
Fixpoint next_linked (p : addr) (ch : list node) : Prop :=
  match ch with
  | [] => p = HMAP_INVALID_POINTER
  | n :: rest => p = n_addr n /\ next_linked (e_next (n_entry n)) rest
  end.

(** [previous] links of the nodes that follow the node at [prev]. *)
Fixpoint prev_linked (prev : addr) (ch : list node) : Prop :=
  match ch with
  | [] => True
  | n :: rest => e_previous (n_entry n) = prev /\ prev_linked (n_addr n) rest
  end.

(** A pointer that is null or names a retired block. *)
Definition stale (s : mem) (p : addr) : Prop :=
  p = HMAP_INVALID_POINTER \/ (heap s !! p = None /\ 0 < p < brk s).

Definition chain_head (ch : list node) : addr :=
  match ch with [] => HMAP_INVALID_POINTER | n :: _ => n_addr n end.

Definition chain_ok (s : mem) (ch : list node) : Prop :=
  next_linked (chain_head ch) ch /\
  match ch with
  | [] => True
  | n :: rest => stale s (e_previous (n_entry n)) /\ prev_linked (n_addr n) rest
  end.

(** Memory [s] holds, behind handle [o], the map structure [m] whose
    buckets hold the chains [chains]. *)
Record Rep (s : mem) (o : HMAP_obj_type) (m : hmap_map_type)
    (chains : list (list node)) : Prop := {
  rep_map : heap s !! o_data o = Some (BMap m);
  rep_buckets : heap s !! m_buckets m = Some (BBuckets (map chain_head chains));
  rep_len : m_buckets_len m = Z.of_nat (length chains);
  rep_hash : is_Some (m_hash m);
  rep_malloc : is_Some (m_malloc m);
  rep_free : is_Some (m_free m);
  rep_chains : Forall (chain_ok s) chains;
  rep_nodes : Forall (node_ok (heap s)) (concat chains);
  rep_sep : NoDup (o_data o :: m_buckets m :: flat_map node_fp (concat chains));
  rep_live : forall p, is_Some (heap s !! p) -> 0 < p < brk s
}.

(** The nodes of the buckets other than bucket [i]. *)
Definition others (chains : list (list node)) (i : nat) : list node :=
  concat (take i chains) ++ concat (drop (S i) chains).

(** Memory [s'] extends [s]: retired blocks stay retired. *)
Definition extends (s s' : mem) : Prop :=
  brk s <= brk s' /\
  forall p, 0 < p < brk s -> heap s !! p = None -> heap s' !! p = None.

(** The map structure after [HMAP_set_data] has given the existing entry
    [e] the value [data]. *)
Definition updated_map (m : hmap_map_type) (e : hmap_entry_type) (data : blob)
  : hmap_map_type :=
  if a_size (e_data e) =? blob_size data then m
  else
    let delta := wrap (blob_size data - a_size (e_data e)) in
    set_m_totals m (m_entry_count m) (wrap (m_data_size m + delta))
      (m_key_size m) (wrap (m_size m + delta)).

(** The node [n] holding [data] in the data block [d]. *)
Definition with_data (n : node) (d : addr) (data : blob) : node :=
  {| n_addr := n_addr n;
     n_entry := set_e_data (n_entry n) {| a_ptr := d; a_size := blob_size data |};
     n_key := n_key n; n_data := data |}.

Definition updated_node (s : mem) (n : node) (data : blob) : node :=
  with_data n
    (if a_size (e_data (n_entry n)) =? blob_size data then a_ptr (e_data (n_entry n))
     else brk s)
    data.

(** The entry [create_entry] builds in the fresh block [b], its data and
    key blocks being the next two blocks, and the totals it leaves. *)
Definition created_entry (b : addr) (hash : HMAP_hash_func_type) (key data : blob)
  : hmap_entry_type :=
  {| e_data := {| a_ptr := b + 1; a_size := blob_size data |};
     e_key := {| a_ptr := b + 2; a_size := blob_size key |};
     e_key_hash := wrap (hash key);
     e_next := HMAP_INVALID_POINTER;
     e_previous := HMAP_INVALID_POINTER;
     e_size := wrap (wrap (blob_size data + blob_size key) + sizeof_entry) |}.

Definition entry_added (m : hmap_map_type) (key data : blob) : hmap_map_type :=
  set_m_totals m (wrap (m_entry_count m + 1))
    (wrap (m_data_size m + blob_size data))
    (wrap (m_key_size m + blob_size key))
    (wrap (m_size m + wrap (wrap (blob_size data + blob_size key) + sizeof_entry))).

(** The new node at the head of its bucket, and the old chain behind it. *)
Definition inserted_node (b : addr) (hash : HMAP_hash_func_type) (key data : blob)
    (ch : list node) : node :=
  {| n_addr := b;
     n_entry := set_e_next (created_entry b hash key data) (chain_head ch);
     n_key := key; n_data := data |}.

Definition relinked (b : addr) (ch : list node) : list node :=
  match ch with
  | [] => []
  | h :: t =>
      {| n_addr := n_addr h; n_entry := set_e_previous (n_entry h) b;
         n_key := n_key h; n_data := n_data h |} :: t
  end.

(** The totals [destroy_entry] leaves after entry [e] is gone. *)
Definition entry_removed (m : hmap_map_type) (e : hmap_entry_type) : hmap_map_type :=
  set_m_totals m (wrap (m_entry_count m - 1))
    (wrap (m_data_size m - a_size (e_data e)))
    (wrap (m_key_size m - a_size (e_key e)))
    (wrap (m_size m - e_size e)).

(** The node [a] with its [next] link set to [p]. *)
Definition with_next (a : node) (p : addr) : node :=
  {| n_addr := n_addr a; n_entry := set_e_next (n_entry a) p;
     n_key := n_key a; n_data := n_data a |}.

(** What the chain search looks at in a node. *)
Definition node_sig (n : node) : addr * Z * list byte :=
  (n_addr n, e_key_hash (n_entry n), n_key n).

(** A memory the allocator can extend: live blocks lie below [brk]. *)
Definition mem_ok (s : mem) : Prop :=
  0 < brk s /\ forall p, is_Some (heap s !! p) -> 0 < p < brk s.

(** Tables obtained from a successful [HMAP_create] by calls of
    [HMAP_set_data] and [HMAP_remove_entry] that return. *)
Inductive reachable : mem -> HMAP_obj_type -> Prop :=
  | reachable_create s def o0 o s' :
      mem_ok s ->
      HMAP_create (Some def) (Some o0) s = Ok ((HMAP_STATUS_SUCCESS, Some o), s') ->
      reachable s' o
  | reachable_set s o key data status s' :
      reachable s o ->
      HMAP_set_data (Some o) (Some key) (Some data) s = Ok (status, s') ->
      reachable s' o
  | reachable_remove s o key status s' :
      reachable s o ->
      HMAP_remove_entry (Some o) (Some key) s = Ok (status, s') ->
      reachable s' o.

(** What the chain search yields on the chains of a table: the entries of
    the key's bucket with the key's hash are collected into the array of
    [MAX_COLLISIONS] slots, then compared byte for byte. *)
Definition same_hash (key_hash : Z) (n : node) : bool :=
  e_key_hash (n_entry n) =? key_hash.

Definition same_key (key : blob) (n : node) : bool :=
  bool_decide (n_key n = key).

Definition bucket_of (m : hmap_map_type) (chains : list (list node)) (key_hash : Z)
  : list node :=
  chains !!! Z.to_nat (key_hash mod m_buckets_len m).

Definition search (m : hmap_map_type) (chains : list (list node)) (key : blob)
    (hash : HMAP_hash_func_type) : res addr :=
  let key_hash := wrap (hash key) in
  if m_buckets_len m =? 0 then Fault DivisionByZero
  else
    let candidates := List.filter (same_hash key_hash) (bucket_of m chains key_hash) in
    if MAX_COLLISIONS <? Z.of_nat (length candidates) then Fault OutOfBounds
    else Ok (match List.find (same_key key) candidates with
             | Some n => n_addr n
             | None => HMAP_INVALID_POINTER
             end).

End Representation.

(** ** Concrete runs *)

(** The result of a run without the memory, and the memory it leaves. *)
Definition value {A} (r : res (A * mem)) : res A :=
  match r with Ok (a, _) => Ok a | Fault f => Fault f end.

Definition state_after {A} (r : res (A * mem)) : mem :=
  match r with Ok (_, s) => s | Fault _ => mem_init end.

Definition null_obj : HMAP_obj_type := {| o_data := HMAP_INVALID_POINTER |}.

(** A definition with the default hash and both hooks. *)
Definition def_sdbm (map_size : Z) : HMAP_def_type :=
  {| d_map_size := map_size; d_hash_type := HMAP_HASH_FUNC_SDBM; d_hash := None;
     d_malloc := Some caller_malloc; d_free := Some caller_free |}.

(** The handle [HMAP_create] fills in on the initial memory: the map
    structure is the first block allocated. *)
Definition obj1 : HMAP_obj_type := {| o_data := 1 |}.

(** A table of eight buckets on the 64-bit layout. *)
Definition s_created : mem :=
  state_after (HMAP_create (Some (def_sdbm 8)) (Some null_obj) mem_init).

(** A caller buffer of [n] bytes. *)
Definition buffer (n : nat) : HMAP_anon_out :=
  {| out_storage := repeat x00 n; out_size := 0 |}.

(** A run of [HMAP_set_data] calls, each key set to the given value. *)
Fixpoint set_all (o : HMAP_obj_type) (kvs : list (blob * blob)) (s : mem)
  : res (list HMAP_status_t8 * mem) :=
  match kvs with
  | [] => Ok ([], s)
  | (k, v) :: kvs' =>
      match HMAP_set_data (Some o) (Some k) (Some v) s with
      | Ok (st, s') =>
          match set_all o kvs' s' with
          | Ok (sts, s'') => Ok (st :: sts, s'')
          | Fault f => Fault f
          end
      | Fault f => Fault f
      end
  end.

(** The entries reachable from the buckets of a table, bucket by bucket
    along the [next] links. *)
Fixpoint chain_entries (fuel : nat) (h : gmap Z block) (p : addr)
  : list hmap_entry_type :=
  match fuel with
  | O => []
  | S fuel' =>
      match h !! p with
      | Some (BEntry e) => e :: chain_entries fuel' h (e_next e)
      | _ => []
      end
  end.

Definition table_entries (s : mem) (o : HMAP_obj_type) : list hmap_entry_type :=
  match heap s !! o_data o with
  | Some (BMap m) =>
      match heap s !! m_buckets m with
      | Some (BBuckets heads) => flat_map (chain_entries (size (heap s)) (heap s)) heads
      | _ => []
      end
  | _ => []
  end.

(** Keys made of zero bytes only: the default hash sends each of them to 0. *)
Definition zero_key (n : nat) : blob := repeat x00 n.

Definition six_zero_keys : list (blob * blob) :=
  [ (zero_key 0, ["0"%byte]); (zero_key 1, ["1"%byte]); (zero_key 2, ["2"%byte]);
    (zero_key 3, ["3"%byte]); (zero_key 4, ["4"%byte]); (zero_key 5, ["5"%byte]) ].

Definition s_six_zero_keys : mem := state_after (set_all obj1 six_zero_keys s_created).

Definition s_five_zero_keys : mem :=
  state_after (set_all obj1 (take 5 six_zero_keys) s_created).

(** Keys "a" and "i" fall into bucket 1 of 8. *)
Definition key_a : blob := ["a"%byte].
Definition key_i : blob := ["i"%byte].

Definition s_a : mem :=
  state_after (HMAP_set_data (Some obj1) (Some key_a) (Some ["1"%byte]) s_created).

(** "a" set a second time, to a longer value. *)
Definition s_a_longer : mem :=
  state_after (HMAP_set_data (Some obj1) (Some key_a) (Some ["2"%byte; "2"%byte]) s_a).

Definition s_a_i : mem :=
  state_after (HMAP_set_data (Some obj1) (Some key_i) (Some ["2"%byte]) s_a).

(** "i", the head of the bucket, removed again: "a" is the head now. *)
Definition s_a_i_removed : mem :=
  state_after (HMAP_remove_entry (Some obj1) (Some key_i) s_a_i).

Definition s_a_again : mem :=
  state_after (HMAP_set_data (Some obj1) (Some key_a) (Some ["3"%byte]) s_a_i_removed).

(** A handle no [HMAP_create] has filled in and nobody has cleared: its
    [data] field holds what the caller's memory happened to hold, here an
    address that names no block. *)
Definition stray_obj : HMAP_obj_type := {| o_data := 9 |}.

(** "a" removed from the table that holds it alone. *)
Definition s_a_removed : mem :=
  state_after (HMAP_remove_entry (Some obj1) (Some key_a) s_a).

(** A definition that selects the custom hash and gives no function. *)
Definition def_custom_missing : HMAP_def_type :=
  {| d_map_size := 8; d_hash_type := HMAP_HASH_FUNC_CUSTOM; d_hash := None;
     d_malloc := Some caller_malloc; d_free := Some caller_free |}.

(** ** What [HMAP_create] builds *)

Section CreateSpec.
Context `{Layout}.

(** The map structure a successful [HMAP_create] leaves behind. *)
Definition created_map (def : HMAP_def_type) (map : addr) (hash : HMAP_hash_func_type)
  : hmap_map_type :=
  {| m_buckets := map + 1; m_buckets_len := wrap (d_map_size def);
     m_data_size := 0; m_entry_count := 0; m_key_size := 0;
     m_size := wrap (sizeof_map + sizeof_bucket * wrap (d_map_size def));
     m_hash := Some hash; m_free := d_free def; m_malloc := d_malloc def |}.

Definition chosen_hash (def : HMAP_def_type) : HMAP_hash_fptr_type :=
  if d_hash_type def =? HMAP_HASH_FUNC_CUSTOM then d_hash def else Some hash_sdbm.

End CreateSpec.

(** ** What a caller observes *)

Section Observations.
Context `{Layout}.

(** A computation that leaves the memory as it found it. *)
Definition readonly {A} (c : M A) : Prop :=
  forall s a s', c s = Ok (a, s') -> s' = s.

(** [HMAP_get_data] into a buffer as long as [data] succeeds and fills it
    with [data]: the table holds [data] under [key]. *)
Definition holds_value (s : mem) (o : HMAP_obj_type) (key data : blob) : Prop :=
  HMAP_get_data (Some o) (Some key) (Some (buffer (length data))) s
  = Ok ((HMAP_STATUS_SUCCESS,
         Some {| out_storage := data; out_size := blob_size data |}), s).

(** [HMAP_get_size] reports [total]. *)
Definition total_size (s : mem) (o : HMAP_obj_type) (total : Z) : Prop :=
  HMAP_get_size (Some o) (Some 0) s = Ok ((HMAP_STATUS_SUCCESS, Some total), s).

(** [HMAP_get_entry_count] reports [count]. *)
Definition entry_count (s : mem) (o : HMAP_obj_type) (count : Z) : Prop :=
  HMAP_get_entry_count (Some o) (Some 0) s = Ok ((HMAP_STATUS_SUCCESS, Some count), s).

(** The lookup of [key] finds the entry [e] at [p], whose key block holds
    the bytes of [key]. *)
Definition key_storage (s : mem) (o : HMAP_obj_type) (key : blob) (p : addr)
    (e : hmap_entry_type) : Prop :=
  get_entry_by_key (o_data o) key s = Ok (p, s) /\
  p <> HMAP_INVALID_POINTER /\
  heap s !! p = Some (BEntry e) /\
  heap s !! a_ptr (e_key e) = Some (BBytes key).

(** From [s] to [s'] the blocks of [F] have been retired; apart from them
    and the two blocks [map] and [buckets] the memory is as it was. *)
Definition released (map buckets : addr) (s s' : mem) (F : list addr) : Prop :=
  brk s' = brk s /\
  (forall q, q ∈ F -> heap s' !! q = None /\ 0 < q < brk s') /\
  (forall q, q <> map -> q <> buckets -> q ∉ F -> heap s' !! q = heap s !! q).

(** The blocks of a table. *)
Definition table_fp (o : HMAP_obj_type) (m : hmap_map_type) (chains : list (list node))
  : list addr :=
  o_data o :: m_buckets m :: flat_map node_fp (concat chains).

End Observations.

(** ** What the chains hold *)

Section Contents.
Context `{Layout}.

(** Bytes in a list of blobs. *)
Definition bytes (l : list (list byte)) : Z :=
  foldr (fun b acc => blob_size b + acc) 0 l.

(** A node of bucket [i] carries the hash of its key, and that hash selects
    bucket [i]. *)
Definition well_placed (hash : HMAP_hash_func_type) (len : Z) (i : nat) (n : node)
  : Prop :=
  e_key_hash (n_entry n) = wrap (hash (n_key n)) /\
  Z.to_nat (wrap (hash (n_key n)) mod len) = i.

(** The chains of a table hashed by [hash]: every node sits in the bucket of
    its key, no key is stored twice, and the map structure counts the
    entries and the bytes of their keys and values. *)
Record Inv (hash : HMAP_hash_func_type) (m : hmap_map_type)
    (chains : list (list node)) : Prop := {
  inv_hash : m_hash m = Some hash;
  inv_placed : forall i ch,
    chains !! i = Some ch -> Forall (well_placed hash (m_buckets_len m) i) ch;
  inv_keys : NoDup (map n_key (concat chains));
  inv_count : m_entry_count m = wrap (Z.of_nat (length (concat chains)));
  inv_key_size : m_key_size m = wrap (bytes (map n_key (concat chains)));
  inv_data_size : m_data_size m = wrap (bytes (map n_data (concat chains)))
}.

(** The key and the value a node holds, and those of all chains. *)
Definition node_item (n : node) : list byte * list byte := (n_key n, n_data n).

Definition items (chains : list (list node)) : list (list byte * list byte) :=
  map node_item (concat chains).

(** Tables built from the definition [def]: [reachable], with the
    definition of the creating call kept. *)
Inductive built (def : HMAP_def_type) : mem -> HMAP_obj_type -> Prop :=
  | built_create s o0 o s' :
      mem_ok s ->
      HMAP_create (Some def) (Some o0) s = Ok ((HMAP_STATUS_SUCCESS, Some o), s') ->
      built def s' o
  | built_set s o key data status s' :
      built def s o ->
      HMAP_set_data (Some o) (Some key) (Some data) s = Ok (status, s') ->
      built def s' o
  | built_remove s o key status s' :
      built def s o ->
      HMAP_remove_entry (Some o) (Some key) s = Ok (status, s') ->
      built def s' o.

(** The blocks found by walking a table: the map structure, the bucket
    array, and along every chain each entry with its key and data blocks. *)
Fixpoint chain_blocks (fuel : nat) (h : gmap Z block) (p : addr) : list addr :=
  match fuel with
  | O => []
  | S fuel' =>
      match h !! p with
      | Some (BEntry e) =>
          p :: a_ptr (e_key e) :: a_ptr (e_data e) :: chain_blocks fuel' h (e_next e)
      | _ => []
      end
  end.

(** The key and the value of an entry, read from its two blocks, and the
    keys and values of the entries found by walking a table. *)
Definition entry_item (h : gmap Z block) (e : hmap_entry_type)
  : list byte * list byte :=
  (match h !! a_ptr (e_key e) with Some (BBytes k) => k | _ => [] end,
   match h !! a_ptr (e_data e) with Some (BBytes d) => d | _ => [] end).

Definition table_items (s : mem) (o : HMAP_obj_type) : list (list byte * list byte) :=
  map (entry_item (heap s)) (table_entries s o).

Definition table_blocks (s : mem) (o : HMAP_obj_type) : list addr :=
  match heap s !! o_data o with
  | Some (BMap m) =>
      o_data o :: m_buckets m ::
      match heap s !! m_buckets m with
      | Some (BBuckets heads) => flat_map (chain_blocks (size (heap s)) (heap s)) heads
      | _ => []
      end
  | _ => []
  end.

End Contents.

(** * Proofs *)

(** Linear arithmetic without the disequalities of the context, each of
    which doubles the cases [lia] goes through. *)
Ltac clear_ne := repeat match goal with Hne : _ <> _ |- _ => clear Hne end.
Ltac zlia := clear_ne; lia.

Ltac heap_simpl :=
  repeat first
    [ rewrite lookup_insert_eq
    | rewrite lookup_delete_eq
    | rewrite lookup_insert_ne by (first [assumption | congruence | zlia])
    | rewrite lookup_delete_ne by (first [assumption | congruence | zlia]) ].

Ltac simpl_proj :=
  cbn [heap brk fst snd o_data a_ptr a_size out_storage out_size
       e_data e_key e_key_hash e_next e_previous e_size
       m_buckets m_buckets_len m_data_size m_entry_count m_key_size
       m_size m_hash m_free m_malloc
       set_e_data set_e_next set_e_previous set_m_totals].

(** Symbolic execution by unfolding: the monad and the primitives are
    unfolded and the lookups they perform resolved. *)
Ltac exec :=
  repeat (progress
            (try unfold bind; try unfold ret; try unfold lift; try unfold raise;
             try unfold load_map; try unfold load_entry; try unfold load_bytes;
             try unfold load_buckets; try unfold load; try unfold store;
             try unfold call_malloc; try unfold call_free; try unfold call_hash;
             try unfold live_blocks;
             cbn [heap brk fst snd o_data a_ptr a_size out_storage out_size
                  e_data e_key e_key_hash e_next e_previous e_size
                  m_buckets m_buckets_len m_data_size m_entry_count m_key_size
                  m_size m_hash m_free m_malloc
                  set_e_data set_e_next set_e_previous set_m_totals];
             heap_simpl)).


(** ** Unsigned arithmetic *)

Section Wrap.
Context `{Layout}.

Lemma wrap_add_l a b : wrap (wrap a + b) = wrap (a + b).
Proof. unfold wrap. apply Zplus_mod_idemp_l. Qed.

Lemma wrap_add_r a b : wrap (a + wrap b) = wrap (a + b).
Proof. unfold wrap. apply Zplus_mod_idemp_r. Qed.

Lemma wrap_sub_l a b : wrap (wrap a - b) = wrap (a - b).
Proof. unfold wrap. apply Zminus_mod_idemp_l. Qed.

Lemma wrap_idemp a : wrap (wrap a) = wrap a.
Proof. unfold wrap. apply Zmod_mod. Qed.

Lemma uint_range_16 : 2 ^ 16 <= 2 ^ uint_bits.
Proof. apply Z.pow_le_mono_r; [lia | apply uint_bits_ge]. Qed.

Lemma wrap_small a : 0 <= a < 2 ^ 16 -> wrap a = a.
Proof.
  intros Ha. unfold wrap. apply Z.mod_small.
  pose proof uint_range_16. lia.
Qed.

End Wrap.

(** ** The default hash *)

Section Hash.
Context `{Layout}.

Lemma hash_sdbm_step_eq hash b :
  wrap (wrap (wrap (wrap (Z.shiftl hash 16) + wrap (Z.shiftl hash 6)) - hash)
        + byte_value b)
  = sdbm_step hash b.
Proof.
  unfold sdbm_step. fold (wrap (Z.shiftl hash 16 + Z.shiftl hash 6 - hash + byte_value b)).
  set (a := Z.shiftl hash 16). set (c := Z.shiftl hash 6). set (d := byte_value b).
  rewrite (wrap_add_l (wrap (wrap a + wrap c) - hash) d).
  replace (wrap (wrap a + wrap c) - hash + d)
    with (wrap (wrap a + wrap c) + (d - hash)) by lia.
  rewrite (wrap_add_l (wrap a + wrap c)).
  replace (wrap a + wrap c + (d - hash)) with (wrap a + (wrap c + (d - hash))) by lia.
  rewrite (wrap_add_l a).
  replace (a + (wrap c + (d - hash))) with (wrap c + (a + (d - hash))) by lia.
  rewrite wrap_add_l. f_equal. lia.
Qed.

Lemma hash_sdbm_loop_fold (done rest : list byte) (hash : Z) :
  hash_sdbm_loop (length rest) (Z.of_nat (length done)) (done ++ rest) hash
  = fold_left sdbm_step rest hash.
Proof.
  revert done hash. induction rest as [|b rest IH]; intros done hash; [reflexivity|].
  cbn [length hash_sdbm_loop fold_left].
  rewrite Nat2Z.id, app_nth2, Nat.sub_diag by lia. cbn [nth].
  fold (byte_value b). rewrite hash_sdbm_step_eq.
  replace (Z.of_nat (length done) + 1) with (Z.of_nat (length (done ++ [b])))
    by (rewrite length_app; cbn; lia).
  replace (done ++ b :: rest) with ((done ++ [b]) ++ rest)
    by (rewrite <- app_assoc; reflexivity).
  apply IH.
Qed.

(** C8. For every input blob the default hash [hash_sdbm] (the loop of the
    source, every operation in unsigned arithmetic) equals the recurrence
    that starts from an accumulator of zero and, for each input byte [b] in
    order, sets accumulator = (accumulator << 16) + (accumulator << 6)
    - accumulator + b modulo 2 ^ W, W the width of [unsigned int]. *)
Theorem hash_sdbm_is_recurrence (key : blob) :
  hash_sdbm key = sdbm_recurrence key.
Proof.
  unfold hash_sdbm, sdbm_recurrence, blob_size. rewrite Nat2Z.id.
  apply (hash_sdbm_loop_fold [] key 0).
Qed.

(** The comment in the source: one step is [hash * 65599 + byte]. *)
Lemma sdbm_step_65599 hash b :
  sdbm_step hash b = (hash * 65599 + byte_value b) mod 2 ^ uint_bits.
Proof.
  unfold sdbm_step. rewrite !Z.shiftl_mul_pow2 by lia. f_equal. lia.
Qed.

End Hash.

(** ** Running the primitives *)

Section Exec.
Context `{Layout}.

Lemma bind_ok {A B} (c : M A) (k : A -> M B) s a s' :
  c s = Ok (a, s') -> bind c k s = k a s'.
Proof. intros Hc. unfold bind. rewrite Hc. reflexivity. Qed.

Lemma bind_fault {A B} (c : M A) (k : A -> M B) s f :
  c s = Fault f -> bind c k s = Fault f.
Proof. intros Hc. unfold bind. rewrite Hc. reflexivity. Qed.

Lemma bind_bind {A B C} (c : M A) (k1 : A -> M B) (k2 : B -> M C) s :
  bind (bind c k1) k2 s = bind c (fun a => bind (k1 a) k2) s.
Proof. unfold bind. destruct (c s) as [[a s']|f]; reflexivity. Qed.

Lemma bind_inv {A B} (c : M A) (k : A -> M B) s r :
  bind c k s = Ok r -> exists a s', c s = Ok (a, s') /\ k a s' = Ok r.
Proof.
  unfold bind. destruct (c s) as [[a s']|f]; [|discriminate].
  intros Hk. exists a, s'. split; [reflexivity | exact Hk].
Qed.

Lemma lift_ok {A} (r : res A) a s : r = Ok a -> lift r s = Ok (a, s).
Proof. intros ->. reflexivity. Qed.

Lemma ret_ok {A} (a : A) s : ret a s = Ok (a, s).
Proof. reflexivity. Qed.

Lemma load_map_ok s p m : heap s !! p = Some (BMap m) -> load_map p s = Ok (m, s).
Proof. intros Hp. unfold load_map, bind, load. rewrite Hp. reflexivity. Qed.

Lemma load_entry_ok s p e : heap s !! p = Some (BEntry e) -> load_entry p s = Ok (e, s).
Proof. intros Hp. unfold load_entry, bind, load. rewrite Hp. reflexivity. Qed.

Lemma load_bytes_ok s p bs : heap s !! p = Some (BBytes bs) -> load_bytes p s = Ok (bs, s).
Proof. intros Hp. unfold load_bytes, bind, load. rewrite Hp. reflexivity. Qed.

Lemma load_buckets_ok s p l :
  heap s !! p = Some (BBuckets l) -> load_buckets p s = Ok (l, s).
Proof. intros Hp. unfold load_buckets, bind, load. rewrite Hp. reflexivity. Qed.

Lemma load_entry_none s p : heap s !! p = None -> load_entry p s = Fault InvalidPointer.
Proof. intros Hp. unfold load_entry, bind, load. rewrite Hp. reflexivity. Qed.

Lemma store_ok s p b :
  is_Some (heap s !! p) ->
  store p b s = Ok (tt, {| heap := <[p := b]> (heap s); brk := brk s |}).
Proof. intros [b0 Hp]. unfold store. rewrite Hp. reflexivity. Qed.

Lemma call_malloc_ok (f : HMAP_malloc_fptr) size init s :
  is_Some f ->
  call_malloc f size init s
  = Ok (brk s, {| heap := <[brk s := init]> (heap s); brk := brk s + 1 |}).
Proof. intros [x ->]. reflexivity. Qed.

Lemma call_free_ok (f : HMAP_free_fptr) p s :
  is_Some f -> p <> 0 -> is_Some (heap s !! p) ->
  call_free f p s = Ok (tt, {| heap := delete p (heap s); brk := brk s |}).
Proof.
  intros [x ->] Hp [b Hb]. unfold call_free, HMAP_INVALID_POINTER.
  destruct (Z.eqb_spec p 0) as [->|_]; [contradiction|]. rewrite Hb. reflexivity.
Qed.

Lemma call_hash_ok (f : HMAP_hash_fptr_type) h key s :
  f = Some h -> call_hash f key s = Ok (h key, s).
Proof. intros ->. reflexivity. Qed.

Lemma array_load_ok {A} (l : list A) (i : nat) x :
  l !! i = Some x -> array_load l (Z.of_nat i) = Ok x.
Proof.
  intros Hi. unfold array_load. pose proof (lookup_lt_Some _ _ _ Hi).
  destruct (Z.leb_spec 0 (Z.of_nat i)); [|lia].
  destruct (Z.ltb_spec (Z.of_nat i) (Z.of_nat (length l))); [|lia].
  cbn. rewrite Nat2Z.id, Hi. reflexivity.
Qed.

Lemma array_store_ok {A} (l : list A) (i : nat) x :
  (i < length l)%nat -> array_store l (Z.of_nat i) x = Ok (<[i := x]> l).
Proof.
  intros Hi. unfold array_store.
  destruct (Z.leb_spec 0 (Z.of_nat i)); [|lia].
  destruct (Z.ltb_spec (Z.of_nat i) (Z.of_nat (length l))); [|lia].
  cbn. rewrite Nat2Z.id. reflexivity.
Qed.

Lemma array_store_out {A} (l : list A) (i : nat) x :
  (length l <= i)%nat -> array_store l (Z.of_nat i) x = Fault OutOfBounds.
Proof.
  intros Hi. unfold array_store.
  destruct (Z.ltb_spec (Z.of_nat i) (Z.of_nat (length l))); [lia|].
  rewrite andb_false_r. reflexivity.
Qed.

(** *** The byte loops *)

Lemma anon_data_match_loop_spec (done_1 done_2 rest_1 rest_2 : list byte) :
  length done_1 = length done_2 -> length rest_1 = length rest_2 ->
  anon_data_match_loop (length rest_1) (Z.of_nat (length done_1))
    (done_1 ++ rest_1) (done_2 ++ rest_2)
  = Ok (if bool_decide (rest_1 = rest_2) then HMAP_BOOL_TRUE else HMAP_BOOL_FALSE).
Proof.
  revert done_1 done_2 rest_2.
  induction rest_1 as [|b1 rest_1 IH]; intros done_1 done_2 [|b2 rest_2] Hd Hr;
    try discriminate; [reflexivity|].
  cbn [length anon_data_match_loop].
  rewrite (array_load_ok _ _ b1) by (rewrite lookup_app_r, Nat.sub_diag by lia; reflexivity).
  rewrite Hd.
  rewrite (array_load_ok _ _ b2) by (rewrite lookup_app_r, Nat.sub_diag by lia; reflexivity).
  destruct (Byte.eqb b1 b2) eqn:Hb.
  - apply Byte.byte_dec_bl in Hb. subst b2.
    replace (Z.of_nat (length done_2) + 1) with (Z.of_nat (length (done_1 ++ [b1])))
      by (rewrite length_app; cbn; lia).
    replace (done_1 ++ b1 :: rest_1) with ((done_1 ++ [b1]) ++ rest_1)
      by (rewrite <- app_assoc; reflexivity).
    replace (done_2 ++ b1 :: rest_2) with ((done_2 ++ [b1]) ++ rest_2)
      by (rewrite <- app_assoc; reflexivity).
    rewrite IH by (rewrite ?length_app; cbn in *; lia).
    do 2 case_bool_decide; try reflexivity; congruence.
  - apply Byte.eqb_false in Hb. rewrite bool_decide_eq_false_2 by congruence. reflexivity.
Qed.

Lemma anon_data_match_spec (stored key : list byte) :
  anon_data_match stored (blob_size stored) key (blob_size key)
  = Ok (if bool_decide (stored = key) then HMAP_BOOL_TRUE else HMAP_BOOL_FALSE).
Proof.
  unfold anon_data_match, blob_size.
  destruct (Z.eqb_spec (Z.of_nat (length stored)) (Z.of_nat (length key))) as [Hl|Hl]; cbn.
  - rewrite Nat2Z.id.
    apply (anon_data_match_loop_spec [] [] stored key); [reflexivity | lia].
  - rewrite bool_decide_eq_false_2; [reflexivity|]. intros ->. contradiction.
Qed.

Lemma copy_anon_data_loop_spec (done done' rest room : list byte) :
  length done = length done' -> (length rest <= length room)%nat ->
  copy_anon_data_loop (length rest) (Z.of_nat (length done)) (done ++ room) (done' ++ rest)
  = Ok (done ++ rest ++ drop (length rest) room).
Proof.
  revert done done' room.
  induction rest as [|b rest IH]; intros done done' room Hd Hr.
  - cbn. rewrite drop_0. reflexivity.
  - destruct room as [|r room]; [cbn in Hr; lia|].
    cbn [length copy_anon_data_loop].
    rewrite (array_load_ok (done' ++ b :: rest) (length done) b)
      by (rewrite Hd, lookup_app_r, Nat.sub_diag by lia; reflexivity).
    rewrite array_store_ok by (rewrite length_app; cbn; lia).
    rewrite insert_app_r_alt, Nat.sub_diag by lia. cbn [insert list_insert].
    replace (Z.of_nat (length done) + 1) with (Z.of_nat (length (done ++ [b])))
      by (rewrite length_app; cbn; lia).
    replace (done ++ b :: room) with ((done ++ [b]) ++ room)
      by (rewrite <- app_assoc; reflexivity).
    replace (done' ++ b :: rest) with ((done' ++ [b]) ++ rest)
      by (rewrite <- app_assoc; reflexivity).
    rewrite (IH (done ++ [b]) (done' ++ [b]) room)
      by (rewrite ?length_app; cbn in *; lia).
    rewrite <- app_assoc. reflexivity.
Qed.

Lemma copy_anon_data_spec (destination source : list byte) :
  (length source <= length destination)%nat ->
  copy_anon_data destination source (blob_size source)
  = Ok (source ++ drop (length source) destination, blob_size source).
Proof.
  intros Hl. unfold copy_anon_data, blob_size. rewrite Nat2Z.id.
  pose proof (copy_anon_data_loop_spec [] [] source destination eq_refl Hl) as Hloop.
  cbn [app length] in Hloop. change (Z.of_nat 0) with 0 in Hloop.
  rewrite Hloop. reflexivity.
Qed.

Lemma copy_anon_data_exact (destination source : list byte) :
  length destination = length source ->
  copy_anon_data destination source (blob_size source) = Ok (source, blob_size source).
Proof.
  intros Hl. rewrite copy_anon_data_spec by lia.
  rewrite drop_ge, app_nil_r by lia. reflexivity.
Qed.

Lemma HMAP_create_loop_spec (done rest : list addr) :
  HMAP_create_loop (length rest) (Z.of_nat (length done)) (done ++ rest)
  = Ok (done ++ repeat HMAP_INVALID_POINTER (length rest)).
Proof.
  revert done. induction rest as [|x rest IH]; intros done; [reflexivity|].
  cbn [length HMAP_create_loop].
  rewrite array_store_ok by (rewrite length_app; cbn; lia).
  rewrite insert_app_r_alt, Nat.sub_diag by lia. cbn [insert list_insert].
  replace (Z.of_nat (length done) + 1)
    with (Z.of_nat (length (done ++ [HMAP_INVALID_POINTER])))
    by (rewrite length_app; cbn; lia).
  replace (done ++ HMAP_INVALID_POINTER :: rest)
    with ((done ++ [HMAP_INVALID_POINTER]) ++ rest)
    by (rewrite <- app_assoc; reflexivity).
  rewrite IH, <- app_assoc. reflexivity.
Qed.

End Exec.

(** One statement of a procedure: run the primitive at the head of the
    sequence and continue with the rest. *)
Ltac heap_lookup :=
  simpl_proj; heap_simpl; first [eassumption | reflexivity | solve [eauto]].

Ltac is_some :=
  simpl_proj; heap_simpl;
  first [eassumption | eexists; first [eassumption | reflexivity] | solve [eauto]].

Ltac prim :=
  first
    [ apply load_map_ok; heap_lookup
    | apply load_entry_ok; heap_lookup
    | apply load_bytes_ok; heap_lookup
    | apply load_buckets_ok; heap_lookup
    | apply store_ok; is_some
    | apply call_malloc_ok; is_some
    | apply call_free_ok; [is_some | first [assumption | zlia] | is_some]
    | apply call_hash_ok; eassumption
    | apply ret_ok ].

Ltac step := rewrite ?bind_bind; erewrite bind_ok; [|prim]; cbn beta; simpl_proj.

(** The same for a statement that calls a procedure with a lemma of its own. *)
Tactic Notation "step_by" tactic3(tac) :=
  rewrite ?bind_bind; erewrite bind_ok; [|tac]; cbn beta; simpl_proj.


(** ** [HMAP_create] *)

Section Create.
Context `{Layout}.

Lemma HMAP_create_success def o0 s hash :
  is_Some (d_malloc def) -> is_Some (d_free def) -> chosen_hash def = Some hash ->
  exists s',
    HMAP_create (Some def) (Some o0) s
    = Ok ((HMAP_STATUS_SUCCESS, Some {| o_data := brk s |}), s') /\
    heap s' !! brk s = Some (BMap (created_map def (brk s) hash)) /\
    heap s' !! (brk s + 1)
    = Some (BBuckets (repeat HMAP_INVALID_POINTER (Z.to_nat (wrap (d_map_size def))))) /\
    (forall p, p <> brk s -> p <> brk s + 1 -> heap s' !! p = heap s !! p) /\
    brk s' = brk s + 2.
Proof.
  intros [fm Hm] [ff Hf] Hh. unfold HMAP_create, chosen_hash in *. rewrite Hm, Hf.
  exec.
  pose proof (HMAP_create_loop_spec [] (repeat 0 (Z.to_nat (wrap (d_map_size def))))) as Hloop.
  cbn [app length] in Hloop. change (Z.of_nat 0) with 0 in Hloop.
  rewrite repeat_length in Hloop. rewrite Hloop. exec.
  destruct (d_hash_type def =? HMAP_HASH_FUNC_CUSTOM).
  - rewrite Hh. exec. eexists. split; [reflexivity|]. unfold created_map. exec.
    rewrite Hm, Hf. repeat split; [|lia]. intros p Hp1 Hp2. now heap_simpl.
  - injection Hh as <-. exec. eexists. split; [reflexivity|]. unfold created_map. exec.
    rewrite Hm, Hf. repeat split; [|lia]. intros p Hp1 Hp2. now heap_simpl.
Qed.


Lemma HMAP_create_invalid_def_hash def o0 s :
  is_Some (d_malloc def) -> is_Some (d_free def) -> chosen_hash def = None ->
  exists s',
    HMAP_create (Some def) (Some o0) s
    = Ok ((HMAP_STATUS_INVALID_DEF, Some {| o_data := HMAP_INVALID_POINTER |}), s').
Proof.
  intros [fm Hm] [ff Hf] Hh. unfold HMAP_create, chosen_hash in *. rewrite Hm, Hf.
  exec.
  pose proof (HMAP_create_loop_spec [] (repeat 0 (Z.to_nat (wrap (d_map_size def))))) as Hloop.
  cbn [app length] in Hloop. change (Z.of_nat 0) with 0 in Hloop.
  rewrite repeat_length in Hloop. rewrite Hloop. exec.
  destruct (d_hash_type def =? HMAP_HASH_FUNC_CUSTOM); [|discriminate].
  rewrite Hh. eexists. reflexivity.
Qed.


(** ** A table without buckets *)

Lemma get_entry_by_key_no_buckets map m key s :
  heap s !! map = Some (BMap m) -> is_Some (m_hash m) -> m_buckets_len m = 0 ->
  get_entry_by_key map key s = Fault DivisionByZero.
Proof.
  intros Hmap [h Hh] Hlen.
  unfold get_entry_by_key, get_entry_by_hash, get_bucket_by_hash.
  exec. rewrite Hmap, Hh. exec. rewrite Hmap. exec. rewrite Hlen. reflexivity.
Qed.

(** C6.  [HMAP_create] accepts a definition whose bucket count is zero and
    returns success; on the table it yields every lookup ([HMAP_get_data],
    [HMAP_key_in_map]) and every mutation ([HMAP_set_data],
    [HMAP_remove_entry]) reaches [key_hash % map->buckets_len] with
    [buckets_len = 0], a division by zero. *)
Theorem HMAP_create_zero_buckets def o0 s hash :
  0 < brk s ->
  is_Some (d_malloc def) -> is_Some (d_free def) -> chosen_hash def = Some hash ->
  wrap (d_map_size def) = 0 ->
  exists o s',
    HMAP_create (Some def) (Some o0) s = Ok ((HMAP_STATUS_SUCCESS, Some o), s') /\
    forall key data out,
      HMAP_get_data (Some o) (Some key) (Some out) s' = Fault DivisionByZero /\
      HMAP_key_in_map (Some o) (Some key) s' = Fault DivisionByZero /\
      HMAP_set_data (Some o) (Some key) (Some data) s' = Fault DivisionByZero /\
      HMAP_remove_entry (Some o) (Some key) s' = Fault DivisionByZero.
Proof.
  intros Hbrk Hm Hf Hh Hzero.
  destruct (HMAP_create_success def o0 s hash Hm Hf Hh) as (s' & Hrun & Hmap & _).
  exists {| o_data := brk s |}, s'. split; [exact Hrun|].
  intros key data out.
  assert (Hlook : get_entry_by_key (brk s) key s' = Fault DivisionByZero).
  { eapply get_entry_by_key_no_buckets; [exact Hmap | cbn; eauto | exact Hzero]. }
  unfold HMAP_get_data, HMAP_key_in_map, HMAP_set_data, HMAP_remove_entry.
  cbn [o_data]. unfold HMAP_INVALID_POINTER.
  destruct (Z.eqb_spec (brk s) 0) as [Hb|_]; [lia|].
  repeat split; apply bind_fault; exact Hlook.
Qed.

End Create.


Lemma HMAP_create_zero_buckets_witness :
  exists o s',
    HMAP_create (Some (def_sdbm 0)) (Some null_obj) mem_init
    = Ok ((HMAP_STATUS_SUCCESS, Some o), s') /\
    forall key data out,
      HMAP_get_data (Some o) (Some key) (Some out) s' = Fault DivisionByZero /\
      HMAP_key_in_map (Some o) (Some key) s' = Fault DivisionByZero /\
      HMAP_set_data (Some o) (Some key) (Some data) s' = Fault DivisionByZero /\
      HMAP_remove_entry (Some o) (Some key) s' = Fault DivisionByZero.
Proof.
  apply (HMAP_create_zero_buckets (def_sdbm 0) null_obj mem_init hash_sdbm).
  - cbn. lia.
  - cbn. eauto.
  - cbn. eauto.
  - reflexivity.
  - reflexivity.
Defined.


(** ** Runs that leave the specified behaviour *)

(** C1.  Six distinct keys with one hash value (0, hence one bucket) are
    each set to their own value on a table of eight buckets; every
    [HMAP_set_data] returns success.  A [HMAP_get_data] on any of the six
    then stores a sixth candidate into the array of [MAX_COLLISIONS] = 5
    slots of [get_entry_by_key]: the array is exceeded and no value is
    returned. *)
Theorem six_colliding_keys_overrun_candidates :
  NoDup (map fst six_zero_keys) /\
  Forall (fun kv => hash_sdbm (fst kv) = 0) six_zero_keys /\
  value (set_all obj1 six_zero_keys s_created)
  = Ok (repeat HMAP_STATUS_SUCCESS 6) /\
  Forall (fun kv => value (HMAP_get_data (Some obj1) (Some (fst kv)) (Some (buffer 8))
                             s_six_zero_keys)
                    = Fault OutOfBounds) six_zero_keys.
Proof.
  split; [|split; [|split]].
  - cbn [map fst six_zero_keys zero_key repeat].
    repeat (apply NoDup_cons; split;
            [rewrite ?elem_of_cons, elem_of_nil; intuition discriminate|]).
    apply NoDup_nil. exact I.
  - repeat constructor.
  - vm_compute. reflexivity.
  - repeat constructor; vm_compute; reflexivity.
Qed.

(** C2.  "a" is set to a one-byte value and then to a two-byte value.  The
    table's total size follows (187 = 56 + 8 * 8 + 67), the entry's own
    [size] field does not: it stays at 66 although key, value and overhead
    now take 67 bytes, and the total is no longer the overheads plus the
    entries' [size] fields. *)
Theorem longer_value_leaves_entry_size_stale :
  value (HMAP_get_size (Some obj1) (Some 0) s_a_longer)
  = Ok (HMAP_STATUS_SUCCESS, Some 187) /\
  map e_size (table_entries s_a_longer obj1) = [66] /\
  map (fun e => a_size (e_key e) + a_size (e_data e) + sizeof_entry)
    (table_entries s_a_longer obj1) = [67] /\
  sizeof_map + sizeof_bucket * 8 + 66 <> 187.
Proof. repeat split; try (vm_compute; reflexivity). cbn. lia. Qed.

(** C3.  Five keys with hash 0 are stored.  Setting a sixth key with that
    hash succeeds, and the [HMAP_get_data] that follows does not yield the
    value: the chain search overruns its candidate array. *)
Theorem sixth_colliding_key_does_not_round_trip :
  let k := zero_key 5 in
  let v := ["v"%byte] in
  value (HMAP_set_data (Some obj1) (Some k) (Some v) s_five_zero_keys)
  = Ok HMAP_STATUS_SUCCESS /\
  value (HMAP_get_data (Some obj1) (Some k) (Some (buffer 8))
           (state_after (HMAP_set_data (Some obj1) (Some k) (Some v) s_five_zero_keys)))
  = Fault OutOfBounds.
Proof. split; vm_compute; reflexivity. Qed.

(** C5.  In the table left by set "a", set "i", remove "i", the entry of
    "a" heads its bucket and its [previous] link still names the destroyed
    entry of "i".  [HMAP_set_data] of "a" succeeds; the [HMAP_remove_entry]
    of "a" that follows takes the [previous != NULL] branch and writes
    through the stale link. *)
Theorem remove_after_set_follows_stale_previous :
  value (HMAP_key_in_map (Some obj1) (Some key_a) s_a_i_removed) = Ok HMAP_BOOL_TRUE /\
  value (HMAP_set_data (Some obj1) (Some key_a) (Some ["3"%byte]) s_a_i_removed)
  = Ok HMAP_STATUS_SUCCESS /\
  value (HMAP_remove_entry (Some obj1) (Some key_a) s_a_again) = Fault InvalidPointer.
Proof. repeat split; vm_compute; reflexivity. Qed.

(** C7.  From a fresh table: set "a", set "i", remove "i" all succeed and
    leave one entry, counted once.  The entry of "a" keeps a [previous]
    link to a block that is no longer live, so the remove of "a" that
    follows does not unlink it from its bucket. *)
Theorem count_lost_after_head_removal :
  value (HMAP_remove_entry (Some obj1) (Some key_i) s_a_i) = Ok HMAP_STATUS_SUCCESS /\
  value (HMAP_get_entry_count (Some obj1) (Some 0) s_a_i_removed)
  = Ok (HMAP_STATUS_SUCCESS, Some 1) /\
  (exists e, table_entries s_a_i_removed obj1 = [e] /\
             e_previous e <> HMAP_INVALID_POINTER /\
             heap s_a_i_removed !! e_previous e = None) /\
  value (HMAP_remove_entry (Some obj1) (Some key_a) s_a_i_removed) = Fault InvalidPointer.
Proof.
  split; [vm_compute; reflexivity|]. split; [vm_compute; reflexivity|].
  split; [|vm_compute; reflexivity].
  eexists. split; [vm_compute; reflexivity|]. cbn [e_previous].
  split; [discriminate | vm_compute; reflexivity].
Qed.

(** ** The chain search *)

Section Lookup.
Context `{Layout}.

Lemma live_count (h : gmap Z block) (l : list Z) :
  NoDup l -> (forall x, x ∈ l -> is_Some (h !! x)) -> (length l <= size h)%nat.
Proof.
  intros Hnd Hlive.
  rewrite <- (size_list_to_set (C := gset Z) l Hnd), <- size_dom.
  apply subseteq_size. intros x Hx. apply elem_of_list_to_set in Hx.
  apply elem_of_dom. auto.
Qed.

Lemma node_ok_live h n : node_ok h n -> forall q, q ∈ node_fp n -> is_Some (h !! q).
Proof.
  intros (Ha & Hk & Hd & _) q Hq. unfold node_fp in Hq.
  repeat (apply elem_of_cons in Hq as [->|Hq]); eauto.
  apply elem_of_nil in Hq. contradiction.
Qed.

Lemma get_entry_by_hash_loop_spec (ch : list node) :
  forall fuel key_hash p stored s,
    next_linked p ch -> Forall (node_ok (heap s)) ch ->
    Forall (fun n => n_addr n <> 0) ch ->
    (length ch < fuel)%nat -> (length stored <= 5)%nat ->
    get_entry_by_hash_loop fuel key_hash p
      (stored ++ repeat 0 (5 - length stored)) (Z.of_nat (length stored)) s
    = let found := map n_addr (List.filter (same_hash key_hash) ch) in
      if decide (length stored + length found <= 5)%nat then
        Ok ((stored ++ found ++ repeat 0 (5 - length stored - length found),
             Z.of_nat (length stored + length found)), s)
      else Fault OutOfBounds.
Proof.
  induction ch as [|n rest IH]; intros fuel key_hash p stored s Hlink Hok Hnz Hfuel Hst.
  - cbn in Hlink. subst p. destruct fuel as [|fuel]; [cbn in Hfuel; lia|].
    cbn. rewrite decide_True by lia. rewrite !Nat.add_0_r, Nat.sub_0_r. reflexivity.
  - destruct Hlink as [-> Hlink]. destruct fuel as [|fuel]; [cbn in Hfuel; lia|].
    apply Forall_cons in Hok as [Hn Hok]. apply Forall_cons in Hnz as [Hnz0 Hnz].
    cbn [get_entry_by_hash_loop]. unfold HMAP_INVALID_POINTER.
    destruct (Z.eqb_spec (n_addr n) 0) as [He|_]; [contradiction|].
    rewrite (bind_ok _ _ _ _ _ (load_entry_ok _ _ _ (proj1 Hn))).
    cbn [List.filter]. fold (same_hash key_hash n).
    destruct (same_hash key_hash n) eqn:Hh.
    + destruct (decide (length stored < 5)%nat) as [Hlt|Hge].
      * rewrite array_store_ok by (rewrite length_app, repeat_length; lia).
        cbn [lift bind].
        rewrite insert_app_r_alt, Nat.sub_diag by lia.
        destruct (5 - length stored)%nat as [|k] eqn:Hk; [lia|].
        cbn [repeat insert list_insert].
        rewrite wrap_small by lia.
        replace (stored ++ n_addr n :: repeat 0 k)
          with ((stored ++ [n_addr n]) ++ repeat 0 (5 - length (stored ++ [n_addr n])))
          by (rewrite <- app_assoc, length_app; cbn; do 3 f_equal; lia).
        replace (Z.of_nat (length stored) + 1)
          with (Z.of_nat (length (stored ++ [n_addr n])))
          by (rewrite length_app; cbn; lia).
        rewrite IH; try assumption; [|cbn in Hfuel; lia|rewrite length_app; cbn; lia].
        cbn zeta. cbn [map length]. rewrite length_app. cbn [length].
        set (found := length (map n_addr (List.filter (same_hash key_hash) rest))).
        repeat case_decide; try lia; [|reflexivity].
        rewrite <- app_assoc. cbn [app].
        replace (5 - (length stored + 1) - found)%nat
          with (5 - length stored - S found)%nat by lia.
        replace (length stored + 1 + found)%nat with (length stored + S found)%nat by lia.
        rewrite <- Hk. reflexivity.
      * rewrite array_store_out by (rewrite length_app, repeat_length; lia).
        cbn zeta. cbn [lift bind map length]. rewrite decide_False by lia. reflexivity.
    + rewrite IH; try assumption; [reflexivity | cbn in Hfuel; lia].
Qed.

Lemma get_entry_by_key_loop_spec (cs : list node) :
  forall (pre post : list addr) key s,
    Forall (node_ok (heap s)) cs ->
    get_entry_by_key_loop (length cs) (Z.of_nat (length pre))
      (pre ++ map n_addr cs ++ post) key s
    = Ok (match List.find (same_key key) cs with
          | Some n => n_addr n
          | None => HMAP_INVALID_POINTER
          end, s).
Proof.
  induction cs as [|n cs IH]; intros pre post key s Hok; [reflexivity|].
  apply Forall_cons in Hok as [(Ha & Hk & _ & Hks & _) Hok].
  cbn [length get_entry_by_key_loop map].
  rewrite (array_load_ok _ _ (n_addr n))
    by (rewrite lookup_app_r, Nat.sub_diag by lia; reflexivity).
  cbn [lift bind].
  rewrite (bind_ok _ _ _ _ _ (load_entry_ok _ _ _ Ha)).
  rewrite (bind_ok _ _ _ _ _ (load_bytes_ok _ _ _ Hk)).
  rewrite Hks, anon_data_match_spec. cbn [lift bind List.find]. unfold same_key at 1.
  case_bool_decide; [reflexivity|].
  replace (Z.of_nat (length pre) + 1) with (Z.of_nat (length (pre ++ [n_addr n])))
    by (rewrite length_app; cbn; lia).
  replace (pre ++ (n_addr n :: map n_addr cs) ++ post)
    with ((pre ++ [n_addr n]) ++ map n_addr cs ++ post)
    by (rewrite <- app_assoc; reflexivity).
  apply IH. assumption.
Qed.


(** *** One bucket among the others *)

Lemma concat_focus {A} (ls : list (list A)) i l :
  ls !! i = Some l ->
  concat ls = concat (take i ls) ++ l ++ concat (drop (S i) ls).
Proof.
  intros Hi. rewrite <- (take_drop_middle ls i l Hi) at 1.
  rewrite concat_app. reflexivity.
Qed.

Lemma concat_insert_focus {A} (ls : list (list A)) i l l' :
  ls !! i = Some l ->
  concat (<[i := l']> ls) = concat (take i ls) ++ l' ++ concat (drop (S i) ls).
Proof.
  intros Hi. pose proof (lookup_lt_Some _ _ _ Hi) as Hlt.
  rewrite insert_take_drop by exact Hlt. rewrite concat_app. reflexivity.
Qed.

Lemma concat_others chains i ch :
  chains !! i = Some ch -> concat chains ≡ₚ ch ++ others chains i.
Proof.
  intros Hi. rewrite (concat_focus _ _ _ Hi). unfold others.
  rewrite (Permutation_app_swap_app (concat (take i chains))). reflexivity.
Qed.

Lemma concat_insert_others chains i ch ch' :
  chains !! i = Some ch -> concat (<[i := ch']> chains) ≡ₚ ch' ++ others chains i.
Proof.
  intros Hi. rewrite (concat_insert_focus _ _ _ _ Hi). unfold others.
  rewrite (Permutation_app_swap_app (concat (take i chains))). reflexivity.
Qed.

Lemma flat_map_perm {A B} (f : A -> list B) (l l' : list A) :
  l ≡ₚ l' -> flat_map f l ≡ₚ flat_map f l'.
Proof.
  induction 1 as [|x l l' _ IH|x y l|l1 l2 l3 _ IH1 _ IH2]; cbn.
  - reflexivity.
  - rewrite IH. reflexivity.
  - rewrite !app_assoc. rewrite (Permutation_app_comm (f y)). reflexivity.
  - rewrite IH1. exact IH2.
Qed.

Lemma rep_bucket s o m chains i ch :
  Rep s o m chains -> chains !! i = Some ch ->
  chain_ok s ch /\ Forall (node_ok (heap s)) ch /\
  Forall (fun n => n_addr n <> 0) ch /\ (length ch <= size (heap s))%nat.
Proof.
  intros HR Hi. pose proof (concat_others _ _ _ Hi) as Hperm.
  assert (Hok : Forall (node_ok (heap s)) ch).
  { pose proof (rep_nodes _ _ _ _ HR) as Hall. rewrite Hperm in Hall.
    apply Forall_app in Hall. tauto. }
  split; [|split; [exact Hok|split]].
  - eapply Forall_lookup_1; [apply (rep_chains _ _ _ _ HR) | exact Hi].
  - eapply Forall_impl; [exact Hok|]. intros n (Ha & _) Hz.
    assert (Hl : is_Some (heap s !! n_addr n)) by eauto.
    apply (rep_live _ _ _ _ HR) in Hl. lia.
  - rewrite <- (length_map n_addr ch). apply live_count.
    + pose proof (rep_sep _ _ _ _ HR) as Hnd.
      apply NoDup_cons in Hnd as [_ Hnd]. apply NoDup_cons in Hnd as [_ Hnd].
      rewrite (flat_map_perm _ _ _ Hperm), flat_map_app in Hnd.
      apply NoDup_app in Hnd as (Hnd & _ & _).
      clear -Hnd. induction ch as [|n ch IH]; [constructor|].
      cbn in Hnd. apply NoDup_cons in Hnd as [Hn Hnd].
      apply NoDup_cons in Hnd as [_ Hnd]. apply NoDup_cons in Hnd as [_ Hnd].
      cbn. apply NoDup_cons. split; [|apply IH; exact Hnd].
      intros Hin. apply Hn. do 2 right.
      clear -Hin. induction ch as [|n' ch IH]; [inversion Hin|].
      cbn in Hin |- *. apply elem_of_cons in Hin as [->|Hin]; [left|do 3 right; auto].
    + intros x Hx. apply list_elem_of_fmap in Hx as (n & -> & Hn).
      rewrite Forall_forall in Hok. destruct (Hok n Hn) as (Ha & _). eauto.
Qed.

Lemma get_bucket_by_hash_ok s map m key_hash :
  heap s !! map = Some (BMap m) -> m_buckets_len m <> 0 ->
  get_bucket_by_hash map key_hash s
  = Ok ((m_buckets m, key_hash mod m_buckets_len m), s).
Proof.
  intros Hmap Hnz. unfold get_bucket_by_hash.
  rewrite (bind_ok _ _ _ _ _ (load_map_ok _ _ _ Hmap)).
  destruct (Z.eqb_spec (m_buckets_len m) 0); [contradiction | reflexivity].
Qed.

Lemma load_bucket_ok s b heads (i : nat) x :
  heap s !! b = Some (BBuckets heads) -> heads !! i = Some x ->
  load_bucket (b, Z.of_nat i) s = Ok (x, s).
Proof.
  intros Hb Hi. unfold load_bucket. cbn [fst snd].
  rewrite (bind_ok _ _ _ _ _ (load_buckets_ok _ _ _ Hb)).
  apply lift_ok, array_load_ok, Hi.
Qed.

Lemma store_bucket_ok s b heads (i : nat) x :
  heap s !! b = Some (BBuckets heads) -> (i < length heads)%nat ->
  store_bucket (b, Z.of_nat i) x s
  = Ok (tt, {| heap := <[b := BBuckets (<[i := x]> heads)]> (heap s); brk := brk s |}).
Proof.
  intros Hb Hi. unfold store_bucket. cbn [fst snd].
  rewrite (bind_ok _ _ _ _ _ (load_buckets_ok _ _ _ Hb)).
  rewrite (bind_ok _ _ _ _ _ (lift_ok _ _ _ (array_store_ok _ _ _ Hi))).
  apply store_ok. eauto.
Qed.

Lemma filter_nodes_ok h (f : node -> bool) (ch : list node) :
  Forall (node_ok h) ch -> Forall (node_ok h) (List.filter f ch).
Proof.
  induction ch as [|n ch IH]; intros Hok; [constructor|].
  apply Forall_cons in Hok as [Hn Hok]. cbn.
  destruct (f n); [constructor|]; auto.
Qed.

(** The bucket index of a hash value. *)
Lemma bucket_index_lt (m : hmap_map_type) (chains : list (list node)) key_hash :
  m_buckets_len m = Z.of_nat (length chains) -> m_buckets_len m <> 0 ->
  (Z.to_nat (key_hash mod m_buckets_len m) < length chains)%nat /\
  key_hash mod m_buckets_len m = Z.of_nat (Z.to_nat (key_hash mod m_buckets_len m)).
Proof.
  intros Hlen Hnz.
  assert (0 <= key_hash mod m_buckets_len m < m_buckets_len m)
    by (apply Z.mod_pos_bound; lia).
  lia.
Qed.

Lemma get_entry_by_key_spec s o m chains hash key :
  Rep s o m chains -> m_hash m = Some hash ->
  get_entry_by_key (o_data o) key s
  = match search m chains key hash with
    | Ok p => Ok (p, s)
    | Fault f => Fault f
    end.
Proof.
  intros HR Hh. unfold get_entry_by_key, search.
  pose proof (rep_map _ _ _ _ HR) as Hmap.
  rewrite (bind_ok _ _ _ _ _ (load_map_ok _ _ _ Hmap)).
  rewrite (bind_ok _ _ _ _ _ (call_hash_ok _ _ _ _ Hh)).
  set (key_hash := wrap (hash key)).
  unfold get_entry_by_hash.
  destruct (Z.eqb_spec (m_buckets_len m) 0) as [Hz|Hnz].
  { apply bind_fault, bind_fault. unfold get_bucket_by_hash.
    rewrite (bind_ok _ _ _ _ _ (load_map_ok _ _ _ Hmap)).
    rewrite Hz. reflexivity. }
  pose proof (rep_len _ _ _ _ HR) as Hlen.
  destruct (bucket_index_lt m chains key_hash Hlen Hnz) as [Hlt Hidx].
  set (i := Z.to_nat (key_hash mod m_buckets_len m)) in *.
  destruct (lookup_lt_is_Some_2 chains i Hlt) as [ch Hch].
  destruct (rep_bucket _ _ _ _ _ _ HR Hch) as ((Hlink & _) & Hok & Hnz' & Hcount).
  unfold bucket_of. fold i. rewrite (list_lookup_total_correct _ _ _ Hch).
  set (cands := List.filter (same_hash key_hash) ch).
  pose proof (get_entry_by_hash_loop_spec ch (S (size (heap s))) key_hash
                (chain_head ch) [] s Hlink Hok Hnz' ltac:(lia) ltac:(cbn; lia))
    as Hloop.
  cbn [app length Nat.sub] in Hloop. change (Z.of_nat 0) with 0 in Hloop.
  cbn zeta in Hloop. fold cands in Hloop.
  rewrite length_map in Hloop. cbn [Nat.add] in Hloop.
  assert (Hwalk :
    bind (get_bucket_by_hash (o_data o) key_hash)
      (fun bucket =>
         bind (load_bucket bucket)
           (fun entry =>
              bind live_blocks
                (fun fuel =>
                   get_entry_by_hash_loop (S fuel) key_hash entry
                     (repeat HMAP_INVALID_POINTER (Z.to_nat MAX_COLLISIONS)) 0))) s
    = if decide (length cands <= 5)%nat then
        Ok ((map n_addr cands ++ repeat 0 (5 - length cands),
             Z.of_nat (length cands)), s)
      else Fault OutOfBounds).
  { rewrite (bind_ok _ _ _ _ _ (get_bucket_by_hash_ok _ _ _ key_hash Hmap Hnz)).
    rewrite Hidx.
    rewrite (bind_ok _ _ _ _ _
               (load_bucket_ok _ _ _ i (chain_head ch) (rep_buckets _ _ _ _ HR)
                  ltac:(rewrite list_lookup_fmap, Hch; reflexivity))).
    unfold bind, live_blocks. exact Hloop. }
  unfold MAX_COLLISIONS at 2.
  destruct (Z.ltb_spec 5 (Z.of_nat (length cands))) as [Hmany|Hfew].
  - apply bind_fault. rewrite Hwalk. rewrite decide_False by lia. reflexivity.
  - rewrite decide_True in Hwalk by lia.
    rewrite (bind_ok _ _ _ _ _ Hwalk). cbn [fst snd]. rewrite Nat2Z.id.
    pose proof (get_entry_by_key_loop_spec cands [] (repeat 0 (5 - length cands))
                  key s (filter_nodes_ok _ _ _ Hok)) as Hkey.
    cbn [app length] in Hkey. change (Z.of_nat 0) with 0 in Hkey.
    exact Hkey.
Qed.

End Lookup.

(** ** Separation and framing *)

Section Frame.
Context `{Layout}.

Lemma elem_of_node_fp (n : node) q :
  q ∈ node_fp n <->
  q = n_addr n \/ q = a_ptr (e_key (n_entry n)) \/ q = a_ptr (e_data (n_entry n)).
Proof.
  unfold node_fp. rewrite !elem_of_cons, elem_of_nil. tauto.
Qed.

Lemma node_ok_frame (h h' : gmap Z block) n :
  (forall q, q ∈ node_fp n -> h' !! q = h !! q) -> node_ok h n -> node_ok h' n.
Proof.
  intros Hsame (Ha & Hk & Hd & Hks & Hds). unfold node_ok.
  rewrite !Hsame by (unfold node_fp; set_solver). tauto.
Qed.

Lemma nodes_ok_frame (h h' : gmap Z block) (l : list node) :
  (forall q, q ∈ flat_map node_fp l -> h' !! q = h !! q) ->
  Forall (node_ok h) l -> Forall (node_ok h') l.
Proof.
  intros Hsame Hok. rewrite Forall_forall in Hok |- *. intros n Hn.
  apply (node_ok_frame h); [|auto].
  intros q Hq. apply Hsame. apply list_elem_of_In, in_flat_map.
  exists n. split; apply list_elem_of_In; assumption.
Qed.

Lemma nodes_live (h : gmap Z block) (l : list node) q :
  Forall (node_ok h) l -> q ∈ flat_map node_fp l -> is_Some (h !! q).
Proof.
  intros Hok Hq. apply list_elem_of_In, in_flat_map in Hq as (n & Hn & Hq).
  rewrite Forall_forall in Hok.
  apply (node_ok_live h n); [apply Hok|]; apply list_elem_of_In; assumption.
Qed.

Lemma stale_extends s s' p : extends s s' -> stale s p -> stale s' p.
Proof.
  intros [Hbrk Hret] [->|[Hnone Hp]]; [left; reflexivity|].
  right. split; [apply Hret; assumption | lia].
Qed.

Lemma chain_ok_extends s s' ch : extends s s' -> chain_ok s ch -> chain_ok s' ch.
Proof.
  intros Hext [Hlink Hprev]. split; [exact Hlink|].
  destruct ch as [|n rest]; [exact I|].
  destruct Hprev as [Hst Hprev]. split; [eapply stale_extends; eassumption | exact Hprev].
Qed.

Lemma next_linked_head p ch : next_linked p ch -> p = chain_head ch.
Proof. destruct ch as [|n rest]; cbn; [auto | tauto]. Qed.

(** A node of bucket [i] against everything else the table owns. *)
Lemma rep_focus s o m chains i pre n post :
  Rep s o m chains -> chains !! i = Some (pre ++ n :: post) ->
  node_ok (heap s) n /\
  Forall (node_ok (heap s)) (pre ++ post ++ others chains i) /\
  NoDup (o_data o :: m_buckets m :: node_fp n
           ++ flat_map node_fp (pre ++ post ++ others chains i)).
Proof.
  intros HR Hi.
  assert (Hperm : concat chains ≡ₚ n :: pre ++ post ++ others chains i).
  { rewrite (concat_others _ _ _ Hi), <- app_assoc. cbn [app].
    rewrite <- Permutation_middle. reflexivity. }
  pose proof (rep_nodes _ _ _ _ HR) as Hok. rewrite Hperm in Hok.
  apply Forall_cons in Hok as [Hn Hok].
  pose proof (rep_sep _ _ _ _ HR) as Hnd.
  rewrite (flat_map_perm _ _ _ Hperm) in Hnd. cbn [flat_map] in Hnd.
  auto.
Qed.

Lemma rep_nonnull s o m chains p :
  Rep s o m chains -> is_Some (heap s !! p) -> p <> 0.
Proof. intros HR Hp. apply (rep_live _ _ _ _ HR) in Hp. lia. Qed.


Lemma focus_perm (pre post oth : list node) (x : node) :
  flat_map node_fp ((pre ++ x :: post) ++ oth)
  ≡ₚ node_fp x ++ flat_map node_fp (pre ++ post ++ oth).
Proof.
  change (node_fp x ++ flat_map node_fp (pre ++ post ++ oth))
    with (flat_map node_fp (x :: pre ++ post ++ oth)).
  apply flat_map_perm. rewrite <- app_assoc. cbn [app].
  rewrite <- Permutation_middle. reflexivity.
Qed.

Lemma NoDup_replace {A} (l1 l2 : list A) (d f : A) :
  NoDup (l1 ++ d :: l2) -> f ∉ l1 ++ l2 -> NoDup (l1 ++ f :: l2).
Proof.
  intros Hnd Hf. rewrite <- Permutation_middle in Hnd |- *.
  apply NoDup_cons in Hnd as [_ Hnd]. apply NoDup_cons. auto.
Qed.

(** Bucket [i] replaced by the chain [ch'], everything else the table owns
    left as it was. *)
Lemma rep_replace s s' o m m' chains i ch ch' :
  Rep s o m chains -> chains !! i = Some ch ->
  heap s' !! o_data o = Some (BMap m') ->
  m_buckets m' = m_buckets m -> m_buckets_len m' = m_buckets_len m ->
  m_hash m' = m_hash m -> m_malloc m' = m_malloc m -> m_free m' = m_free m ->
  heap s' !! m_buckets m
  = Some (BBuckets (<[i := chain_head ch']> (map chain_head chains))) ->
  chain_ok s' ch' -> Forall (node_ok (heap s')) ch' ->
  NoDup (o_data o :: m_buckets m :: flat_map node_fp (ch' ++ others chains i)) ->
  (forall q, q ∈ flat_map node_fp (others chains i) -> heap s' !! q = heap s !! q) ->
  extends s s' ->
  (forall p, is_Some (heap s' !! p) -> 0 < p < brk s') ->
  Rep s' o m' (<[i := ch']> chains).
Proof.
  intros HR Hi Hmap Hb Hl Hh Hm Hf Hheads Hch Hok Hnd Hframe Hext Hlive.
  pose proof (concat_others _ _ _ Hi) as Hperm.
  pose proof (concat_insert_others _ _ _ ch' Hi) as Hperm'.
  constructor.
  - exact Hmap.
  - rewrite Hb, list_fmap_insert. exact Hheads.
  - rewrite Hl, length_insert. apply (rep_len _ _ _ _ HR).
  - rewrite Hh. apply (rep_hash _ _ _ _ HR).
  - rewrite Hm. apply (rep_malloc _ _ _ _ HR).
  - rewrite Hf. apply (rep_free _ _ _ _ HR).
  - apply Forall_insert; [|exact Hch].
    eapply Forall_impl; [apply (rep_chains _ _ _ _ HR)|].
    intros c Hc. eapply chain_ok_extends; eassumption.
  - rewrite Hperm'. apply Forall_app. split; [exact Hok|].
    apply (nodes_ok_frame (heap s)); [exact Hframe|].
    pose proof (rep_nodes _ _ _ _ HR) as Hall. rewrite Hperm in Hall.
    apply Forall_app in Hall. tauto.
  - rewrite Hb, (flat_map_perm _ _ _ Hperm'). exact Hnd.
  - exact Hlive.
Qed.

(** What separation gives for the five blocks in focus. *)
Lemma focus_distinct (o b a k d : Z) (R : list Z) :
  NoDup (o :: b :: [a; k; d] ++ R) ->
  (o <> b /\ o <> a /\ o <> k /\ o <> d /\ b <> a /\ b <> k /\ b <> d /\
   a <> k /\ a <> d /\ k <> d) /\
  (forall q, q ∈ R -> q <> o /\ q <> b /\ q <> a /\ q <> k /\ q <> d).
Proof.
  cbn [app]. intros Hnd.
  apply NoDup_cons in Hnd as [Ho Hnd]. apply NoDup_cons in Hnd as [Hb Hnd].
  apply NoDup_cons in Hnd as [Ha Hnd]. apply NoDup_cons in Hnd as [Hk Hnd].
  apply NoDup_cons in Hnd as [Hd Hnd].
  split; [set_solver|]. intros q Hq. set_solver.
Qed.

End Frame.

(** ** [HMAP_set_data] *)

Section SetData.
Context `{Layout}.

Lemma search_found m chains key hash p :
  search m chains key hash = Ok p -> p <> 0 ->
  m_buckets_len m = Z.of_nat (length chains) ->
  exists pre n post,
    chains !! Z.to_nat (wrap (hash key) mod m_buckets_len m) = Some (pre ++ n :: post) /\
    n_addr n = p /\ n_key n = key /\ e_key_hash (n_entry n) = wrap (hash key).
Proof.
  unfold search. intros Hs Hp Hlen.
  destruct (Z.eqb_spec (m_buckets_len m) 0) as [|Hnz]; [discriminate|].
  destruct (MAX_COLLISIONS <? _); [discriminate|].
  injection Hs as Hs.
  destruct (List.find _ _) as [n|] eqn:Hfind; [|unfold HMAP_INVALID_POINTER in Hs; lia].
  apply find_some in Hfind as [Hin Hkey].
  apply filter_In in Hin as [Hin Hhash].
  unfold bucket_of in Hin.
  assert (Hidx : 0 <= wrap (hash key) mod m_buckets_len m < m_buckets_len m)
    by (apply Z.mod_pos_bound; lia).
  destruct (lookup_lt_is_Some_2 chains (Z.to_nat (wrap (hash key) mod m_buckets_len m)))
    as [ch Hch]; [lia|].
  rewrite (list_lookup_total_correct _ _ _ Hch) in Hin.
  apply in_split in Hin as (pre & post & ->).
  exists pre, n, post. split; [exact Hch|]. split; [exact Hs|].
  split; [apply bool_decide_eq_true in Hkey; exact Hkey|].
  apply Z.eqb_eq in Hhash. exact Hhash.
Qed.

(** The chain links of a node do not depend on its data. *)
Lemma next_linked_subst p pre n n' post :
  n_addr n' = n_addr n -> e_next (n_entry n') = e_next (n_entry n) ->
  next_linked p (pre ++ n :: post) -> next_linked p (pre ++ n' :: post).
Proof.
  intros Ha Hn. revert p. induction pre as [|x pre IH]; intros p Hl; cbn in *.
  - rewrite Ha, Hn. exact Hl.
  - destruct Hl as [Hp Hl]. split; [exact Hp | apply IH; exact Hl].
Qed.

Lemma prev_linked_subst q pre n n' post :
  n_addr n' = n_addr n -> e_previous (n_entry n') = e_previous (n_entry n) ->
  prev_linked q (pre ++ n :: post) -> prev_linked q (pre ++ n' :: post).
Proof.
  intros Ha Hn. revert q. induction pre as [|x pre IH]; intros q Hl; cbn in *.
  - rewrite Ha, Hn. exact Hl.
  - destruct Hl as [Hp Hl]. split; [exact Hp | apply IH; exact Hl].
Qed.

Lemma chain_head_subst pre (n n' : node) post :
  n_addr n' = n_addr n ->
  chain_head (pre ++ n' :: post) = chain_head (pre ++ n :: post).
Proof. intros Ha. destruct pre; cbn; [exact Ha | reflexivity]. Qed.

Lemma chain_ok_subst s pre n n' post :
  n_addr n' = n_addr n -> e_next (n_entry n') = e_next (n_entry n) ->
  e_previous (n_entry n') = e_previous (n_entry n) ->
  chain_ok s (pre ++ n :: post) -> chain_ok s (pre ++ n' :: post).
Proof.
  intros Ha Hn Hp [Hlink Hprev]. split.
  - rewrite (chain_head_subst _ _ _ _ Ha). eapply next_linked_subst; eassumption.
  - destruct pre as [|x pre]; cbn in *.
    + rewrite Ha, Hp. exact Hprev.
    + destruct Hprev as [Hst Hprev]. split; [exact Hst|].
      eapply prev_linked_subst; eassumption.
Qed.

Lemma elem_of_flat_map_others (pre post oth : list node) q :
  q ∈ flat_map node_fp oth -> q ∈ flat_map node_fp (pre ++ post ++ oth).
Proof. rewrite !flat_map_app, !elem_of_app. tauto. Qed.

Lemma elem_of_flat_map_pre_post (pre post oth : list node) q :
  q ∈ flat_map node_fp (pre ++ post) -> q ∈ flat_map node_fp (pre ++ post ++ oth).
Proof. rewrite !flat_map_app, !elem_of_app. tauto. Qed.

(** The table after the data block of one entry has been rewritten or
    replaced by the fresh block [d']. *)
Lemma rep_after_update s s' o m m' chains i pre n post data d' :
  Rep s o m chains -> chains !! i = Some (pre ++ n :: post) ->
  (forall q, q <> o_data o -> q <> n_addr n -> q <> a_ptr (e_data (n_entry n)) ->
             q <> d' -> heap s' !! q = heap s !! q) ->
  heap s' !! o_data o = Some (BMap m') ->
  m_buckets m' = m_buckets m -> m_buckets_len m' = m_buckets_len m ->
  m_hash m' = m_hash m -> m_malloc m' = m_malloc m -> m_free m' = m_free m ->
  heap s' !! n_addr n = Some (BEntry (n_entry (with_data n d' data))) ->
  heap s' !! d' = Some (BBytes data) ->
  (d' = a_ptr (e_data (n_entry n)) /\ brk s' = brk s \/
   d' = brk s /\ brk s' = brk s + 1 /\ heap s' !! a_ptr (e_data (n_entry n)) = None) ->
  Rep s' o m' (<[i := pre ++ with_data n d' data :: post]> chains) /\ extends s s' /\
  heap s' !! a_ptr (e_key (n_entry n)) = heap s !! a_ptr (e_key (n_entry n)).
Proof.
  intros HR Hi Hframe Hmap' Hb Hl Hh Hm Hf Ha' Hd' Hcase.
  destruct (rep_focus _ _ _ _ _ _ _ _ HR Hi) as (Hn & Hrest & Hnd).
  pose proof (rep_map _ _ _ _ HR) as Hmap.
  pose proof (rep_buckets _ _ _ _ HR) as Hbuckets.
  pose proof (rep_live _ _ _ _ HR) as Hlive.
  destruct Hn as (Ha & Hk & Hd & Hks & Hds).
  pose proof (Hlive _ (ex_intro _ _ Hmap)) as Ho_lt.
  pose proof (Hlive _ (ex_intro _ _ Hbuckets)) as Hb_lt.
  pose proof (Hlive _ (ex_intro _ _ Ha)) as Ha_lt.
  pose proof (Hlive _ (ex_intro _ _ Hk)) as Hk_lt.
  pose proof (Hlive _ (ex_intro _ _ Hd)) as Hd_lt.
  destruct (focus_distinct _ _ _ _ _ _ Hnd) as (Hne & HneR).
  destruct Hne as (? & ? & ? & ? & ? & ? & ? & ? & ? & ?).
  set (R := flat_map node_fp (pre ++ post ++ others chains i)) in *.
  assert (HR_lt : forall q, q ∈ R -> 0 < q < brk s).
  { intros q Hq. apply Hlive. eapply nodes_live; eassumption. }
  assert (Hd'_facts :
    d' <> o_data o /\ d' <> m_buckets m /\ d' <> n_addr n /\
    d' <> a_ptr (e_key (n_entry n)) /\ brk s <= brk s' <= brk s + 1 /\
    0 < d' < brk s' /\ (forall q, 0 < q < brk s -> q <> a_ptr (e_data (n_entry n)) ->
                                  q <> d')).
  { destruct Hcase as [[Hc1 Hc2]|[Hc1 [Hc2 Hc3]]]; rewrite Hc1, Hc2;
      repeat split; try congruence; try zlia; intros; zlia. }
  destruct Hd'_facts as (Hd'o & Hd'b & Hd'a & Hd'k & Hbrk & Hd'lt & Hd'other).
  assert (HframeR : forall q, q ∈ R -> heap s' !! q = heap s !! q).
  { intros q Hq. destruct (HneR q Hq) as (? & ? & ? & ? & ?).
    pose proof (HR_lt q Hq). apply Hframe; auto. }
  assert (Hext : extends s s').
  { split; [zlia|]. intros p Hp Hnone.
    destruct (decide (p = a_ptr (e_data (n_entry n)))) as [Hpd|Hpd]; [congruence|].
    rewrite Hframe; auto; congruence. }
  assert (Hkey : heap s' !! a_ptr (e_key (n_entry n)) = heap s !! a_ptr (e_key (n_entry n))).
  { apply Hframe; congruence. }
  split; [|split; [exact Hext | exact Hkey]].
  apply (rep_replace s s' o m m' chains i (pre ++ n :: post)); try assumption.
  - rewrite (chain_head_subst pre n (with_data n d' data) post eq_refl).
    rewrite list_insert_id by (rewrite list_lookup_fmap, Hi; reflexivity).
    rewrite Hframe; congruence.
  - apply (chain_ok_subst s' pre n (with_data n d' data) post); try reflexivity.
    eapply chain_ok_extends; [exact Hext|].
    eapply Forall_lookup_1; [apply (rep_chains _ _ _ _ HR) | exact Hi].
  - assert (Hpp : Forall (node_ok (heap s')) (pre ++ post)).
    { apply (nodes_ok_frame (heap s)).
      - intros q Hq. apply HframeR. apply elem_of_flat_map_pre_post. exact Hq.
      - rewrite app_assoc in Hrest. apply Forall_app in Hrest. tauto. }
    apply Forall_app in Hpp as [Hpre Hpost].
    apply Forall_app. split; [exact Hpre|]. apply Forall_cons. split; [|exact Hpost].
    unfold node_ok, with_data in *.
    cbn [n_addr n_entry n_key n_data set_e_data e_key e_data a_ptr a_size] in *.
    rewrite Hkey. repeat split; assumption.
  - rewrite focus_perm. fold R.
    unfold node_fp at 1, with_data.
    cbn [n_addr n_entry set_e_data e_key e_data a_ptr].
    destruct Hcase as [[Hc _]|[Hc _]]; rewrite Hc; [exact Hnd|].
    apply (NoDup_replace [o_data o; m_buckets m; n_addr n; a_ptr (e_key (n_entry n))]
             R (a_ptr (e_data (n_entry n))) (brk s)); [exact Hnd|].
    cbn [app]. rewrite !not_elem_of_cons. repeat split; try zlia.
    intros Hin. apply HR_lt in Hin. zlia.
  - intros q Hq. apply HframeR. apply elem_of_flat_map_others. exact Hq.
  - intros p [x Hp].
    destruct (decide (p = d')) as [Hpd'|Hpd']; [zlia|].
    assert (0 < p < brk s); [|zlia].
    destruct (decide (p = o_data o)) as [->|?]; [assumption|].
    destruct (decide (p = n_addr n)) as [->|?]; [assumption|].
    destruct (decide (p = a_ptr (e_data (n_entry n)))) as [->|?]; [assumption|].
    apply Hlive. rewrite <- Hframe by assumption. eauto.
Qed.

Lemma HMAP_set_data_update s o m chains hash key data i pre n post :
  Rep s o m chains -> m_hash m = Some hash ->
  search m chains key hash = Ok (n_addr n) ->
  chains !! i = Some (pre ++ n :: post) ->
  exists s',
    HMAP_set_data (Some o) (Some key) (Some data) s = Ok (HMAP_STATUS_SUCCESS, s') /\
    Rep s' o (updated_map m (n_entry n) data)
      (<[i := pre ++ updated_node s n data :: post]> chains) /\
    extends s s' /\
    heap s' !! a_ptr (e_key (n_entry n)) = heap s !! a_ptr (e_key (n_entry n)).
Proof.
  intros HR Hh Hsearch Hi.
  destruct (rep_focus _ _ _ _ _ _ _ _ HR Hi) as (Hn & Hrest & Hnd).
  pose proof (rep_map _ _ _ _ HR) as Hmap.
  pose proof (rep_buckets _ _ _ _ HR) as Hbuckets.
  pose proof (rep_live _ _ _ _ HR) as Hlive.
  destruct (rep_malloc _ _ _ _ HR) as [fm Hfm].
  destruct (rep_free _ _ _ _ HR) as [ff Hff].
  destruct Hn as (Ha & Hk & Hd & Hks & Hds).
  pose proof (Hlive _ (ex_intro _ _ Hmap)) as Ho_lt.
  pose proof (Hlive _ (ex_intro _ _ Ha)) as Ha_lt.
  pose proof (Hlive _ (ex_intro _ _ Hd)) as Hd_lt.
  destruct (focus_distinct _ _ _ _ _ _ Hnd) as (Hne & _).
  destruct Hne as (? & ? & ? & ? & ? & ? & ? & ? & ? & ?).
  unfold HMAP_set_data, HMAP_INVALID_POINTER.
  destruct (Z.eqb_spec (o_data o) 0) as [|_]; [zlia|].
  rewrite (bind_ok _ _ _ _ _ (eq_trans (get_entry_by_key_spec _ _ _ _ _ key HR Hh)
                                  ltac:(rewrite Hsearch; reflexivity))).
  destruct (Z.eqb_spec (n_addr n) 0) as [|_]; [zlia|].
  step. step.
  unfold updated_map, updated_node.
  destruct (Z.eqb_spec (a_size (e_data (n_entry n))) (blob_size data)) as [Hsz|Hsz];
    cbn [negb].
  - step. step. step.
    erewrite bind_ok;
      [|apply lift_ok, copy_anon_data_exact; unfold blob_size in *; zlia].
    cbn beta. cbn [fst snd]. step. step.
    eexists. split; [reflexivity|].
    apply (rep_after_update s _ o m m chains i pre n post data
             (a_ptr (e_data (n_entry n))) HR Hi);
      unfold with_data; cbn [n_entry n_addr]; simpl_proj; try reflexivity.
    + intros q ? ? ? ?. heap_simpl. reflexivity.
    + heap_simpl. exact Hmap.
    + heap_simpl. reflexivity.
    + heap_simpl. reflexivity.
    + left. split; reflexivity.
  - step. step. step. step. step. step. step.
    erewrite bind_ok;
      [|apply lift_ok, copy_anon_data_exact; rewrite repeat_length;
        apply Nat2Z.id].
    cbn beta. cbn [fst snd]. step. step.
    eexists. split; [reflexivity|].
    apply (rep_after_update s _ o m _ chains i pre n post data (brk s) HR Hi);
      unfold with_data; cbn [n_entry n_addr]; simpl_proj; try reflexivity.
    + intros q ? ? ? ?. heap_simpl. reflexivity.
    + heap_simpl. reflexivity.
    + heap_simpl. reflexivity.
    + heap_simpl. reflexivity.
    + right. split; [reflexivity|]. split; [reflexivity|].
      heap_simpl. reflexivity.
Qed.

End SetData.

(** ** [HMAP_set_data] of a new key *)

Section Insert.
Context `{Layout}.

Lemma create_entry_ok s map m hash key data :
  heap s !! map = Some (BMap m) -> m_hash m = Some hash ->
  is_Some (m_malloc m) -> 0 < map < brk s ->
  exists s1,
    create_entry map key data s = Ok (brk s, s1) /\
    heap s1 !! map = Some (BMap (entry_added m key data)) /\
    heap s1 !! brk s = Some (BEntry (created_entry (brk s) hash key data)) /\
    heap s1 !! (brk s + 1) = Some (BBytes (repeat x00 (Z.to_nat (blob_size data)))) /\
    heap s1 !! (brk s + 2) = Some (BBytes key) /\
    (forall q, q <> map -> q <> brk s -> q <> brk s + 1 -> q <> brk s + 2 ->
               heap s1 !! q = heap s !! q) /\
    brk s1 = brk s + 3.
Proof.
  intros Hmap Hh Hm Hlt. unfold create_entry.
  step. step. step. step. step. step.
  erewrite bind_ok;
    [|apply lift_ok, copy_anon_data_exact; rewrite repeat_length; apply Nat2Z.id].
  cbn beta. cbn [fst snd]. step. step. step.
  eexists. split; [reflexivity|]. simpl_proj.
  replace (brk s + 1 + 1) with (brk s + 2) by lia.
  unfold entry_added, created_entry.
  repeat split; try (heap_simpl; reflexivity); [|lia].
  intros q ? ? ? ?. heap_simpl. reflexivity.
Qed.


Lemma relinked_fp b ch : flat_map node_fp (relinked b ch) = flat_map node_fp ch.
Proof. destruct ch; reflexivity. Qed.

Lemma relinked_head b ch : chain_head (relinked b ch) = chain_head ch.
Proof. destruct ch; reflexivity. Qed.

Lemma NoDup_three_fresh (b x1 x2 : Z) (L : list Z) :
  NoDup (x1 :: x2 :: L) -> (forall q, q ∈ x1 :: x2 :: L -> q < b) ->
  NoDup (x1 :: x2 :: b :: b + 2 :: b + 1 :: L).
Proof.
  intros Hnd Hlt.
  assert (Hperm : x1 :: x2 :: b :: b + 2 :: b + 1 :: L
                  ≡ₚ b :: b + 2 :: b + 1 :: x1 :: x2 :: L).
  { change (x1 :: x2 :: b :: b + 2 :: b + 1 :: L)
      with ([x1; x2] ++ [b; b + 2; b + 1] ++ L).
    rewrite Permutation_app_swap_app. reflexivity. }
  rewrite Hperm.
  assert (Hfresh : forall k, 0 <= k -> b + k ∉ x1 :: x2 :: L).
  { intros k Hk Hin. apply Hlt in Hin. lia. }
  apply NoDup_cons. split.
  { rewrite !not_elem_of_cons. split; [lia|]. split; [lia|].
    rewrite <- !not_elem_of_cons. replace b with (b + 0) by lia. apply Hfresh. lia. }
  apply NoDup_cons. split.
  { rewrite not_elem_of_cons. split; [lia|]. apply Hfresh. lia. }
  apply NoDup_cons. split; [apply Hfresh; lia | exact Hnd].
Qed.

(** The table after a new entry, built in the three fresh blocks from
    [brk s] on, has been pushed onto bucket [i]. *)
Lemma rep_after_insert s s' o m chains i ch hash key data :
  Rep s o m chains -> chains !! i = Some ch ->
  heap s' !! o_data o = Some (BMap (entry_added m key data)) ->
  heap s' !! m_buckets m = Some (BBuckets (<[i := brk s]> (map chain_head chains))) ->
  heap s' !! brk s = Some (BEntry (n_entry (inserted_node (brk s) hash key data ch))) ->
  heap s' !! (brk s + 1) = Some (BBytes data) ->
  heap s' !! (brk s + 2) = Some (BBytes key) ->
  match ch with
  | [] => True
  | h :: _ => heap s' !! n_addr h = Some (BEntry (set_e_previous (n_entry h) (brk s)))
  end ->
  (forall q, q <> o_data o -> q <> m_buckets m -> q <> brk s -> q <> brk s + 1 ->
             q <> brk s + 2 -> (ch <> [] -> q <> chain_head ch) ->
             heap s' !! q = heap s !! q) ->
  brk s' = brk s + 3 ->
  Rep s' o (entry_added m key data)
    (<[i := inserted_node (brk s) hash key data ch :: relinked (brk s) ch]> chains) /\
  extends s s'.
Proof.
  intros HR Hi Hmap' Hbuckets' Hent' Hdat' Hkey' Hhead' Hframe Hbrk'.
  pose proof (rep_map _ _ _ _ HR) as Hmap.
  pose proof (rep_buckets _ _ _ _ HR) as Hbuckets.
  pose proof (rep_live _ _ _ _ HR) as Hlive.
  pose proof (rep_sep _ _ _ _ HR) as Hnd.
  pose proof (Hlive _ (ex_intro _ _ Hmap)) as Ho_lt.
  rewrite (flat_map_perm _ _ _ (concat_others _ _ _ Hi)) in Hnd.
  pose proof (rep_nodes _ _ _ _ HR) as Hok.
  rewrite (concat_others _ _ _ Hi) in Hok.
  destruct (rep_bucket _ _ _ _ _ _ HR Hi) as (Hch & Hchok & _ & _).
  set (R := flat_map node_fp (ch ++ others chains i)) in *.
  assert (HR_lt : forall q, q ∈ R -> 0 < q < brk s).
  { intros q Hq. apply Hlive.
    apply (nodes_live (heap s) (ch ++ others chains i)); assumption. }
  assert (Hall_lt : forall q, q ∈ o_data o :: m_buckets m :: R -> q < brk s).
  { intros q Hq. rewrite !elem_of_cons in Hq.
    destruct Hq as [->|[->|Hq]].
    - pose proof (Hlive _ (ex_intro _ _ Hmap)). lia.
    - pose proof (Hlive _ (ex_intro _ _ Hbuckets)). lia.
    - apply HR_lt in Hq. lia. }
  assert (HneR : forall q, q ∈ R -> q <> o_data o /\ q <> m_buckets m).
  { intros q Hq. apply NoDup_cons in Hnd as [Ho Hnd'].
    apply NoDup_cons in Hnd' as [Hb _].
    rewrite not_elem_of_cons in Ho. split; intros ->; tauto. }
  assert (Hext : extends s s').
  { split; [lia|]. intros p Hp Hnone.
    rewrite Hframe; auto; try zlia; try (intros ->; congruence).
    intros Hne ->. destruct ch as [|h t]; [congruence|].
    apply Forall_cons in Hchok as [(Hh & _) _]. cbn in Hnone. congruence. }
  split; [|exact Hext].
  apply (rep_replace s s' o m (entry_added m key data) chains i ch
           (inserted_node (brk s) hash key data ch :: relinked (brk s) ch)
           HR Hi Hmap' eq_refl eq_refl eq_refl eq_refl eq_refl);
    [exact Hbuckets' | | | | | exact Hext | ].
  - destruct Hch as [Hlink Hprev]. split.
    + cbn [chain_head next_linked inserted_node n_addr n_entry set_e_next e_next].
      split; [reflexivity|].
      destruct ch as [|h t]; [exact Hlink | exact Hlink].
    + cbn [inserted_node n_entry n_addr set_e_next e_previous created_entry].
      split; [left; reflexivity|].
      destruct ch as [|h t]; [exact I|].
      cbn [relinked prev_linked n_entry n_addr set_e_previous e_previous].
      split; [reflexivity | tauto].
  - apply Forall_cons. split.
    { unfold node_ok, inserted_node in *.
      cbn [n_addr n_entry n_key n_data set_e_next created_entry e_key e_data a_ptr a_size]
        in *.
      repeat split; assumption. }
    destruct ch as [|h t]; [constructor|].
    apply Forall_app in Hok as [Hok _].
    apply Forall_cons in Hok as [(Hh & Hhk & Hhd & Hhks & Hhds) Hok].
    assert (Hnd_h : NoDup (node_fp h ++ flat_map node_fp (t ++ others chains i))).
    { apply NoDup_cons in Hnd as [_ Hnd']. apply NoDup_cons in Hnd' as [_ Hnd'].
      exact Hnd'. }
    cbn [node_fp app] in Hnd_h.
    apply NoDup_cons in Hnd_h as [Hh_rest Hnd_h].
    rewrite !not_elem_of_cons in Hh_rest. destruct Hh_rest as (Hhk_ne & Hhd_ne & Hh_rest).
    assert (Hin_R : forall q, q ∈ node_fp h ++ flat_map node_fp t -> q ∈ R).
    { intros q Hq. unfold R. cbn [app flat_map]. rewrite flat_map_app.
      apply elem_of_app in Hq. rewrite !elem_of_app. tauto. }
    assert (Hframe_h : forall q, q ∈ node_fp h ++ flat_map node_fp t -> q <> n_addr h ->
                                 heap s' !! q = heap s !! q).
    { intros q Hq Hne. pose proof (HR_lt q (Hin_R q Hq)).
      destruct (HneR q (Hin_R q Hq)). apply Hframe; auto; zlia. }
    cbn [relinked]. apply Forall_cons. split.
    { unfold node_ok. cbn [n_addr n_entry n_key n_data set_e_previous e_key e_data].
      rewrite (Hframe_h (a_ptr (e_key (n_entry h))))
        by (first [congruence | apply elem_of_app; left; apply elem_of_node_fp; tauto]).
      rewrite (Hframe_h (a_ptr (e_data (n_entry h))))
        by (first [congruence | apply elem_of_app; left; apply elem_of_node_fp; tauto]).
      repeat split; assumption. }
    apply (nodes_ok_frame (heap s)); [|exact Hok].
    intros q Hq. apply Hframe_h; [apply elem_of_app; right; exact Hq|].
    intros ->. apply Hh_rest. rewrite flat_map_app, elem_of_app. tauto.
  - cbn [app flat_map]. rewrite flat_map_app, relinked_fp, <- flat_map_app. fold R.
    cbn [node_fp inserted_node n_addr n_entry set_e_next created_entry e_key e_data
           a_ptr app].
    apply NoDup_three_fresh; assumption.
  - intros q Hq.
    assert (HqR : q ∈ R).
    { unfold R. rewrite flat_map_app, elem_of_app. tauto. }
    pose proof (HR_lt q HqR). destruct (HneR q HqR).
    apply Hframe; auto; try zlia.
    destruct ch as [|h t]; [congruence|]. cbn [chain_head].
    intros _ ->.
    apply NoDup_cons in Hnd as [_ Hnd']. apply NoDup_cons in Hnd' as [_ Hnd'].
    unfold R in Hnd'. cbn [app flat_map node_fp] in Hnd'.
    apply NoDup_cons in Hnd' as [Hh_rest _].
    apply Hh_rest. rewrite !elem_of_cons, flat_map_app, elem_of_app. tauto.
  - intros p [x Hp].
    destruct (decide (p = brk s)) as [->|?]; [zlia|].
    destruct (decide (p = brk s + 1)) as [->|?]; [zlia|].
    destruct (decide (p = brk s + 2)) as [->|?]; [zlia|].
    assert (0 < p < brk s); [|zlia].
    destruct (decide (p = o_data o)) as [->|?]; [apply Hlive; eauto|].
    destruct (decide (p = m_buckets m)) as [->|?]; [apply Hlive; eauto|].
    destruct ch as [|h t].
    { apply Hlive. rewrite <- Hframe by (auto; congruence). eauto. }
    destruct (decide (p = n_addr h)) as [->|?].
    { apply Forall_app in Hok as [Hok _].
      apply Forall_cons in Hok as [(Hh & _) _]. apply Hlive. eauto. }
    apply Hlive. rewrite <- Hframe by (auto; congruence). eauto.
Qed.

Lemma search_ok_buckets m chains key hash p :
  search m chains key hash = Ok p -> m_buckets_len m <> 0.
Proof.
  unfold search. destruct (Z.eqb_spec (m_buckets_len m) 0); [discriminate | auto].
Qed.

Lemma HMAP_set_data_insert s o m chains hash key data ch :
  Rep s o m chains -> m_hash m = Some hash ->
  search m chains key hash = Ok HMAP_INVALID_POINTER ->
  chains !! Z.to_nat (wrap (hash key) mod m_buckets_len m) = Some ch ->
  exists s',
    HMAP_set_data (Some o) (Some key) (Some data) s = Ok (HMAP_STATUS_SUCCESS, s') /\
    Rep s' o (entry_added m key data)
      (<[Z.to_nat (wrap (hash key) mod m_buckets_len m)
         := inserted_node (brk s) hash key data ch :: relinked (brk s) ch]> chains) /\
    extends s s'.
Proof.
  intros HR Hh Hsearch Hi.
  set (i := Z.to_nat (wrap (hash key) mod m_buckets_len m)) in *.
  pose proof (search_ok_buckets _ _ _ _ _ Hsearch) as Hnz.
  pose proof (rep_map _ _ _ _ HR) as Hmap.
  pose proof (rep_buckets _ _ _ _ HR) as Hbuckets.
  pose proof (rep_live _ _ _ _ HR) as Hlive.
  pose proof (rep_len _ _ _ _ HR) as Hlen.
  pose proof (rep_sep _ _ _ _ HR) as Hnd.
  pose proof (Hlive _ (ex_intro _ _ Hmap)) as Ho_lt.
  pose proof (Hlive _ (ex_intro _ _ Hbuckets)) as Hb_lt.
  assert (Hob : o_data o <> m_buckets m).
  { apply NoDup_cons in Hnd as [Hnd _]. rewrite not_elem_of_cons in Hnd. tauto. }
  destruct (bucket_index_lt m chains (wrap (hash key)) Hlen Hnz) as [Hlt Hidx].
  fold i in Hlt, Hidx.
  destruct (create_entry_ok s (o_data o) m hash key data Hmap Hh
              (rep_malloc _ _ _ _ HR) Ho_lt)
    as (s1 & Hcreate & Hmap1 & Hent1 & Hdat1 & Hkey1 & Hframe1 & Hbrk1).
  assert (Hbuckets1 : heap s1 !! m_buckets m = Some (BBuckets (map chain_head chains))).
  { rewrite Hframe1; [exact Hbuckets | congruence | lia | lia | lia]. }
  unfold HMAP_set_data, HMAP_INVALID_POINTER.
  destruct (Z.eqb_spec (o_data o) 0) as [|_]; [lia|].
  rewrite (bind_ok _ _ _ _ _ (eq_trans (get_entry_by_key_spec _ _ _ _ _ key HR Hh)
                                  ltac:(rewrite Hsearch; reflexivity))).
  unfold HMAP_INVALID_POINTER. rewrite Z.eqb_refl.
  assert (Hbucket : forall s2,
    heap s2 !! o_data o = Some (BMap (entry_added m key data)) ->
    get_bucket_by_hash (o_data o) (wrap (hash key)) s2
    = Ok ((m_buckets m, Z.of_nat i), s2)).
  { intros s2 Hm2.
    rewrite (get_bucket_by_hash_ok _ _ (entry_added m key data) _ Hm2 Hnz).
    unfold entry_added. simpl_proj. rewrite Hidx. reflexivity. }
  step_by (exact Hcreate).
  step. unfold created_entry at 1. simpl_proj.
  step_by (apply Hbucket; exact Hmap1).
  step_by (eapply load_bucket_ok;
           [exact Hbuckets1 | rewrite list_lookup_fmap, Hi; reflexivity]).
  step.
  assert (Hfinish : forall s2,
    (heap s2 !! brk s
     = Some (BEntry (set_e_next (created_entry (brk s) hash key data) (chain_head ch)))) ->
    heap s2 !! (brk s + 1)
    = Some (BBytes (repeat x00 (Z.to_nat (blob_size data)))) ->
    exists s',
      bind (load_entry (brk s))
        (fun e =>
           bind (if negb (a_size (e_data e) =? blob_size data)
                 then
                   bind (load_map (o_data o))
                     (fun m0 =>
                        bind (store (o_data o)
                                (BMap (set_m_totals m0 (m_entry_count m0)
                                         (wrap (m_data_size m0
                                                + wrap (blob_size data - a_size (e_data e))))
                                         (m_key_size m0)
                                         (wrap (m_size m0
                                                + wrap (blob_size data - a_size (e_data e)))))))
                          (fun _ =>
                             bind (call_free (m_free m0) (a_ptr (e_data e)))
                               (fun _ =>
                                  bind (call_malloc (m_malloc m0) (blob_size data)
                                          (BBytes (repeat x00 (Z.to_nat (blob_size data)))))
                                    (fun p =>
                                       store (brk s)
                                         (BEntry (set_e_data e
                                                    {| a_ptr := p;
                                                       a_size := blob_size data |}))))))
                 else ret tt)
             (fun _ =>
                bind (load_entry (brk s))
                  (fun e0 =>
                     bind (load_bytes (a_ptr (e_data e0)))
                       (fun destination =>
                          bind (lift (copy_anon_data destination data (blob_size data)))
                            (fun copied =>
                               bind (store (a_ptr (e_data e0)) (BBytes (fst copied)))
                                 (fun _ =>
                                    bind (store (brk s)
                                            (BEntry (set_e_data e0
                                                       {| a_ptr := a_ptr (e_data e0);
                                                          a_size := snd copied |})))
                                      (fun _ => ret HMAP_STATUS_SUCCESS))))))) s2
      = Ok (HMAP_STATUS_SUCCESS, s') /\
      heap s' = <[brk s := BEntry (set_e_next (created_entry (brk s) hash key data)
                                     (chain_head ch))]>
                  (<[brk s + 1 := BBytes data]> (heap s2)) /\
      brk s' = brk s2).
  { intros s2 He2 Hd2. unfold created_entry in *. simpl_proj. step.
    rewrite Z.eqb_refl. cbn [negb]. step. step. step.
    step_by (apply lift_ok, copy_anon_data_exact; rewrite repeat_length;
             apply Nat2Z.id).
    step. step.
    eexists. split; [reflexivity|]. split; reflexivity. }
  destruct ch as [|h t].
  - cbn [chain_head] in *. unfold HMAP_INVALID_POINTER in *.
    change (negb (0 =? 0)) with false. cbn iota. step.
    step_by (eapply (store_bucket_ok _ _ _ i); [heap_lookup | rewrite length_map; exact Hlt]).
    step.
    match goal with |- exists s', bind _ _ ?s2 = _ /\ _ =>
      destruct (Hfinish s2) as (s' & Hrun & Hheap & Hbrk);
        [simpl_proj; heap_simpl; reflexivity
        |simpl_proj; heap_simpl; exact Hdat1|]
    end.
    exists s'. split; [exact Hrun|].
    cbn [heap brk] in Hheap, Hbrk.
    apply (rep_after_insert s s' o m chains i [] hash key data HR Hi);
      rewrite ?Hheap; cbn [inserted_node n_entry chain_head].
    + heap_simpl. exact Hmap1.
    + heap_simpl. reflexivity.
    + heap_simpl. reflexivity.
    + heap_simpl. reflexivity.
    + heap_simpl. exact Hkey1.
    + exact I.
    + intros q ? ? ? ? ? _. heap_simpl. apply Hframe1; assumption.
    + lia.
  - destruct (rep_bucket _ _ _ _ _ _ HR Hi) as (_ & Hchok & Hchnz & _).
    apply Forall_cons in Hchok as [(Hh0 & _) _].
    apply Forall_cons in Hchnz as [Hhnz _].
    pose proof (Hlive _ (ex_intro _ _ Hh0)) as Hh_lt.
    assert (Hho : n_addr h <> o_data o).
    { intros Heq. rewrite Heq, Hmap in Hh0. discriminate. }
    assert (Hhb : n_addr h <> m_buckets m).
    { intros Heq. rewrite Heq, Hbuckets in Hh0. discriminate. }
    assert (Hh1 : heap s1 !! n_addr h = Some (BEntry (n_entry h))).
    { rewrite Hframe1; [exact Hh0 | assumption | lia | lia | lia]. }
    cbn [chain_head] in *. unfold HMAP_INVALID_POINTER in *.
    destruct (Z.eqb_spec (n_addr h) 0) as [|_]; [contradiction|]. cbn [negb].
    step. step.
    step_by (eapply (store_bucket_ok _ _ _ i); [heap_lookup | rewrite length_map; exact Hlt]).
    step.
    match goal with |- exists s', bind _ _ ?s2 = _ /\ _ =>
      destruct (Hfinish s2) as (s' & Hrun & Hheap & Hbrk);
        [simpl_proj; heap_simpl; reflexivity
        |simpl_proj; heap_simpl; exact Hdat1|]
    end.
    exists s'. split; [exact Hrun|].
    cbn [heap brk] in Hheap, Hbrk.
    apply (rep_after_insert s s' o m chains i (h :: t) hash key data HR Hi);
      rewrite ?Hheap; cbn [inserted_node n_entry chain_head].
    + heap_simpl. exact Hmap1.
    + heap_simpl. reflexivity.
    + heap_simpl. reflexivity.
    + heap_simpl. reflexivity.
    + heap_simpl. exact Hkey1.
    + heap_simpl. reflexivity.
    + intros q ? ? ? ? ? Hq. assert (q <> n_addr h) by (apply Hq; discriminate).
      heap_simpl. apply Hframe1; assumption.
    + lia.
Qed.

End Insert.

(** ** [HMAP_remove_entry] *)

Section Remove.
Context `{Layout}.

Lemma destroy_entry_ok s map m entry e :
  heap s !! map = Some (BMap m) -> heap s !! entry = Some (BEntry e) ->
  is_Some (heap s !! a_ptr (e_data e)) -> is_Some (heap s !! a_ptr (e_key e)) ->
  is_Some (m_free m) ->
  map <> entry -> map <> a_ptr (e_data e) -> map <> a_ptr (e_key e) ->
  entry <> a_ptr (e_data e) -> entry <> a_ptr (e_key e) ->
  a_ptr (e_data e) <> a_ptr (e_key e) ->
  entry <> 0 -> a_ptr (e_data e) <> 0 -> a_ptr (e_key e) <> 0 ->
  destroy_entry map entry s
  = Ok (tt, {| heap := delete entry
                         (delete (a_ptr (e_key e))
                            (delete (a_ptr (e_data e))
                               (<[map := BMap (entry_removed m e)]> (heap s))));
               brk := brk s |}).
Proof.
  intros Hmap Hent Hd Hk Hf ? ? ? ? ? ? ? ? ?. unfold destroy_entry.
  step. step. step. step. step.
  erewrite call_free_ok; [reflexivity | exact Hf | assumption | is_some].
Qed.

(** *** Links around a removed node *)

Lemma next_linked_relinked b p ch : next_linked p ch -> next_linked p (relinked b ch).
Proof. destruct ch; cbn; auto. Qed.

Lemma next_linked_unlink p pre a n post :
  next_linked p (pre ++ a :: n :: post) ->
  next_linked p (pre ++ with_next a (e_next (n_entry n)) :: relinked (n_addr a) post).
Proof.
  revert p. induction pre as [|x pre IH]; intros p Hl; cbn in *.
  - destruct Hl as (Hp & _ & Hl). split; [exact Hp|].
    apply next_linked_relinked. exact Hl.
  - destruct Hl as [Hp Hl]. split; [exact Hp | apply IH; exact Hl].
Qed.

Lemma prev_linked_unlink q pre a n post :
  prev_linked q (pre ++ a :: n :: post) ->
  prev_linked q (pre ++ with_next a (e_next (n_entry n)) :: relinked (n_addr a) post).
Proof.
  revert q. induction pre as [|x pre IH]; intros q Hl; cbn in *.
  - destruct Hl as (Hq & _ & Hl). split; [exact Hq|].
    destruct post as [|b t]; cbn in *; tauto.
  - destruct Hl as [Hq Hl]. split; [exact Hq | apply IH; exact Hl].
Qed.

Lemma prev_linked_middle q pre a n post :
  prev_linked q (pre ++ a :: n :: post) -> e_previous (n_entry n) = n_addr a.
Proof.
  revert q. induction pre as [|x pre IH]; intros q Hl; cbn in *; [tauto|].
  destruct Hl as [_ Hl]. eapply IH. exact Hl.
Qed.

Lemma next_linked_middle p pre n post :
  next_linked p (pre ++ n :: post) -> next_linked (e_next (n_entry n)) post.
Proof.
  revert p. induction pre as [|x pre IH]; intros p Hl; cbn in *; [tauto|].
  destruct Hl as [_ Hl]. eapply IH. exact Hl.
Qed.

Lemma chain_ok_middle s pre a n post :
  chain_ok s (pre ++ a :: n :: post) -> e_previous (n_entry n) = n_addr a.
Proof.
  intros [_ Hprev]. destruct pre as [|x pre]; cbn in Hprev.
  - tauto.
  - destruct Hprev as [_ Hprev]. eapply prev_linked_middle. exact Hprev.
Qed.

Lemma chain_ok_unlink s pre a n post :
  chain_ok s (pre ++ a :: n :: post) ->
  chain_ok s (pre ++ with_next a (e_next (n_entry n)) :: relinked (n_addr a) post).
Proof.
  intros [Hlink Hprev]. split.
  - replace (chain_head (pre ++ with_next a (e_next (n_entry n))
                           :: relinked (n_addr a) post))
      with (chain_head (pre ++ a :: n :: post)) by (destruct pre; reflexivity).
    apply next_linked_unlink. exact Hlink.
  - destruct pre as [|x pre]; cbn in *.
    + destruct Hprev as (Hst & _ & Hp). split; [exact Hst|].
      destruct post as [|b t]; cbn in *; tauto.
    + destruct Hprev as [Hst Hp]. split; [exact Hst|].
      apply prev_linked_unlink. exact Hp.
Qed.


(** The table after node [n] of bucket [i] has been unlinked and destroyed,
    [ch'] being what is left of the bucket. *)
Lemma rep_after_remove s s' o m chains i pre n post ch' :
  Rep s o m chains -> chains !! i = Some (pre ++ n :: post) ->
  flat_map node_fp ch' = flat_map node_fp (pre ++ post) ->
  chain_ok s' ch' -> Forall (node_ok (heap s')) ch' ->
  heap s' !! o_data o = Some (BMap (entry_removed m (n_entry n))) ->
  heap s' !! m_buckets m
  = Some (BBuckets (<[i := chain_head ch']> (map chain_head chains))) ->
  (forall q, q ∈ flat_map node_fp (others chains i) -> heap s' !! q = heap s !! q) ->
  (forall p, heap s !! p = None -> heap s' !! p = None) -> brk s' = brk s ->
  Rep s' o (entry_removed m (n_entry n)) (<[i := ch']> chains) /\ extends s s'.
Proof.
  intros HR Hi Hfp Hch' Hok' Hmap' Hbuckets' Hframe Hnone Hbrk.
  destruct (rep_focus _ _ _ _ _ _ _ _ HR Hi) as (_ & _ & Hnd).
  pose proof (rep_live _ _ _ _ HR) as Hlive.
  assert (Hext : extends s s').
  { split; [lia|]. intros p _ Hp. apply Hnone, Hp. }
  split; [|exact Hext].
  apply (rep_replace s s' o m (entry_removed m (n_entry n)) chains i (pre ++ n :: post) ch'
           HR Hi Hmap' eq_refl eq_refl eq_refl eq_refl eq_refl Hbuckets' Hch' Hok');
    [ | exact Hframe | exact Hext | ].
  - rewrite flat_map_app, Hfp, <- flat_map_app, <- app_assoc.
    apply NoDup_cons in Hnd as [Ho Hnd]. apply NoDup_cons in Hnd as [Hb Hnd].
    apply NoDup_app in Hnd as (_ & _ & Hnd).
    rewrite not_elem_of_cons, elem_of_app in Ho. rewrite elem_of_app in Hb.
    apply NoDup_cons. split; [|apply NoDup_cons; split; [|exact Hnd]].
    + rewrite not_elem_of_cons. tauto.
    + tauto.
  - intros p [x Hp]. rewrite Hbrk. apply Hlive.
    destruct (heap s !! p) eqn:Hsp; [eauto|].
    apply Hnone in Hsp. congruence.
Qed.

(** Removing the entry at the head of its bucket: its [previous] link is
    null. *)
Lemma HMAP_remove_entry_head s o m chains hash key n post :
  Rep s o m chains -> m_hash m = Some hash ->
  search m chains key hash = Ok (n_addr n) ->
  chains !! Z.to_nat (wrap (hash key) mod m_buckets_len m) = Some (n :: post) ->
  e_key_hash (n_entry n) = wrap (hash key) ->
  e_previous (n_entry n) = HMAP_INVALID_POINTER ->
  exists s',
    HMAP_remove_entry (Some o) (Some key) s = Ok (HMAP_STATUS_SUCCESS, s') /\
    Rep s' o (entry_removed m (n_entry n))
      (<[Z.to_nat (wrap (hash key) mod m_buckets_len m) := post]> chains) /\
    extends s s'.
Proof.
  intros HR Hh Hsearch Hi Hhash Hprev.
  set (i := Z.to_nat (wrap (hash key) mod m_buckets_len m)) in *.
  pose proof (search_ok_buckets _ _ _ _ _ Hsearch) as Hnz.
  destruct (rep_focus _ _ _ _ _ [] _ _ HR Hi) as (Hn & Hrest & Hnd).
  cbn [app] in Hrest, Hnd.
  pose proof (rep_map _ _ _ _ HR) as Hmap.
  pose proof (rep_buckets _ _ _ _ HR) as Hbuckets.
  pose proof (rep_live _ _ _ _ HR) as Hlive.
  pose proof (rep_len _ _ _ _ HR) as Hlen.
  destruct (rep_bucket _ _ _ _ _ _ HR Hi) as (Hch & _ & _ & _).
  destruct Hn as (Ha & Hk & Hd & Hks & Hds).
  pose proof (Hlive _ (ex_intro _ _ Hmap)) as Ho_lt.
  pose proof (Hlive _ (ex_intro _ _ Ha)) as Ha_lt.
  pose proof (Hlive _ (ex_intro _ _ Hk)) as Hk_lt.
  pose proof (Hlive _ (ex_intro _ _ Hd)) as Hd_lt.
  destruct (focus_distinct _ _ _ _ _ _ Hnd) as (Hne & HneR).
  destruct Hne as (? & ? & ? & ? & ? & ? & ? & ? & ? & ?).
  destruct (bucket_index_lt m chains (wrap (hash key)) Hlen Hnz) as [Hlt Hidx].
  fold i in Hlt, Hidx.
  unfold HMAP_remove_entry, HMAP_INVALID_POINTER in *.
  destruct (Z.eqb_spec (o_data o) 0) as [|_]; [zlia|].
  rewrite (bind_ok _ _ _ _ _ (eq_trans (get_entry_by_key_spec _ _ _ _ _ key HR Hh)
                                  ltac:(rewrite Hsearch; reflexivity))).
  destruct (Z.eqb_spec (n_addr n) 0) as [|_]; [zlia|]. cbn [negb].
  step. rewrite Hprev. change (negb (0 =? 0)) with false. cbn iota.
  step_by (apply get_bucket_by_hash_ok; [exact Hmap | exact Hnz]).
  rewrite Hhash, Hidx.
  step_by (eapply (store_bucket_ok _ _ _ i); [exact Hbuckets | rewrite length_map; exact Hlt]).
  step_by (eapply (destroy_entry_ok _ _ m _ (n_entry n));
           first [heap_lookup | is_some | apply (rep_free _ _ _ _ HR)
                 | congruence | zlia]).
  cbn [ret]. eexists. split; [reflexivity|].
  destruct Hch as [Hlink Hprevs]. cbn [chain_head next_linked] in Hlink.
  destruct Hlink as [_ Hlink]. pose proof (next_linked_head _ _ Hlink) as Hnext.
  assert (HframeR : forall q, q ∈ flat_map node_fp (post ++ others chains i) ->
    heap {| heap := delete (n_addr n)
                      (delete (a_ptr (e_key (n_entry n)))
                         (delete (a_ptr (e_data (n_entry n)))
                            (<[o_data o := BMap (entry_removed m (n_entry n))]>
                               (<[m_buckets m
                                  := BBuckets (<[i := e_next (n_entry n)]>
                                                 (map chain_head chains))]> (heap s)))));
            brk := brk s |} !! q = heap s !! q).
  { intros q Hq. destruct (HneR q Hq) as (? & ? & ? & ? & ?).
    cbn [heap]. heap_simpl. reflexivity. }
  apply (rep_after_remove s _ o m chains i [] n post post HR Hi eq_refl).
  - split; [rewrite <- Hnext; exact Hlink|].
    destruct post as [|b t]; [exact I|].
    destruct Hprevs as (_ & Hb & Ht). split; [|exact Ht].
    right. rewrite Hb. cbn [heap brk]. split; [heap_simpl; reflexivity | zlia].
  - apply (nodes_ok_frame (heap s)).
    + intros q Hq. apply HframeR. rewrite flat_map_app, elem_of_app. tauto.
    + apply Forall_app in Hrest. tauto.
  - cbn [heap]. heap_simpl. reflexivity.
  - cbn [heap]. heap_simpl. rewrite Hnext. reflexivity.
  - intros q Hq. apply HframeR. rewrite flat_map_app, elem_of_app. tauto.
  - intros p Hp. cbn [heap].
    assert (p <> o_data o) by congruence.
    assert (p <> m_buckets m) by congruence.
    rewrite !lookup_delete_None. do 3 right. heap_simpl. exact Hp.
  - reflexivity.
Qed.


(** Removing the head of a bucket whose [previous] link is not null: the
    link names a retired block, and the write through it faults. *)
Lemma HMAP_remove_entry_stale_head s o m chains hash key i n post :
  Rep s o m chains -> m_hash m = Some hash ->
  search m chains key hash = Ok (n_addr n) ->
  chains !! i = Some (n :: post) ->
  e_previous (n_entry n) <> HMAP_INVALID_POINTER ->
  HMAP_remove_entry (Some o) (Some key) s = Fault InvalidPointer.
Proof.
  intros HR Hh Hsearch Hi Hprev.
  destruct (rep_bucket _ _ _ _ _ _ HR Hi) as ((_ & Hst & _) & Hok & Hnz & _).
  apply Forall_cons in Hok as [(Ha & _) _]. apply Forall_cons in Hnz as [Hnz _].
  pose proof (rep_map _ _ _ _ HR) as Hmap.
  pose proof (rep_nonnull _ _ _ _ _ HR (ex_intro _ _ Hmap)) as Ho.
  destruct Hst as [Hst|[Hst _]]; [contradiction|].
  unfold HMAP_remove_entry, HMAP_INVALID_POINTER in *.
  destruct (Z.eqb_spec (o_data o) 0) as [|_]; [contradiction|].
  rewrite (bind_ok _ _ _ _ _ (eq_trans (get_entry_by_key_spec _ _ _ _ _ key HR Hh)
                                  ltac:(rewrite Hsearch; reflexivity))).
  destruct (Z.eqb_spec (n_addr n) 0) as [|_]; [contradiction|]. cbn [negb].
  step.
  destruct (Z.eqb_spec (e_previous (n_entry n)) 0) as [|_]; [contradiction|]. cbn [negb].
  rewrite !bind_bind. apply bind_fault, load_entry_none, Hst.
Qed.

Lemma flat_focus (l1 l2 : list node) (x : node) :
  NoDup (flat_map node_fp (l1 ++ x :: l2)) ->
  NoDup (node_fp x) /\
  forall q, q ∈ flat_map node_fp (l1 ++ l2) -> q ∉ node_fp x.
Proof.
  intros Hnd.
  assert (Hperm : flat_map node_fp (l1 ++ x :: l2)
                  ≡ₚ node_fp x ++ flat_map node_fp (l1 ++ l2)).
  { change (node_fp x ++ flat_map node_fp (l1 ++ l2))
      with (flat_map node_fp (x :: l1 ++ l2)).
    apply flat_map_perm. rewrite <- Permutation_middle. reflexivity. }
  rewrite Hperm in Hnd. apply NoDup_app in Hnd as (Hx & Hdisj & _).
  split; [exact Hx|]. intros q Hq Hqx. exact (Hdisj q Hqx Hq).
Qed.

(** Rewriting the entry block of one node leaves every other node of a
    separated list as it was. *)
Lemma nodes_ok_set_entry h (l1 l2 : list node) (x : node) e' :
  NoDup (flat_map node_fp (l1 ++ x :: l2)) ->
  Forall (node_ok h) (l1 ++ x :: l2) ->
  e_key e' = e_key (n_entry x) -> e_data e' = e_data (n_entry x) ->
  Forall (node_ok (<[n_addr x := BEntry e']> h))
    (l1 ++ {| n_addr := n_addr x; n_entry := e'; n_key := n_key x; n_data := n_data x |}
        :: l2).
Proof.
  intros Hnd Hok Hk Hd.
  destruct (flat_focus _ _ _ Hnd) as (Hx & Hdisj).
  apply Forall_app in Hok as [Hok1 Hok]. apply Forall_cons in Hok as [Hokx Hok2].
  assert (Hothers : Forall (node_ok (<[n_addr x := BEntry e']> h)) (l1 ++ l2)).
  { apply (nodes_ok_frame h); [|apply Forall_app; tauto].
    intros q Hq. apply lookup_insert_ne. intros <-.
    apply (Hdisj _ Hq). apply elem_of_node_fp. tauto. }
  apply Forall_app in Hothers as [Ho1 Ho2].
  apply Forall_app. split; [exact Ho1|]. apply Forall_cons. split; [|exact Ho2].
  destruct Hokx as (Ha & Hkb & Hdb & Hks & Hds).
  unfold node_fp in Hx. apply NoDup_cons in Hx as [Hx _].
  rewrite !not_elem_of_cons in Hx. destruct Hx as (Hxk & Hxd & _).
  unfold node_ok. cbn [n_addr n_entry n_key n_data]. rewrite Hk, Hd.
  rewrite lookup_insert_eq, !lookup_insert_ne by congruence.
  repeat split; assumption.
Qed.


Lemma with_next_fp a p : node_fp (with_next a p) = node_fp a.
Proof. reflexivity. Qed.

Lemma unlinked_fp pre a p b post oth :
  flat_map node_fp (pre ++ with_next a p :: relinked b post ++ oth)
  = flat_map node_fp ((pre ++ [a]) ++ post ++ oth).
Proof.
  rewrite <- app_assoc. cbn [app]. rewrite !flat_map_app. cbn [flat_map].
  rewrite !flat_map_app, relinked_fp, with_next_fp. reflexivity.
Qed.

(** Removing an entry that has a predecessor in its chain. *)
Lemma HMAP_remove_entry_middle s o m chains hash key i pre a n post :
  Rep s o m chains -> m_hash m = Some hash ->
  search m chains key hash = Ok (n_addr n) ->
  chains !! i = Some (pre ++ a :: n :: post) ->
  exists s',
    HMAP_remove_entry (Some o) (Some key) s = Ok (HMAP_STATUS_SUCCESS, s') /\
    Rep s' o (entry_removed m (n_entry n))
      (<[i := pre ++ with_next a (e_next (n_entry n)) :: relinked (n_addr a) post]>
         chains) /\
    extends s s'.
Proof.
  intros HR Hh Hsearch Hi.
  assert (Hi' : chains !! i = Some ((pre ++ [a]) ++ n :: post))
    by (rewrite <- app_assoc; exact Hi).
  destruct (rep_focus _ _ _ _ _ _ _ _ HR Hi') as (Hn & HokL & Hnd).
  set (L := (pre ++ [a]) ++ post ++ others chains i) in *.
  pose proof (rep_map _ _ _ _ HR) as Hmap.
  pose proof (rep_buckets _ _ _ _ HR) as Hbuckets.
  pose proof (rep_live _ _ _ _ HR) as Hlive.
  destruct (rep_bucket _ _ _ _ _ _ HR Hi) as (Hch & _ & Hchnz & _).
  pose proof (chain_ok_middle _ _ _ _ _ Hch) as Hprev.
  destruct Hn as (Hna & Hnk & Hnd' & Hnks & Hnds).
  pose proof (Hlive _ (ex_intro _ _ Hmap)) as Ho_lt.
  pose proof (Hlive _ (ex_intro _ _ Hna)) as Hn_lt.
  pose proof (Hlive _ (ex_intro _ _ Hnk)) as Hk_lt.
  pose proof (Hlive _ (ex_intro _ _ Hnd')) as Hd_lt.
  destruct (focus_distinct _ _ _ _ _ _ Hnd) as (Hne & HneR).
  destruct Hne as (? & ? & ? & ? & ? & ? & ? & ? & ? & ?).
  assert (HndL : NoDup (flat_map node_fp L)).
  { apply NoDup_cons in Hnd as [_ Hnd0]. apply NoDup_cons in Hnd0 as [_ Hnd0].
    apply NoDup_app in Hnd0. tauto. }
  assert (HL : L = pre ++ a :: post ++ others chains i)
    by (unfold L; rewrite <- app_assoc; reflexivity).
  assert (Ha_in : n_addr a ∈ flat_map node_fp L).
  { rewrite HL, flat_map_app. cbn [flat_map]. rewrite elem_of_app, elem_of_app.
    right. left. apply elem_of_node_fp. tauto. }
  destruct (HneR _ Ha_in) as (Hao & Hab & Han & Hak & Had).
  assert (Ha0 : n_addr a <> 0).
  { rewrite Forall_app in Hchnz. destruct Hchnz as [_ Hchnz].
    apply Forall_cons in Hchnz. tauto. }
  assert (Hn_next : next_linked (e_next (n_entry n)) post).
  { destruct Hch as [Hlink _].
    apply (next_linked_middle (chain_head (pre ++ a :: n :: post)) (pre ++ [a]) n post).
    rewrite <- app_assoc. exact Hlink. }
  (* stage 1: the predecessor's next link *)
  rewrite HL in HokL, HndL.
  pose proof (nodes_ok_set_entry (heap s) pre (post ++ others chains i) a
                (set_e_next (n_entry a) (e_next (n_entry n))) HndL HokL eq_refl eq_refl)
    as Hok1.
  fold (with_next a (e_next (n_entry n))) in Hok1.
  assert (Haent : heap s !! n_addr a = Some (BEntry (n_entry a))).
  { apply Forall_app in HokL as [_ HokL']. apply Forall_cons in HokL' as [(Hx & _) _].
    exact Hx. }
  destruct (flat_focus _ _ _ HndL) as (_ & Hdisj_a).
  set (h1 := <[n_addr a := BEntry (set_e_next (n_entry a) (e_next (n_entry n)))]> (heap s))
    in *.
  (* stage 2: the successor's previous link *)
  assert (Hstage2 : exists h2,
    (forall (B : Type) (k : unit -> M B),
        bind (if negb (e_next (n_entry n) =? 0) then
                        bind (load_entry (e_next (n_entry n)))
                          (fun next =>
                             store (e_next (n_entry n))
                               (BEntry (set_e_previous next (n_addr a))))
                      else ret tt)
          k {| heap := h1; brk := brk s |}
        = k tt {| heap := h2; brk := brk s |}) /\
    Forall (node_ok h2)
      (pre ++ with_next a (e_next (n_entry n)) :: relinked (n_addr a) post
           ++ others chains i) /\
    (forall q, q <> n_addr a -> q <> chain_head post \/ post = [] ->
               h2 !! q = heap s !! q) /\
    (forall q, heap s !! q = None -> h2 !! q = None)).
  { destruct post as [|b t].
    - cbn in Hn_next. exists h1.
      split; [intros B k;
              replace (negb (e_next (n_entry n) =? 0)) with false
                by (rewrite Hn_next; reflexivity); reflexivity|].
      split; [exact Hok1|]. split.
      + intros q Hq _. unfold h1. apply lookup_insert_ne. congruence.
      + intros q Hq. unfold h1. rewrite lookup_insert_ne; [exact Hq | congruence].
    - destruct Hn_next as [Hnb _].
      assert (Hok1' : Forall (node_ok h1)
                        ((pre ++ [with_next a (e_next (n_entry n))])
                           ++ b :: t ++ others chains i))
        by (rewrite <- app_assoc; exact Hok1).
      assert (Hnd1 : NoDup (flat_map node_fp
                              ((pre ++ [with_next a (e_next (n_entry n))])
                                 ++ b :: t ++ others chains i))).
      { rewrite <- app_assoc. cbn [app].
        rewrite flat_map_app in HndL |- *. exact HndL. }
      pose proof (nodes_ok_set_entry h1 _ _ b
                    (set_e_previous (n_entry b) (n_addr a)) Hnd1 Hok1' eq_refl eq_refl)
        as Hok2.
      assert (Hbent : h1 !! n_addr b = Some (BEntry (n_entry b))).
      { apply Forall_app in Hok1' as [_ Hx]. apply Forall_cons in Hx as [(Hx & _) _].
        exact Hx. }
      assert (Hb0 : n_addr b <> 0).
      { rewrite Forall_app in Hchnz. destruct Hchnz as [_ Hchnz].
        do 2 apply Forall_cons in Hchnz as [_ Hchnz].
        apply Forall_cons in Hchnz. tauto. }
      assert (Hbs : is_Some (heap s !! n_addr b)).
      { apply Forall_app in HokL as [_ Hx]. apply Forall_cons in Hx as [_ Hx].
        apply Forall_cons in Hx as [(Hx & _) _]. eauto. }
      exists (<[n_addr b := BEntry (set_e_previous (n_entry b) (n_addr a))]> h1).
      split; [|split; [|split]].
      + intros B k. rewrite Hnb.
        destruct (Z.eqb_spec (n_addr b) 0) as [|_]; [contradiction|]. cbn [negb].
        rewrite bind_bind.
        erewrite bind_ok; [|apply load_entry_ok; exact Hbent]. cbn beta.
        erewrite bind_ok; [|apply store_ok; cbn [heap]; eauto]. cbn beta.
        reflexivity.
      + rewrite <- app_assoc in Hok2. exact Hok2.
      + intros q Hqa [Hqb|Hqb]; [|discriminate]. cbn [chain_head] in Hqb.
        rewrite lookup_insert_ne by congruence. unfold h1.
        apply lookup_insert_ne. congruence.
      + intros q Hq. destruct Hbs as [x Hx].
        rewrite lookup_insert_ne by congruence. unfold h1.
        rewrite lookup_insert_ne; [exact Hq | congruence]. }
  destruct Hstage2 as (h2 & Hrun2 & Hok2 & Hframe2 & Hnone2).
  assert (Hb_in : post <> [] -> chain_head post ∈ flat_map node_fp L).
  { intros Hpost. destruct post as [|b t]; [contradiction|].
    rewrite HL, flat_map_app. cbn [flat_map app chain_head].
    rewrite !elem_of_app. right. right. left. apply elem_of_node_fp. tauto. }
  assert (Hframe2' : forall q, q <> n_addr a ->
                               (post <> [] -> q <> chain_head post) ->
                               h2 !! q = heap s !! q).
  { intros q Hqa Hqb. apply Hframe2; [exact Hqa|].
    destruct post as [|b t]; [right; reflexivity | left; apply Hqb; discriminate]. }
  assert (Hmod : forall q, q = o_data o \/ q = m_buckets m \/ q = n_addr n \/
                           q = a_ptr (e_key (n_entry n)) \/
                           q = a_ptr (e_data (n_entry n)) ->
                           h2 !! q = heap s !! q).
  { intros q Hq. apply Hframe2'.
    - intros ->. intuition congruence.
    - intros Hpost ->. destruct (HneR _ (Hb_in Hpost)) as (? & ? & ? & ? & ?).
      intuition congruence. }
  unfold HMAP_remove_entry, HMAP_INVALID_POINTER in *.
  destruct (Z.eqb_spec (o_data o) 0) as [|_]; [zlia|].
  rewrite (bind_ok _ _ _ _ _ (eq_trans (get_entry_by_key_spec _ _ _ _ _ key HR Hh)
                                  ltac:(rewrite Hsearch; reflexivity))).
  destruct (Z.eqb_spec (n_addr n) 0) as [|_]; [zlia|]. cbn [negb].
  step. rewrite Hprev.
  destruct (Z.eqb_spec (n_addr a) 0) as [|_]; [contradiction|]. cbn [negb].
  step. step.
  fold h1. rewrite ?bind_bind. rewrite Hrun2.
  step_by (eapply (destroy_entry_ok _ _ m _ (n_entry n)); cbn [heap];
           first [ rewrite Hmod by tauto; first [eassumption | solve [eauto]]
                 | apply (rep_free _ _ _ _ HR) | congruence | zlia ]).
  cbn [ret]. eexists. split; [reflexivity|].
  set (h3 := delete (n_addr n)
               (delete (a_ptr (e_key (n_entry n)))
                  (delete (a_ptr (e_data (n_entry n)))
                     (<[o_data o := BMap (entry_removed m (n_entry n))]> h2)))).
  assert (Hframe3 : forall q, q ∈ flat_map node_fp L -> h3 !! q = h2 !! q).
  { intros q Hq. destruct (HneR q Hq) as (? & ? & ? & ? & ?).
    unfold h3. heap_simpl. reflexivity. }
  assert (Hok3 : Forall (node_ok h3)
                   (pre ++ with_next a (e_next (n_entry n)) :: relinked (n_addr a) post
                        ++ others chains i)).
  { apply (nodes_ok_frame h2); [|exact Hok2].
    intros q Hq. apply Hframe3. rewrite unlinked_fp in Hq.
    rewrite HL. rewrite <- app_assoc in Hq. exact Hq. }
  assert (Hnone3 : forall p, heap s !! p = None -> h3 !! p = None).
  { intros p Hp. unfold h3. rewrite !lookup_delete_None. do 3 right.
    rewrite lookup_insert_ne by congruence. apply Hnone2, Hp. }
  assert (Hext : extends s {| heap := h3; brk := brk s |}).
  { split; [cbn; lia|]. intros p _ Hp. apply Hnone3, Hp. }
  apply (rep_after_remove s _ o m chains i (pre ++ [a]) n post
           (pre ++ with_next a (e_next (n_entry n)) :: relinked (n_addr a) post)
           HR Hi'); cbn [heap brk]; fold h3.
  - pose proof (unlinked_fp pre a (e_next (n_entry n)) (n_addr a) post []) as Hfp.
    rewrite !app_nil_r in Hfp. exact Hfp.
  - eapply chain_ok_extends; [exact Hext|]. apply chain_ok_unlink. exact Hch.
  - replace (pre ++ with_next a (e_next (n_entry n)) :: relinked (n_addr a) post
                 ++ others chains i)
      with ((pre ++ with_next a (e_next (n_entry n)) :: relinked (n_addr a) post)
              ++ others chains i) in Hok3
      by (rewrite <- app_assoc; reflexivity).
    apply Forall_app in Hok3. tauto.
  - unfold h3. heap_simpl. reflexivity.
  - replace (chain_head (pre ++ with_next a (e_next (n_entry n))
                             :: relinked (n_addr a) post))
      with (chain_head (pre ++ a :: n :: post)) by (destruct pre; reflexivity).
    rewrite list_insert_id by (rewrite list_lookup_fmap, Hi; reflexivity).
    unfold h3. heap_simpl. rewrite Hmod by tauto. exact Hbuckets.
  - intros q Hq.
    assert (HqL : q ∈ flat_map node_fp L).
    { rewrite HL, flat_map_app. cbn [flat_map]. rewrite !flat_map_app, !elem_of_app.
      tauto. }
    rewrite Hframe3 by exact HqL. apply Hframe2'.
    + intros ->. apply (Hdisj_a (n_addr a)); [|apply elem_of_node_fp; tauto].
      rewrite !flat_map_app, !elem_of_app. tauto.
    + intros Hpost ->. destruct post as [|b t]; [contradiction|]. cbn [chain_head] in Hq.
      assert (Hndb : NoDup (flat_map node_fp ((pre ++ [a]) ++ b :: t ++ others chains i))).
      { rewrite <- app_assoc. exact HndL. }
      destruct (flat_focus _ _ _ Hndb) as (_ & Hdisj_b).
      apply (Hdisj_b (n_addr b)); [|apply elem_of_node_fp; tauto].
      rewrite !flat_map_app, !elem_of_app. tauto.
  - exact Hnone3.
  - reflexivity.
Qed.

End Remove.

(** ** Every table the interface builds is well formed *)

Section Reach.
Context `{Layout}.

Lemma HMAP_create_rep def o0 s o s' :
  mem_ok s ->
  HMAP_create (Some def) (Some o0) s = Ok ((HMAP_STATUS_SUCCESS, Some o), s') ->
  exists hash,
    chosen_hash def = Some hash /\
    o = {| o_data := brk s |} /\
    Rep s' o (created_map def (brk s) hash)
      (repeat [] (Z.to_nat (wrap (d_map_size def)))).
Proof.
  intros [Hbrk Hlive] Hrun.
  destruct (d_malloc def) as [fm|] eqn:Hm;
    [|unfold HMAP_create in Hrun; rewrite Hm in Hrun; discriminate].
  destruct (d_free def) as [ff|] eqn:Hf;
    [|unfold HMAP_create in Hrun; rewrite Hm, Hf in Hrun; discriminate].
  destruct (chosen_hash def) as [hash|] eqn:Hh.
  2: { destruct (HMAP_create_invalid_def_hash def o0 s) as (s'' & Hbad);
         [rewrite Hm; eauto | rewrite Hf; eauto | exact Hh |].
       rewrite Hbad in Hrun. discriminate. }
  destruct (HMAP_create_success def o0 s hash) as (s'' & Hok & Hmap & Hb & Hframe & Hbrk');
    [rewrite Hm; eauto | rewrite Hf; eauto | exact Hh |].
  rewrite Hok in Hrun. injection Hrun as <- <-.
  exists hash. split; [reflexivity|]. split; [reflexivity|].
  set (n := Z.to_nat (wrap (d_map_size def))).
  assert (Hconcat : concat (repeat ([] : list node) n) = []).
  { induction n as [|k IH]; [reflexivity | exact IH]. }
  constructor; cbn [o_data created_map m_buckets m_buckets_len m_hash m_malloc m_free].
  - exact Hmap.
  - rewrite Hb. do 2 f_equal. fold n. clear. induction n as [|k IH]; cbn; congruence.
  - rewrite repeat_length. fold n. unfold n.
    assert (0 <= wrap (d_map_size def)); [|lia].
    unfold wrap. apply Z.mod_pos_bound. apply Z.pow_pos_nonneg; [lia|].
    pose proof uint_bits_ge. lia.
  - eauto.
  - rewrite Hm. eauto.
  - rewrite Hf. eauto.
  - apply Forall_forall. intros ch Hch. apply list_elem_of_In, repeat_spec in Hch.
    subst ch. split; [reflexivity | exact I].
  - rewrite Hconcat. constructor.
  - rewrite Hconcat. cbn. apply NoDup_cons. split; [|apply NoDup_cons; split; [apply not_elem_of_nil | apply NoDup_nil; exact I]].
    rewrite elem_of_cons, elem_of_nil. lia.
  - intros p Hp. rewrite Hbrk'.
    destruct (decide (p = brk s)) as [->|?]; [lia|].
    destruct (decide (p = brk s + 1)) as [->|?]; [lia|].
    rewrite Hframe in Hp by assumption. apply Hlive in Hp. lia.
Qed.

Lemma HMAP_remove_entry_absent s o m chains hash key :
  Rep s o m chains -> m_hash m = Some hash ->
  search m chains key hash = Ok HMAP_INVALID_POINTER ->
  HMAP_remove_entry (Some o) (Some key) s = Ok (HMAP_STATUS_SUCCESS, s).
Proof.
  intros HR Hh Hsearch.
  pose proof (rep_nonnull _ _ _ _ _ HR (ex_intro _ _ (rep_map _ _ _ _ HR))) as Ho.
  unfold HMAP_remove_entry, HMAP_INVALID_POINTER in *.
  destruct (Z.eqb_spec (o_data o) 0) as [|_]; [contradiction|].
  rewrite (bind_ok _ _ _ _ _ (eq_trans (get_entry_by_key_spec _ _ _ _ _ key HR Hh)
                                  ltac:(rewrite Hsearch; reflexivity))).
  reflexivity.
Qed.

Lemma lookup_fault s o m chains hash key f :
  Rep s o m chains -> m_hash m = Some hash ->
  search m chains key hash = Fault f ->
  get_entry_by_key (o_data o) key s = Fault f.
Proof.
  intros HR Hh Hsearch. rewrite (get_entry_by_key_spec _ _ _ _ _ key HR Hh), Hsearch.
  reflexivity.
Qed.

(** [HMAP_set_data] on a well-formed table: whenever it returns, the table
    is well formed again and the status is success. *)
Lemma HMAP_set_data_rep s o m chains key data status s' :
  Rep s o m chains ->
  HMAP_set_data (Some o) (Some key) (Some data) s = Ok (status, s') ->
  status = HMAP_STATUS_SUCCESS /\ extends s s' /\
  exists m' chains', Rep s' o m' chains'.
Proof.
  intros HR Hrun. destruct (rep_hash _ _ _ _ HR) as [hash Hh].
  pose proof (rep_nonnull _ _ _ _ _ HR (ex_intro _ _ (rep_map _ _ _ _ HR))) as Ho.
  destruct (search m chains key hash) as [p|f] eqn:Hsearch.
  - destruct (decide (p = 0)) as [->|Hp].
    + pose proof (search_ok_buckets _ _ _ _ _ Hsearch) as Hnz.
      destruct (bucket_index_lt m chains (wrap (hash key)) (rep_len _ _ _ _ HR) Hnz)
        as [Hlt _].
      destruct (lookup_lt_is_Some_2 _ _ Hlt) as [ch Hch].
      destruct (HMAP_set_data_insert _ _ _ _ _ key data ch HR Hh Hsearch Hch)
        as (s'' & Hok & HR' & Hext).
      rewrite Hok in Hrun. injection Hrun as <- <-. eauto.
    + destruct (search_found _ _ _ _ _ Hsearch Hp (rep_len _ _ _ _ HR))
        as (pre & n & post & Hi & Hn & _).
      subst p.
      destruct (HMAP_set_data_update _ _ _ _ _ key data _ pre n post HR Hh Hsearch Hi)
        as (s'' & Hok & HR' & Hext & _).
      rewrite Hok in Hrun. injection Hrun as <- <-. eauto.
  - exfalso. unfold HMAP_set_data, HMAP_INVALID_POINTER in Hrun.
    destruct (Z.eqb_spec (o_data o) 0) as [|_]; [contradiction|].
    rewrite (bind_fault _ _ _ _ (lookup_fault _ _ _ _ _ _ _ HR Hh Hsearch)) in Hrun.
    discriminate.
Qed.

(** The same for [HMAP_remove_entry]. *)
Lemma HMAP_remove_entry_rep s o m chains key status s' :
  Rep s o m chains ->
  HMAP_remove_entry (Some o) (Some key) s = Ok (status, s') ->
  status = HMAP_STATUS_SUCCESS /\ extends s s' /\
  exists m' chains', Rep s' o m' chains'.
Proof.
  intros HR Hrun. destruct (rep_hash _ _ _ _ HR) as [hash Hh].
  pose proof (rep_nonnull _ _ _ _ _ HR (ex_intro _ _ (rep_map _ _ _ _ HR))) as Ho.
  destruct (search m chains key hash) as [p|f] eqn:Hsearch.
  - destruct (decide (p = 0)) as [->|Hp].
    + rewrite (HMAP_remove_entry_absent _ _ _ _ _ _ HR Hh Hsearch) in Hrun.
      injection Hrun as <- <-. split; [reflexivity|]. split; [|eauto].
      split; [lia | auto].
    + destruct (search_found _ _ _ _ _ Hsearch Hp (rep_len _ _ _ _ HR))
        as (pre & n & post & Hi & Hn & _ & Hhash).
      subst p.
      destruct pre as [|x pre0] using rev_ind.
      * destruct (decide (e_previous (n_entry n) = HMAP_INVALID_POINTER)) as [Hprev|Hprev].
        -- destruct (HMAP_remove_entry_head _ _ _ _ _ _ _ _ HR Hh Hsearch Hi Hhash Hprev)
             as (s'' & Hok & HR' & Hext).
           rewrite Hok in Hrun. injection Hrun as <- <-. eauto.
        -- rewrite (HMAP_remove_entry_stale_head _ _ _ _ _ _ _ _ _ HR Hh Hsearch Hi Hprev)
             in Hrun. discriminate.
      * rewrite <- app_assoc in Hi. cbn [app] in Hi.
        destruct (HMAP_remove_entry_middle _ _ _ _ _ _ _ _ _ _ _ HR Hh Hsearch Hi)
          as (s'' & Hok & HR' & Hext).
        rewrite Hok in Hrun. injection Hrun as <- <-. eauto.
  - exfalso. unfold HMAP_remove_entry, HMAP_INVALID_POINTER in Hrun.
    destruct (Z.eqb_spec (o_data o) 0) as [|_]; [contradiction|].
    rewrite (bind_fault _ _ _ _ (lookup_fault _ _ _ _ _ _ _ HR Hh Hsearch)) in Hrun.
    discriminate.
Qed.

Lemma reachable_rep s o : reachable s o -> exists m chains, Rep s o m chains.
Proof.
  induction 1 as [s def o0 o s' Hmem Hrun
                 | s o key data status s' _ [m [chains HR]] Hrun
                 | s o key status s' _ [m [chains HR]] Hrun].
  - destruct (HMAP_create_rep _ _ _ _ _ Hmem Hrun) as (hash & _ & _ & HR). eauto.
  - destruct (HMAP_set_data_rep _ _ _ _ _ _ _ _ HR Hrun) as (_ & _ & HR'). exact HR'.
  - destruct (HMAP_remove_entry_rep _ _ _ _ _ _ _ HR Hrun) as (_ & _ & HR'). exact HR'.
Qed.

End Reach.

(** ** Reading a well-formed table *)

Section Observe.
Context `{Layout}.

Lemma scan_sig key_hash key (l l' : list node) :
  map node_sig l' = map node_sig l ->
  length (List.filter (same_hash key_hash) l') = length (List.filter (same_hash key_hash) l) /\
  match List.find (same_key key) (List.filter (same_hash key_hash) l') with
  | Some n => n_addr n
  | None => HMAP_INVALID_POINTER
  end
  = match List.find (same_key key) (List.filter (same_hash key_hash) l) with
    | Some n => n_addr n
    | None => HMAP_INVALID_POINTER
    end.
Proof.
  revert l'. induction l as [|n l IH]; intros [|n' l'] Hsig; try discriminate.
  - split; reflexivity.
  - cbn [map] in Hsig.
    injection Hsig as Haddr Hhash Hkey Hl. destruct (IH l' Hl) as [IHlen IHfind].
    assert (same_hash key_hash n' = same_hash key_hash n) as Hsame
      by (unfold same_hash; rewrite Hhash; reflexivity).
    assert (same_key key n' = same_key key n) as Hsamek
      by (unfold same_key; rewrite Hkey; reflexivity).
    cbn [List.filter]. rewrite Hsame.
    destruct (same_hash key_hash n).
    + cbn [length List.find]. rewrite Hsamek.
      split; [congruence|]. destruct (same_key key n); [exact Haddr | exact IHfind].
    + split; assumption.
Qed.

Lemma search_replace m m' chains i ch ch' key hash :
  chains !! i = Some ch -> map node_sig ch' = map node_sig ch ->
  m_buckets_len m' = m_buckets_len m ->
  search m' (<[i := ch']> chains) key hash = search m chains key hash.
Proof.
  intros Hi Hsig Hlen. unfold search, bucket_of. rewrite Hlen.
  destruct (m_buckets_len m =? 0); [reflexivity|].
  set (j := Z.to_nat (wrap (hash key) mod m_buckets_len m)).
  destruct (decide (j = i)) as [->|Hne].
  - rewrite list_lookup_total_insert.
    rewrite decide_True by (split; [reflexivity | eapply lookup_lt_Some; exact Hi]).
    rewrite (list_lookup_total_correct _ _ _ Hi).
    destruct (scan_sig (wrap (hash key)) key ch ch' Hsig) as [-> ->]. reflexivity.
  - rewrite list_lookup_total_insert_ne by congruence. reflexivity.
Qed.

Lemma updated_sig s pre n post data :
  map node_sig (pre ++ updated_node s n data :: post) = map node_sig (pre ++ n :: post).
Proof. rewrite !map_app. reflexivity. Qed.

(** [HMAP_get_data] of a stored key copies the entry's data into the
    caller's storage. *)
Lemma HMAP_get_data_found s o m chains hash key i pre n post out :
  Rep s o m chains -> m_hash m = Some hash ->
  search m chains key hash = Ok (n_addr n) ->
  chains !! i = Some (pre ++ n :: post) ->
  HMAP_get_data (Some o) (Some key) (Some out) s
  = match copy_anon_data (out_storage out) (n_data n) (blob_size (n_data n)) with
    | Ok copied =>
        Ok ((HMAP_STATUS_SUCCESS,
             Some {| out_storage := fst copied; out_size := snd copied |}), s)
    | Fault f => Fault f
    end.
Proof.
  intros HR Hh Hsearch Hi.
  destruct (rep_focus _ _ _ _ _ _ _ _ HR Hi) as ((Ha & Hk & Hd & Hks & Hds) & _ & _).
  pose proof (rep_nonnull _ _ _ _ _ HR (ex_intro _ _ (rep_map _ _ _ _ HR))) as Ho.
  pose proof (rep_nonnull _ _ _ _ _ HR (ex_intro _ _ Ha)) as Ha0.
  unfold HMAP_get_data, HMAP_INVALID_POINTER.
  destruct (Z.eqb_spec (o_data o) 0) as [|_]; [contradiction|].
  rewrite (bind_ok _ _ _ _ _ (eq_trans (get_entry_by_key_spec _ _ _ _ _ key HR Hh)
                                  ltac:(rewrite Hsearch; reflexivity))).
  destruct (Z.eqb_spec (n_addr n) 0) as [|_]; [contradiction|].
  step. step. rewrite Hds. unfold bind, lift.
  destruct (copy_anon_data _ _ _); reflexivity.
Qed.

Lemma HMAP_get_data_absent s o m chains hash key out :
  Rep s o m chains -> m_hash m = Some hash ->
  search m chains key hash = Ok HMAP_INVALID_POINTER ->
  HMAP_get_data (Some o) (Some key) (Some out) s
  = Ok ((HMAP_STATUS_KEY_NOT_IN_MAP, Some out), s).
Proof.
  intros HR Hh Hsearch.
  pose proof (rep_nonnull _ _ _ _ _ HR (ex_intro _ _ (rep_map _ _ _ _ HR))) as Ho.
  unfold HMAP_get_data, HMAP_INVALID_POINTER in *.
  destruct (Z.eqb_spec (o_data o) 0) as [|_]; [contradiction|].
  rewrite (bind_ok _ _ _ _ _ (eq_trans (get_entry_by_key_spec _ _ _ _ _ key HR Hh)
                                  ltac:(rewrite Hsearch; reflexivity))).
  reflexivity.
Qed.

Lemma HMAP_key_in_map_rep s o m chains hash key :
  Rep s o m chains -> m_hash m = Some hash ->
  HMAP_key_in_map (Some o) (Some key) s
  = match search m chains key hash with
    | Ok p => Ok (if p =? 0 then HMAP_BOOL_FALSE else HMAP_BOOL_TRUE, s)
    | Fault f => Fault f
    end.
Proof.
  intros HR Hh.
  pose proof (rep_nonnull _ _ _ _ _ HR (ex_intro _ _ (rep_map _ _ _ _ HR))) as Ho.
  unfold HMAP_key_in_map, HMAP_INVALID_POINTER.
  destruct (Z.eqb_spec (o_data o) 0) as [|_]; [contradiction|].
  unfold bind. rewrite (get_entry_by_key_spec _ _ _ _ _ key HR Hh).
  destruct (search m chains key hash); reflexivity.
Qed.

Lemma HMAP_get_size_rep s o m chains x :
  Rep s o m chains ->
  HMAP_get_size (Some o) (Some x) s = Ok ((HMAP_STATUS_SUCCESS, Some (m_size m)), s).
Proof.
  intros HR.
  pose proof (rep_nonnull _ _ _ _ _ HR (ex_intro _ _ (rep_map _ _ _ _ HR))) as Ho.
  unfold HMAP_get_size, HMAP_INVALID_POINTER.
  destruct (Z.eqb_spec (o_data o) 0) as [|_]; [contradiction|].
  rewrite (bind_ok _ _ _ _ _ (load_map_ok _ _ _ (rep_map _ _ _ _ HR))). reflexivity.
Qed.

Lemma HMAP_get_entry_count_rep s o m chains x :
  Rep s o m chains ->
  HMAP_get_entry_count (Some o) (Some x) s
  = Ok ((HMAP_STATUS_SUCCESS, Some (m_entry_count m)), s).
Proof.
  intros HR.
  pose proof (rep_nonnull _ _ _ _ _ HR (ex_intro _ _ (rep_map _ _ _ _ HR))) as Ho.
  unfold HMAP_get_entry_count, HMAP_INVALID_POINTER.
  destruct (Z.eqb_spec (o_data o) 0) as [|_]; [contradiction|].
  rewrite (bind_ok _ _ _ _ _ (load_map_ok _ _ _ (rep_map _ _ _ _ HR))). reflexivity.
Qed.

Lemma copy_anon_data_size destination source size copied :
  copy_anon_data destination source size = Ok copied -> snd copied = size.
Proof.
  unfold copy_anon_data. destruct (copy_anon_data_loop _ _ _ _); [|discriminate].
  intros [= <-]. reflexivity.
Qed.

End Observe.

(** ** The observers leave the memory alone *)

Section ReadOnly.
Context `{Layout}.

Lemma readonly_ret {A} (a : A) : readonly (ret a).
Proof. intros s a' s' [= _ <-]. reflexivity. Qed.

Lemma readonly_raise {A} f : readonly (raise (A := A) f).
Proof. intros s a s' [=]. Qed.

Lemma readonly_lift {A} (r : res A) : readonly (lift r).
Proof. intros s a s'. unfold lift. destruct r; intros [=]; congruence. Qed.

Lemma readonly_bind {A B} (c : M A) (k : A -> M B) :
  readonly c -> (forall a, readonly (k a)) -> readonly (bind c k).
Proof.
  intros Hc Hk s b s'. unfold bind.
  destruct (c s) as [[a s1]|] eqn:Hrun; [|discriminate].
  intros Hrun'. apply Hc in Hrun as ->. exact (Hk _ _ _ _ Hrun').
Qed.

Lemma readonly_load p : readonly (load p).
Proof. intros s a s'. unfold load. destruct (heap s !! p); intros [=]; congruence. Qed.

Lemma readonly_load_bytes p : readonly (load_bytes p).
Proof.
  apply readonly_bind; [apply readonly_load|].
  intros []; first [apply readonly_ret | apply readonly_raise].
Qed.

Lemma readonly_load_entry p : readonly (load_entry p).
Proof.
  apply readonly_bind; [apply readonly_load|].
  intros []; first [apply readonly_ret | apply readonly_raise].
Qed.

Lemma readonly_load_buckets p : readonly (load_buckets p).
Proof.
  apply readonly_bind; [apply readonly_load|].
  intros []; first [apply readonly_ret | apply readonly_raise].
Qed.

Lemma readonly_load_map p : readonly (load_map p).
Proof.
  apply readonly_bind; [apply readonly_load|].
  intros []; first [apply readonly_ret | apply readonly_raise].
Qed.

Lemma readonly_call_hash f key : readonly (call_hash f key).
Proof. destruct f; [apply readonly_ret | apply readonly_raise]. Qed.

Lemma readonly_live_blocks : readonly live_blocks.
Proof. intros s a s' [= _ <-]. reflexivity. Qed.

Lemma readonly_get_bucket_by_hash map key_hash :
  readonly (get_bucket_by_hash map key_hash).
Proof.
  apply readonly_bind; [apply readonly_load_map|].
  intros m. destruct (m_buckets_len m =? 0); [apply readonly_raise | apply readonly_ret].
Qed.

Lemma readonly_load_bucket bucket : readonly (load_bucket bucket).
Proof.
  apply readonly_bind; [apply readonly_load_buckets | intros; apply readonly_lift].
Qed.

Lemma readonly_get_entry_by_hash_loop fuel key_hash entry entries entries_len :
  readonly (get_entry_by_hash_loop fuel key_hash entry entries entries_len).
Proof.
  revert entry entries entries_len.
  induction fuel as [|fuel IH]; intros entry entries entries_len;
    cbn [get_entry_by_hash_loop]; [apply readonly_raise|].
  destruct (entry =? HMAP_INVALID_POINTER); [apply readonly_ret|].
  apply readonly_bind; [apply readonly_load_entry|]. intros e.
  destruct (e_key_hash e =? key_hash); [|apply IH].
  apply readonly_bind; [apply readonly_lift | intros; apply IH].
Qed.

Lemma readonly_get_entry_by_hash map key_hash entries entries_len :
  readonly (get_entry_by_hash map key_hash entries entries_len).
Proof.
  apply readonly_bind; [apply readonly_get_bucket_by_hash|]. intros bucket.
  apply readonly_bind; [apply readonly_load_bucket|]. intros entry.
  apply readonly_bind; [apply readonly_live_blocks|]. intros fuel.
  apply readonly_get_entry_by_hash_loop.
Qed.

Lemma readonly_get_entry_by_key_loop n i entries key :
  readonly (get_entry_by_key_loop n i entries key).
Proof.
  revert i. induction n as [|n IH]; intros i; cbn [get_entry_by_key_loop];
    [apply readonly_ret|].
  apply readonly_bind; [apply readonly_lift|]. intros p.
  apply readonly_bind; [apply readonly_load_entry|]. intros e.
  apply readonly_bind; [apply readonly_load_bytes|]. intros entry_key.
  apply readonly_bind; [apply readonly_lift|]. intros [].
  - apply IH.
  - apply readonly_ret.
Qed.

Lemma readonly_get_entry_by_key map key : readonly (get_entry_by_key map key).
Proof.
  apply readonly_bind; [apply readonly_load_map|]. intros m.
  apply readonly_bind; [apply readonly_call_hash|]. intros key_hash.
  apply readonly_bind; [apply readonly_get_entry_by_hash|]. intros found.
  apply readonly_get_entry_by_key_loop.
Qed.

(** [HMAP_get_data] writes to the caller's storage only: whatever it
    returns, the memory of the table is as before. *)
Lemma HMAP_get_data_readonly obj key data : readonly (HMAP_get_data obj key data).
Proof.
  unfold HMAP_get_data.
  destruct obj as [o|], key as [k|], data as [d|]; try apply readonly_ret.
  destruct (o_data o =? HMAP_INVALID_POINTER); [apply readonly_ret|].
  apply readonly_bind; [apply readonly_get_entry_by_key|]. intros entry.
  destruct (entry =? HMAP_INVALID_POINTER); [apply readonly_ret|].
  apply readonly_bind; [apply readonly_load_entry|]. intros e.
  apply readonly_bind; [apply readonly_load_bytes|]. intros source.
  apply readonly_bind; [apply readonly_lift | intros; apply readonly_ret].
Qed.

Lemma HMAP_key_in_map_readonly obj key : readonly (HMAP_key_in_map obj key).
Proof.
  unfold HMAP_key_in_map.
  destruct obj as [o|], key as [k|]; try apply readonly_ret.
  destruct (o_data o =? HMAP_INVALID_POINTER); [apply readonly_ret|].
  apply readonly_bind; [apply readonly_get_entry_by_key | intros; apply readonly_ret].
Qed.

Lemma HMAP_get_size_readonly obj size : readonly (HMAP_get_size obj size).
Proof.
  unfold HMAP_get_size. destruct obj as [o|]; [|apply readonly_ret].
  destruct (o_data o =? HMAP_INVALID_POINTER); [apply readonly_ret|].
  apply readonly_bind; [apply readonly_load_map|]. intros m.
  destruct size; [apply readonly_ret | apply readonly_raise].
Qed.

Lemma HMAP_get_entry_count_readonly obj entry_count :
  readonly (HMAP_get_entry_count obj entry_count).
Proof.
  unfold HMAP_get_entry_count. destruct obj as [o|]; [|apply readonly_ret].
  destruct (o_data o =? HMAP_INVALID_POINTER); [apply readonly_ret|].
  apply readonly_bind; [apply readonly_load_map|]. intros m.
  destruct entry_count; [apply readonly_ret | apply readonly_raise].
Qed.

Lemma HMAP_get_hash_readonly obj data hash : readonly (HMAP_get_hash obj data hash).
Proof.
  unfold HMAP_get_hash.
  destruct obj as [o|], data as [d|], hash as [h|]; try apply readonly_ret.
  destruct (o_data o =? HMAP_INVALID_POINTER); [apply readonly_ret|].
  apply readonly_bind; [apply readonly_load_map|]. intros m.
  apply readonly_bind; [apply readonly_call_hash | intros; apply readonly_ret].
Qed.

End ReadOnly.

(** A run and its two projections. *)
Lemma run_eq {A} (r : res (A * mem)) (a : A) :
  value r = Ok a -> r = Ok (a, state_after r).
Proof. destruct r as [[a' s]|]; cbn; congruence. Qed.

Lemma readonly_run `{Layout} {A} (c : M A) (s : mem) (a : A) :
  readonly c -> value (c s) = Ok a -> c s = Ok (a, s).
Proof.
  intros Hc Hv. apply run_eq in Hv. rewrite Hv. f_equal. f_equal.
  exact (Hc _ _ _ Hv).
Qed.

(** ** Giving a stored key a value of another length *)

Section Resize.
Context `{Layout}.

Lemma HMAP_get_data_fault s o m chains hash key out f :
  Rep s o m chains -> m_hash m = Some hash ->
  search m chains key hash = Fault f ->
  HMAP_get_data (Some o) (Some key) (Some out) s = Fault f.
Proof.
  intros HR Hh Hsearch.
  pose proof (rep_nonnull _ _ _ _ _ HR (ex_intro _ _ (rep_map _ _ _ _ HR))) as Ho.
  unfold HMAP_get_data, HMAP_INVALID_POINTER.
  destruct (Z.eqb_spec (o_data o) 0) as [|_]; [contradiction|].
  apply bind_fault. exact (lookup_fault _ _ _ _ _ _ _ HR Hh Hsearch).
Qed.

(** A value read back through [HMAP_get_data] is the data of a node of
    the key's chain. *)
Lemma holds_value_node s o m chains hash key data :
  Rep s o m chains -> m_hash m = Some hash ->
  holds_value s o key data ->
  exists pre n post,
    chains !! Z.to_nat (wrap (hash key) mod m_buckets_len m) = Some (pre ++ n :: post) /\
    search m chains key hash = Ok (n_addr n) /\
    n_key n = key /\ n_data n = data.
Proof.
  intros HR Hh Hget. unfold holds_value in Hget.
  destruct (search m chains key hash) as [p|f] eqn:Hsearch.
  2: { rewrite (HMAP_get_data_fault _ _ _ _ _ _ _ _ HR Hh Hsearch) in Hget.
       discriminate. }
  destruct (decide (p = 0)) as [->|Hp].
  { rewrite (HMAP_get_data_absent _ _ _ _ _ _ _ HR Hh Hsearch) in Hget. discriminate. }
  destruct (search_found _ _ _ _ _ Hsearch Hp (rep_len _ _ _ _ HR))
    as (pre & n & post & Hi & Hn & Hkey & _).
  subst p. exists pre, n, post. split; [exact Hi|]. split; [reflexivity|].
  split; [exact Hkey|].
  rewrite (HMAP_get_data_found _ _ _ _ _ _ _ _ _ _ _ HR Hh Hsearch Hi) in Hget.
  cbn [buffer out_storage] in Hget.
  destruct (copy_anon_data _ _ _) as [copied|] eqn:Hcopy; [|discriminate].
  injection Hget as Hfst Hsnd.
  pose proof (copy_anon_data_size _ _ _ _ Hcopy) as Hsize.
  assert (length (repeat x00 (length data)) = length (n_data n)) as Hlen
    by (rewrite repeat_length; unfold blob_size in *; lia).
  rewrite (copy_anon_data_exact _ _ Hlen) in Hcopy.
  injection Hcopy as <-. exact Hfst.
Qed.

Lemma node_holds_value s o m chains hash key i pre n post :
  Rep s o m chains -> m_hash m = Some hash ->
  search m chains key hash = Ok (n_addr n) ->
  chains !! i = Some (pre ++ n :: post) ->
  holds_value s o key (n_data n).
Proof.
  intros HR Hh Hsearch Hi. unfold holds_value.
  rewrite (HMAP_get_data_found _ _ _ _ _ _ _ _ _ _ _ HR Hh Hsearch Hi).
  cbn [buffer out_storage].
  rewrite copy_anon_data_exact by apply repeat_length. reflexivity.
Qed.

Lemma node_key_storage s o m chains hash key i pre n post :
  Rep s o m chains -> m_hash m = Some hash ->
  search m chains key hash = Ok (n_addr n) ->
  chains !! i = Some (pre ++ n :: post) -> n_key n = key ->
  key_storage s o key (n_addr n) (n_entry n).
Proof.
  intros HR Hh Hsearch Hi Hkey.
  destruct (rep_focus _ _ _ _ _ _ _ _ HR Hi) as ((Ha & Hk & _) & _ & _).
  split; [|split; [|split]].
  - rewrite (get_entry_by_key_spec _ _ _ _ _ key HR Hh), Hsearch. reflexivity.
  - exact (rep_nonnull _ _ _ _ _ HR (ex_intro _ _ Ha)).
  - exact Ha.
  - rewrite Hk, Hkey. reflexivity.
Qed.

(** X31.  On every table built through the interface, if [HMAP_get_data]
    of [key] yields [v1] and [HMAP_get_size] reports [total], then
    [HMAP_set_data] of [key] to a [v2] of another length succeeds; after it
    [HMAP_get_size] reports [total + (len v2 - len v1)] in [unsigned int]
    arithmetic (that very number whenever it is one), [HMAP_get_data] of
    [key] yields [v2], and the lookup of [key] finds the same entry with
    the [key] field it had, the key block holding the key's bytes as
    before. *)
Theorem HMAP_set_data_resize s o key v1 v2 total :
  reachable s o ->
  holds_value s o key v1 -> total_size s o total ->
  length v2 <> length v1 ->
  exists s' p e e',
    HMAP_set_data (Some o) (Some key) (Some v2) s = Ok (HMAP_STATUS_SUCCESS, s') /\
    total_size s' o (wrap (total + (blob_size v2 - blob_size v1))) /\
    (0 <= total + (blob_size v2 - blob_size v1) < 2 ^ uint_bits ->
     total_size s' o (total + (blob_size v2 - blob_size v1))) /\
    holds_value s' o key v2 /\
    key_storage s o key p e /\ key_storage s' o key p e' /\
    e_key e' = e_key e /\
    heap s' !! a_ptr (e_key e) = heap s !! a_ptr (e_key e).
Proof.
  intros Hreach Hv1 Htotal Hlen.
  destruct (reachable_rep _ _ Hreach) as (m & chains & HR).
  destruct (rep_hash _ _ _ _ HR) as [hash Hh].
  destruct (holds_value_node _ _ _ _ _ _ _ HR Hh Hv1)
    as (pre & n & post & Hi & Hsearch & Hkey & Hdata).
  unfold total_size in Htotal. rewrite (HMAP_get_size_rep _ _ _ _ _ HR) in Htotal.
  injection Htotal as Htotal.
  destruct (rep_focus _ _ _ _ _ _ _ _ HR Hi) as ((_ & _ & _ & _ & Hds) & _ & _).
  destruct (HMAP_set_data_update _ _ _ _ _ key v2 _ pre n post HR Hh Hsearch Hi)
    as (s' & Hrun & HR' & _ & Hkeyblock).
  set (i := Z.to_nat (wrap (hash key) mod m_buckets_len m)) in *.
  set (n' := updated_node s n v2) in *.
  set (m' := updated_map m (n_entry n) v2) in *.
  assert (Hsize : m_size m' = wrap (total + (blob_size v2 - blob_size v1))).
  { unfold m', updated_map. rewrite Hds, Hdata.
    destruct (Z.eqb_spec (blob_size v1) (blob_size v2)) as [Heq|_];
      [unfold blob_size in Heq; lia|].
    cbn [set_m_totals m_size]. rewrite wrap_add_r, Htotal. reflexivity. }
  assert (Hh' : m_hash m' = Some hash).
  { unfold m', updated_map. destruct (_ =? _); [exact Hh | exact Hh]. }
  assert (Hlen' : m_buckets_len m' = m_buckets_len m).
  { unfold m', updated_map. destruct (_ =? _); reflexivity. }
  assert (Hsearch' : search m' (<[i := pre ++ n' :: post]> chains) key hash
                     = Ok (n_addr n')).
  { rewrite (search_replace m m' chains i (pre ++ n :: post) (pre ++ n' :: post)
               key hash Hi (updated_sig s pre n post v2) Hlen').
    exact Hsearch. }
  assert (Hi' : <[i := pre ++ n' :: post]> chains !! i = Some (pre ++ n' :: post)).
  { apply list_lookup_insert_eq. eapply lookup_lt_Some. exact Hi. }
  assert (Htotal' : total_size s' o (wrap (total + (blob_size v2 - blob_size v1)))).
  { unfold total_size. rewrite (HMAP_get_size_rep _ _ _ _ _ HR'), Hsize. reflexivity. }
  exists s', (n_addr n), (n_entry n), (n_entry n').
  split; [exact Hrun|]. split; [exact Htotal'|].
  split.
  { intros Hrange. unfold wrap in Htotal'. rewrite Z.mod_small in Htotal' by exact Hrange.
    exact Htotal'. }
  split; [exact (node_holds_value _ _ _ _ _ _ _ _ _ _ HR' Hh' Hsearch' Hi')|].
  split; [exact (node_key_storage _ _ _ _ _ _ _ _ _ _ HR Hh Hsearch Hi Hkey)|].
  split; [exact (node_key_storage _ _ _ _ _ _ _ _ _ _ HR' Hh' Hsearch' Hi' Hkey)|].
  split; [reflexivity | exact Hkeyblock].
Qed.

End Resize.

(** ** The tables of the concrete runs are built through the interface *)

Lemma mem_ok_init : mem_ok mem_init.
Proof.
  split; [cbn; lia|]. intros p [b Hb]. cbn in Hb. rewrite lookup_empty in Hb.
  discriminate.
Qed.

Lemma s_created_reachable : reachable s_created obj1.
Proof.
  apply (reachable_create mem_init (def_sdbm 8) null_obj obj1 s_created mem_ok_init).
  apply (run_eq (HMAP_create (Some (def_sdbm 8)) (Some null_obj) mem_init)).
  vm_compute. reflexivity.
Qed.

Lemma s_a_reachable : reachable s_a obj1.
Proof.
  apply (reachable_set s_created obj1 key_a ["1"%byte] HMAP_STATUS_SUCCESS s_a
           s_created_reachable).
  apply (run_eq (HMAP_set_data (Some obj1) (Some key_a) (Some ["1"%byte]) s_created)).
  vm_compute. reflexivity.
Qed.

Lemma set_all_reachable o kvs :
  forall s statuses s',
    reachable s o -> set_all o kvs s = Ok (statuses, s') -> reachable s' o.
Proof.
  induction kvs as [|[k v] kvs IH]; intros s statuses s' Hreach Hrun.
  - injection Hrun as _ <-. exact Hreach.
  - cbn [set_all] in Hrun.
    destruct (HMAP_set_data (Some o) (Some k) (Some v) s) as [[st s1]|] eqn:Hset;
      [|discriminate].
    destruct (set_all o kvs s1) as [[sts s2]|] eqn:Hrest; [|discriminate].
    injection Hrun as _ <-.
    exact (IH _ _ _ (reachable_set _ _ _ _ _ _ Hreach Hset) Hrest).
Qed.

(** C4.  Six keys with one hash value are stored, each by a
    [HMAP_set_data] that returns success; the table holds the key of five
    zero bytes with the one-byte value "5".  [HMAP_set_data] of that key to
    a value of two bytes does not adjust the total size or store the
    value: its lookup stores a sixth candidate into the array of
    [MAX_COLLISIONS] = 5 slots, as does the [HMAP_get_data] of the key. *)
Theorem resize_of_sixth_colliding_key_overruns :
  reachable s_six_zero_keys obj1 /\
  (zero_key 5, ["5"%byte]) ∈ table_items s_six_zero_keys obj1 /\
  length ["5"%byte; "5"%byte] <> length ["5"%byte] /\
  HMAP_set_data (Some obj1) (Some (zero_key 5)) (Some ["5"%byte; "5"%byte])
    s_six_zero_keys
  = Fault OutOfBounds /\
  HMAP_get_data (Some obj1) (Some (zero_key 5)) (Some (buffer 1)) s_six_zero_keys
  = Fault OutOfBounds.
Proof.
  split; [|split; [|split; [|split]]].
  - apply (set_all_reachable obj1 six_zero_keys s_created
             (repeat HMAP_STATUS_SUCCESS 6) s_six_zero_keys s_created_reachable).
    apply (run_eq (set_all obj1 six_zero_keys s_created)). vm_compute. reflexivity.
  - apply list_elem_of_In. vm_compute. tauto.
  - cbn. lia.
  - vm_compute. reflexivity.
  - vm_compute. reflexivity.
Qed.

Lemma HMAP_set_data_resize_witness :
  exists s' p e e',
    HMAP_set_data (Some obj1) (Some key_a) (Some ["2"%byte; "2"%byte]) s_a
    = Ok (HMAP_STATUS_SUCCESS, s') /\
    total_size s' obj1 (wrap (186 + (blob_size ["2"%byte; "2"%byte] - blob_size ["1"%byte]))) /\
    (0 <= 186 + (blob_size ["2"%byte; "2"%byte] - blob_size ["1"%byte]) < 2 ^ uint_bits ->
     total_size s' obj1 (186 + (blob_size ["2"%byte; "2"%byte] - blob_size ["1"%byte]))) /\
    holds_value s' obj1 key_a ["2"%byte; "2"%byte] /\
    key_storage s_a obj1 key_a p e /\ key_storage s' obj1 key_a p e' /\
    e_key e' = e_key e /\
    heap s' !! a_ptr (e_key e) = heap s_a !! a_ptr (e_key e).
Proof.
  apply (HMAP_set_data_resize s_a obj1 key_a ["1"%byte] ["2"%byte; "2"%byte] 186).
  - exact s_a_reachable.
  - apply (readonly_run _ _ _ (HMAP_get_data_readonly _ _ _)). vm_compute. reflexivity.
  - apply (readonly_run _ _ _ (HMAP_get_size_readonly _ _)). vm_compute. reflexivity.
  - cbn. lia.
Defined.

(** ** Tearing a table down *)

Section Destroy.
Context `{Layout}.

Lemma released_refl map buckets s : released map buckets s s [].
Proof.
  split; [reflexivity|]. split; [|reflexivity].
  intros q Hq. apply elem_of_nil in Hq. contradiction.
Qed.

Lemma released_trans map buckets s s1 s2 F1 F2 :
  released map buckets s s1 F1 -> released map buckets s1 s2 F2 -> extends s1 s2 ->
  released map buckets s s2 (F1 ++ F2).
Proof.
  intros (Hb1 & Hn1 & Hf1) (Hb2 & Hn2 & Hf2) (_ & Hext).
  split; [congruence|]. split.
  - intros q Hq. apply elem_of_app in Hq as [Hq|Hq]; [|apply Hn2, Hq].
    destruct (Hn1 q Hq) as [Hnone Hrange]. split; [|lia].
    apply Hext; assumption.
  - intros q Ho Hbk Hq. rewrite elem_of_app in Hq.
    rewrite Hf2, Hf1 by tauto. reflexivity.
Qed.

(** One turn of the inner loop of [HMAP_destroy]: the head of bucket [i]
    is popped and destroyed. *)
Lemma destroy_head s o m chains i n post :
  Rep s o m chains -> chains !! i = Some (n :: post) ->
  exists s',
    bind (store_bucket (m_buckets m, Z.of_nat i) (e_next (n_entry n)))
      (fun _ => destroy_entry (o_data o) (n_addr n)) s = Ok (tt, s') /\
    Rep s' o (entry_removed m (n_entry n)) (<[i := post]> chains) /\
    extends s s' /\
    released (o_data o) (m_buckets m) s s' (node_fp n).
Proof.
  intros HR Hi.
  destruct (rep_focus _ _ _ _ _ [] _ _ HR Hi) as (Hn & Hrest & Hnd).
  cbn [app] in Hrest, Hnd.
  pose proof (rep_map _ _ _ _ HR) as Hmap.
  pose proof (rep_buckets _ _ _ _ HR) as Hbuckets.
  pose proof (rep_live _ _ _ _ HR) as Hlive.
  destruct (rep_bucket _ _ _ _ _ _ HR Hi) as (Hch & _ & _ & _).
  destruct Hn as (Ha & Hk & Hd & Hks & Hds).
  pose proof (Hlive _ (ex_intro _ _ Hmap)) as Ho_lt.
  pose proof (Hlive _ (ex_intro _ _ Ha)) as Ha_lt.
  pose proof (Hlive _ (ex_intro _ _ Hk)) as Hk_lt.
  pose proof (Hlive _ (ex_intro _ _ Hd)) as Hd_lt.
  destruct (focus_distinct _ _ _ _ _ _ Hnd) as (Hne & HneR).
  destruct Hne as (? & ? & ? & ? & ? & ? & ? & ? & ? & ?).
  pose proof (lookup_lt_Some _ _ _ Hi) as Hlt.
  step_by (eapply (store_bucket_ok _ _ _ i); [exact Hbuckets | rewrite length_map; exact Hlt]).
  rewrite (destroy_entry_ok _ _ m _ (n_entry n))
    by first [heap_lookup | is_some | apply (rep_free _ _ _ _ HR) | congruence | zlia].
  eexists. split; [reflexivity|].
  destruct Hch as [Hlink Hprevs]. cbn [chain_head next_linked] in Hlink.
  destruct Hlink as [_ Hlink]. pose proof (next_linked_head _ _ Hlink) as Hnext.
  assert (HframeR : forall q, q ∈ flat_map node_fp (post ++ others chains i) ->
    heap {| heap := delete (n_addr n)
                      (delete (a_ptr (e_key (n_entry n)))
                         (delete (a_ptr (e_data (n_entry n)))
                            (<[o_data o := BMap (entry_removed m (n_entry n))]>
                               (<[m_buckets m
                                  := BBuckets (<[i := e_next (n_entry n)]>
                                                 (map chain_head chains))]> (heap s)))));
            brk := brk s |} !! q = heap s !! q).
  { intros q Hq. destruct (HneR q Hq) as (? & ? & ? & ? & ?).
    cbn [heap]. heap_simpl. reflexivity. }
  assert (Hrep : Rep {| heap := delete (n_addr n)
                      (delete (a_ptr (e_key (n_entry n)))
                         (delete (a_ptr (e_data (n_entry n)))
                            (<[o_data o := BMap (entry_removed m (n_entry n))]>
                               (<[m_buckets m
                                  := BBuckets (<[i := e_next (n_entry n)]>
                                                 (map chain_head chains))]> (heap s)))));
            brk := brk s |} o (entry_removed m (n_entry n)) (<[i := post]> chains)
          /\ extends s {| heap := delete (n_addr n)
                      (delete (a_ptr (e_key (n_entry n)))
                         (delete (a_ptr (e_data (n_entry n)))
                            (<[o_data o := BMap (entry_removed m (n_entry n))]>
                               (<[m_buckets m
                                  := BBuckets (<[i := e_next (n_entry n)]>
                                                 (map chain_head chains))]> (heap s)))));
            brk := brk s |}).
  { apply (rep_after_remove s _ o m chains i [] n post post HR Hi eq_refl).
    - split; [rewrite <- Hnext; exact Hlink|].
      destruct post as [|b t]; [exact I|].
      destruct Hprevs as (_ & Hb & Ht). split; [|exact Ht].
      right. rewrite Hb. cbn [heap brk]. split; [heap_simpl; reflexivity | zlia].
    - apply (nodes_ok_frame (heap s)).
      + intros q Hq. apply HframeR. rewrite flat_map_app, elem_of_app. tauto.
      + apply Forall_app in Hrest. tauto.
    - cbn [heap]. heap_simpl. reflexivity.
    - cbn [heap]. heap_simpl. rewrite Hnext. reflexivity.
    - intros q Hq. apply HframeR. rewrite flat_map_app, elem_of_app. tauto.
    - intros p Hp. cbn [heap].
      assert (p <> o_data o) by congruence.
      assert (p <> m_buckets m) by congruence.
      rewrite !lookup_delete_None. do 3 right. heap_simpl. exact Hp.
    - reflexivity. }
  destruct Hrep as [Hrep Hext]. split; [exact Hrep|]. split; [exact Hext|].
  split; [reflexivity|]. split.
  - intros q Hq. cbn [heap brk]. rewrite elem_of_node_fp in Hq.
    destruct Hq as [-> | [-> | ->]]; (split; [heap_simpl; reflexivity | zlia]).
  - intros q Ho Hb Hq. rewrite elem_of_node_fp in Hq. cbn [heap].
    assert (q <> n_addr n) by tauto.
    assert (q <> a_ptr (e_key (n_entry n))) by tauto.
    assert (q <> a_ptr (e_data (n_entry n))) by tauto.
    heap_simpl. reflexivity.
Qed.

(** The inner loop empties bucket [i]. *)
Lemma HMAP_destroy_bucket_spec o i (ch : list node) :
  forall fuel s m chains,
    Rep s o m chains -> chains !! i = Some ch -> (length ch < fuel)%nat ->
    exists s' m',
      HMAP_destroy_bucket fuel (o_data o) (Z.of_nat i) s = Ok (tt, s') /\
      Rep s' o m' (<[i := []]> chains) /\
      m_buckets m' = m_buckets m /\
      extends s s' /\
      released (o_data o) (m_buckets m) s s' (flat_map node_fp ch).
Proof.
  induction ch as [|n post IH]; intros fuel s m chains HR Hi Hfuel;
    (destruct fuel as [|fuel]; [cbn in Hfuel; lia|]); cbn [HMAP_destroy_bucket].
  - rewrite (bind_ok _ _ _ _ _ (load_map_ok _ _ _ (rep_map _ _ _ _ HR))).
    rewrite (bind_ok _ _ _ _ _ (load_bucket_ok _ _ _ i HMAP_INVALID_POINTER
                                  (rep_buckets _ _ _ _ HR)
                                  ltac:(rewrite list_lookup_fmap, Hi; reflexivity))).
    change (HMAP_INVALID_POINTER =? HMAP_INVALID_POINTER) with true. cbn iota.
    exists s, m. split; [reflexivity|]. rewrite list_insert_id by exact Hi.
    split; [exact HR|]. split; [reflexivity|]. split; [split; [lia | auto]|].
    apply released_refl.
  - destruct (rep_bucket _ _ _ _ _ _ HR Hi) as (_ & Hok & Hnz & _).
    apply Forall_cons in Hok as [(Ha & _) _]. apply Forall_cons in Hnz as [Hnz _].
    rewrite (bind_ok _ _ _ _ _ (load_map_ok _ _ _ (rep_map _ _ _ _ HR))).
    rewrite (bind_ok _ _ _ _ _ (load_bucket_ok _ _ _ i (n_addr n)
                                  (rep_buckets _ _ _ _ HR)
                                  ltac:(rewrite list_lookup_fmap, Hi; reflexivity))).
    unfold HMAP_INVALID_POINTER.
    destruct (Z.eqb_spec (n_addr n) 0) as [|_]; [contradiction|].
    rewrite (bind_ok _ _ _ _ _ (load_entry_ok _ _ _ Ha)).
    destruct (destroy_head _ _ _ _ _ _ _ HR Hi) as (s1 & Hrun & HR1 & Hext1 & Hrel1).
    rewrite <- bind_bind, (bind_ok _ _ _ _ _ Hrun).
    assert (Hi1 : <[i := post]> chains !! i = Some post)
      by (apply list_lookup_insert_eq; eapply lookup_lt_Some; exact Hi).
    destruct (IH fuel s1 _ _ HR1 Hi1 ltac:(cbn in Hfuel; lia))
      as (s2 & m2 & Hrun2 & HR2 & Hb2 & Hext2 & Hrel2).
    exists s2, m2. split; [exact Hrun2|].
    rewrite list_insert_insert_eq in HR2. split; [exact HR2|].
    split; [exact Hb2|]. split.
    + destruct Hext1 as [Hbrk1 Hn1], Hext2 as [Hbrk2 Hn2].
      split; [lia|]. intros p Hp Hnone. apply Hn2; [lia|]. apply Hn1; assumption.
    + cbn [flat_map]. exact (released_trans _ _ _ _ _ _ _ Hrel1 Hrel2 Hext2).
Qed.

Lemma extends_trans s s1 s2 : extends s s1 -> extends s1 s2 -> extends s s2.
Proof.
  intros [Hb1 Hn1] [Hb2 Hn2]. split; [lia|].
  intros p Hp Hnone. apply Hn2; [lia|]. apply Hn1; assumption.
Qed.

Lemma insert_after_repeat {A} (x y : A) (i : nat) (rest : list A) :
  <[i := x]> (repeat x i ++ y :: rest) = repeat x (S i) ++ rest.
Proof. induction i as [|i IH]; [reflexivity|]. simpl. f_equal. exact IH. Qed.

(** The outer loop empties the buckets from [i] on. *)
Lemma HMAP_destroy_loop_spec o (rest : list (list node)) :
  forall i s m,
    Rep s o m (repeat [] i ++ rest) ->
    exists s' m',
      HMAP_destroy_loop (length rest) (Z.of_nat i) (o_data o) s = Ok (tt, s') /\
      Rep s' o m' (repeat [] (i + length rest)) /\
      m_buckets m' = m_buckets m /\
      extends s s' /\
      released (o_data o) (m_buckets m) s s' (flat_map node_fp (concat rest)).
Proof.
  induction rest as [|ch rest IH]; intros i s m HR; cbn [length HMAP_destroy_loop].
  - exists s, m. rewrite app_nil_r in HR. rewrite Nat.add_0_r.
    split; [reflexivity|]. split; [exact HR|]. split; [reflexivity|].
    split; [split; [lia | auto] | apply released_refl].
  - assert (Hi : (repeat [] i ++ ch :: rest) !! i = Some ch)
      by (apply list_lookup_middle; rewrite repeat_length; reflexivity).
    destruct (rep_bucket _ _ _ _ _ _ HR Hi) as (_ & _ & _ & Hfuel).
    rewrite (bind_ok live_blocks _ s (size (heap s)) s eq_refl).
    destruct (HMAP_destroy_bucket_spec o i ch (S (size (heap s))) s m _ HR Hi
                ltac:(lia)) as (s1 & m1 & Hrun1 & HR1 & Hb1 & Hext1 & Hrel1).
    rewrite (bind_ok _ _ _ _ _ Hrun1).
    rewrite insert_after_repeat in HR1.
    replace (Z.of_nat i + 1) with (Z.of_nat (S i)) by lia.
    destruct (IH (S i) s1 m1 HR1) as (s2 & m2 & Hrun2 & HR2 & Hb2 & Hext2 & Hrel2).
    exists s2, m2. split; [exact Hrun2|].
    rewrite Nat.add_succ_r. split; [exact HR2|].
    split; [congruence|]. split; [exact (extends_trans _ _ _ Hext1 Hext2)|].
    cbn [concat]. rewrite flat_map_app. rewrite Hb1 in Hrel2.
    exact (released_trans _ _ _ _ _ _ _ Hrel1 Hrel2 Hext2).
Qed.

(** [HMAP_destroy] of a well-formed table returns success with the handle
    cleared; every block of the table has been handed to the free hook, and
    no other block has been touched. *)
Lemma HMAP_destroy_rep s o m chains :
  Rep s o m chains ->
  exists s',
    HMAP_destroy (Some o) s
    = Ok ((HMAP_STATUS_SUCCESS, Some {| o_data := HMAP_INVALID_POINTER |}), s') /\
    brk s' = brk s /\
    (forall q, q ∈ table_fp o m chains -> heap s' !! q = None) /\
    (forall q, q ∉ table_fp o m chains -> heap s' !! q = heap s !! q).
Proof.
  intros HR.
  pose proof (rep_nonnull _ _ _ _ _ HR (ex_intro _ _ (rep_map _ _ _ _ HR))) as Ho.
  unfold HMAP_destroy. unfold HMAP_INVALID_POINTER at 1.
  destruct (Z.eqb_spec (o_data o) 0) as [|_]; [contradiction|].
  rewrite (bind_ok _ _ _ _ _ (load_map_ok _ _ _ (rep_map _ _ _ _ HR))).
  rewrite (rep_len _ _ _ _ HR), Nat2Z.id.
  destruct (HMAP_destroy_loop_spec o chains 0 s m HR)
    as (s1 & m1 & Hrun1 & HR1 & Hb1 & Hext1 & Hbrk1 & Hnone1 & Hframe1).
  change (Z.of_nat 0) with 0 in Hrun1.
  rewrite (bind_ok _ _ _ _ _ Hrun1).
  pose proof (rep_map _ _ _ _ HR1) as Hmap1.
  pose proof (rep_buckets _ _ _ _ HR1) as Hbuckets1.
  pose proof (rep_nonnull _ _ _ _ _ HR1 (ex_intro _ _ Hbuckets1)) as Hbnz.
  pose proof (rep_sep _ _ _ _ HR1) as Hsep.
  apply NoDup_cons in Hsep as [Hne _]. rewrite not_elem_of_cons in Hne.
  destruct Hne as [Hne _].
  rewrite (bind_ok _ _ _ _ _ (load_map_ok _ _ _ Hmap1)).
  rewrite (bind_ok _ _ _ _ _ (call_free_ok _ _ _ (rep_free _ _ _ _ HR1) Hbnz
                                (ex_intro _ _ Hbuckets1))).
  assert (Hmap2 : heap {| heap := delete (m_buckets m1) (heap s1); brk := brk s1 |}
                  !! o_data o = Some (BMap m1))
    by (cbn [heap]; rewrite lookup_delete_ne by congruence; exact Hmap1).
  rewrite (bind_ok _ _ _ _ _ (load_map_ok _ _ _ Hmap2)).
  rewrite (bind_ok _ _ _ _ _ (call_free_ok _ _ _ (rep_free _ _ _ _ HR1) Ho
                                (ex_intro _ _ Hmap2))).
  eexists. split; [reflexivity|]. cbn [heap brk]. split; [exact Hbrk1|].
  unfold table_fp. split.
  - intros q Hq. rewrite !elem_of_cons in Hq.
    destruct (decide (q = o_data o)) as [->|Hqo]; [apply lookup_delete_eq|].
    rewrite lookup_delete_ne by congruence.
    destruct (decide (q = m_buckets m1)) as [->|Hqb]; [apply lookup_delete_eq|].
    rewrite lookup_delete_ne by congruence.
    apply Hnone1. rewrite Hb1 in Hqb. tauto.
  - intros q Hq. rewrite !not_elem_of_cons in Hq. destruct Hq as (Hqo & Hqb & Hq).
    rewrite !lookup_delete_ne by congruence. apply Hframe1; assumption.
Qed.

End Destroy.

(** ** Handles that name no table *)

Section Uninitialized.
Context `{Layout}.

(** C10 (amended).  [HMAP_destroy] of a table built through the interface
    returns success and clears the handle's [data] pointer.  On a handle
    whose [data] pointer is null (the destroyed one, or a never-created one
    that the caller has cleared), whatever the memory, [HMAP_destroy]
    returns [HMAP_STATUS_MAP_UNINITIALIZED], and so do [HMAP_get_data],
    [HMAP_set_data], [HMAP_remove_entry] and [HMAP_get_hash] given their
    other arguments, and [HMAP_get_entry_count] and [HMAP_get_size];
    [HMAP_key_in_map] answers [HMAP_BOOL_FALSE].  None of them changes the
    memory. *)
Theorem HMAP_destroy_leaves_uninitialized s o :
  reachable s o ->
  exists s',
    HMAP_destroy (Some o) s = Ok ((HMAP_STATUS_SUCCESS, Some null_obj), s') /\
    forall t key data out count size hash_out,
      HMAP_destroy (Some null_obj) t
      = Ok ((HMAP_STATUS_MAP_UNINITIALIZED, Some null_obj), t) /\
      HMAP_get_data (Some null_obj) (Some key) (Some out) t
      = Ok ((HMAP_STATUS_MAP_UNINITIALIZED, Some out), t) /\
      HMAP_set_data (Some null_obj) (Some key) (Some data) t
      = Ok (HMAP_STATUS_MAP_UNINITIALIZED, t) /\
      HMAP_remove_entry (Some null_obj) (Some key) t
      = Ok (HMAP_STATUS_MAP_UNINITIALIZED, t) /\
      HMAP_get_hash (Some null_obj) (Some data) (Some hash_out) t
      = Ok ((HMAP_STATUS_MAP_UNINITIALIZED, Some hash_out), t) /\
      HMAP_get_entry_count (Some null_obj) count t
      = Ok ((HMAP_STATUS_MAP_UNINITIALIZED, count), t) /\
      HMAP_get_size (Some null_obj) size t
      = Ok ((HMAP_STATUS_MAP_UNINITIALIZED, size), t) /\
      HMAP_key_in_map (Some null_obj) (Some key) t = Ok (HMAP_BOOL_FALSE, t).
Proof.
  intros Hreach. destruct (reachable_rep _ _ Hreach) as (m & chains & HR).
  destruct (HMAP_destroy_rep _ _ _ _ HR) as (s' & Hrun & _).
  exists s'. split; [exact Hrun|].
  intros t key data out count size hash_out. repeat split.
Qed.

End Uninitialized.

(** C10 as stated fails for a never-created handle: the procedures tell an
    uninitialized handle by its null [data] pointer only.  Before any
    table exists, on a handle whose [data] field was never cleared,
    [HMAP_destroy] and every other procedure follow the pointer instead of
    reporting [HMAP_STATUS_MAP_UNINITIALIZED]. *)
Lemma never_created_handle_is_dereferenced :
  o_data stray_obj <> HMAP_INVALID_POINTER /\
  heap mem_init !! o_data stray_obj = None /\
  HMAP_destroy (Some stray_obj) mem_init = Fault InvalidPointer /\
  HMAP_get_data (Some stray_obj) (Some key_a) (Some (buffer 1)) mem_init
  = Fault InvalidPointer /\
  HMAP_set_data (Some stray_obj) (Some key_a) (Some ["1"%byte]) mem_init
  = Fault InvalidPointer /\
  HMAP_remove_entry (Some stray_obj) (Some key_a) mem_init = Fault InvalidPointer /\
  HMAP_get_hash (Some stray_obj) (Some key_a) (Some 0) mem_init = Fault InvalidPointer /\
  HMAP_get_entry_count (Some stray_obj) (Some 0) mem_init = Fault InvalidPointer /\
  HMAP_get_size (Some stray_obj) (Some 0) mem_init = Fault InvalidPointer /\
  HMAP_key_in_map (Some stray_obj) (Some key_a) mem_init = Fault InvalidPointer.
Proof.
  split; [cbn; unfold HMAP_INVALID_POINTER; lia|].
  repeat split; vm_compute; reflexivity.
Qed.

Lemma HMAP_destroy_leaves_uninitialized_witness :
  exists s',
    HMAP_destroy (Some obj1) s_a = Ok ((HMAP_STATUS_SUCCESS, Some null_obj), s') /\
    forall t key data out count size hash_out,
      HMAP_destroy (Some null_obj) t
      = Ok ((HMAP_STATUS_MAP_UNINITIALIZED, Some null_obj), t) /\
      HMAP_get_data (Some null_obj) (Some key) (Some out) t
      = Ok ((HMAP_STATUS_MAP_UNINITIALIZED, Some out), t) /\
      HMAP_set_data (Some null_obj) (Some key) (Some data) t
      = Ok (HMAP_STATUS_MAP_UNINITIALIZED, t) /\
      HMAP_remove_entry (Some null_obj) (Some key) t
      = Ok (HMAP_STATUS_MAP_UNINITIALIZED, t) /\
      HMAP_get_hash (Some null_obj) (Some data) (Some hash_out) t
      = Ok ((HMAP_STATUS_MAP_UNINITIALIZED, Some hash_out), t) /\
      HMAP_get_entry_count (Some null_obj) count t
      = Ok ((HMAP_STATUS_MAP_UNINITIALIZED, count), t) /\
      HMAP_get_size (Some null_obj) size t
      = Ok ((HMAP_STATUS_MAP_UNINITIALIZED, size), t) /\
      HMAP_key_in_map (Some null_obj) (Some key) t = Ok (HMAP_BOOL_FALSE, t).
Proof.
  apply (HMAP_destroy_leaves_uninitialized s_a obj1). exact s_a_reachable.
Defined.

(** ** The chains hold each key once, in its bucket, and are counted *)

Section Invariant.
Context `{Layout}.

Lemma wrap_zero : wrap 0 = 0.
Proof. unfold wrap. apply Z.mod_0_l. pose proof uint_range_16. lia. Qed.

Lemma bytes_app l1 l2 : bytes (l1 ++ l2) = bytes l1 + bytes l2.
Proof.
  induction l1 as [|b l1 IH]; [reflexivity|].
  unfold bytes in *. cbn [app foldr]. rewrite IH. lia.
Qed.

Lemma bytes_cons b l : bytes (b :: l) = blob_size b + bytes l.
Proof. reflexivity. Qed.

Lemma bytes_perm l1 l2 : l1 ≡ₚ l2 -> bytes l1 = bytes l2.
Proof. unfold bytes. induction 1; cbn [foldr]; lia. Qed.

Lemma sig_keys (l l' : list node) :
  map node_sig l' = map node_sig l -> map n_key l' = map n_key l.
Proof.
  revert l'. induction l as [|n l IH]; intros [|n' l'] Hsig; try discriminate;
    [reflexivity|].
  cbn [map] in *. injection Hsig as _ _ Hkey Hl. rewrite Hkey, (IH _ Hl). reflexivity.
Qed.

Lemma sig_placed hash len i (l l' : list node) :
  map node_sig l' = map node_sig l ->
  Forall (well_placed hash len i) l -> Forall (well_placed hash len i) l'.
Proof.
  revert l'. induction l as [|n l IH]; intros [|n' l'] Hsig Hall; try discriminate;
    [constructor|].
  cbn [map] in Hsig. injection Hsig as _ Hhash Hkey Hl.
  apply Forall_cons in Hall as [[Hn1 Hn2] Hall]. constructor; [|exact (IH _ Hl Hall)].
  unfold well_placed. rewrite Hhash, Hkey. split; assumption.
Qed.

Lemma sig_relinked b ch : map node_sig (relinked b ch) = map node_sig ch.
Proof. destruct ch; reflexivity. Qed.

Lemma data_relinked b ch : map n_data (relinked b ch) = map n_data ch.
Proof. destruct ch; reflexivity. Qed.

(** The part of the invariant that speaks of bucket [i] and the rest. *)
Lemma inv_focus hash m chains i ch :
  Inv hash m chains -> chains !! i = Some ch ->
  Forall (well_placed hash (m_buckets_len m) i) ch /\
  NoDup (map n_key (ch ++ others chains i)) /\
  m_entry_count m = wrap (Z.of_nat (length (ch ++ others chains i))) /\
  m_key_size m = wrap (bytes (map n_key (ch ++ others chains i))) /\
  m_data_size m = wrap (bytes (map n_data (ch ++ others chains i))).
Proof.
  intros HI Hi. pose proof (concat_others _ _ _ Hi) as Hperm.
  split; [exact (inv_placed _ _ _ HI _ _ Hi)|].
  split; [rewrite <- (Permutation_map n_key Hperm); exact (inv_keys _ _ _ HI)|].
  split; [rewrite <- (Permutation_length Hperm); exact (inv_count _ _ _ HI)|].
  split.
  - rewrite <- (bytes_perm _ _ (Permutation_map n_key Hperm)).
    exact (inv_key_size _ _ _ HI).
  - rewrite <- (bytes_perm _ _ (Permutation_map n_data Hperm)).
    exact (inv_data_size _ _ _ HI).
Qed.

Lemma inv_replace hash m m' chains i ch ch' :
  Inv hash m chains -> chains !! i = Some ch ->
  m_hash m' = m_hash m -> m_buckets_len m' = m_buckets_len m ->
  Forall (well_placed hash (m_buckets_len m) i) ch' ->
  NoDup (map n_key (ch' ++ others chains i)) ->
  m_entry_count m' = wrap (Z.of_nat (length (ch' ++ others chains i))) ->
  m_key_size m' = wrap (bytes (map n_key (ch' ++ others chains i))) ->
  m_data_size m' = wrap (bytes (map n_data (ch' ++ others chains i))) ->
  Inv hash m' (<[i := ch']> chains).
Proof.
  intros HI Hi Hh Hlen Hplaced Hnd Hcount Hks Hds.
  pose proof (concat_insert_others _ _ _ ch' Hi) as Hperm.
  constructor.
  - rewrite Hh. exact (inv_hash _ _ _ HI).
  - intros j chj Hj. rewrite Hlen. destruct (decide (j = i)) as [->|Hne].
    + rewrite list_lookup_insert_eq in Hj by (eapply lookup_lt_Some; exact Hi).
      injection Hj as <-. exact Hplaced.
    + rewrite list_lookup_insert_ne in Hj by congruence.
      exact (inv_placed _ _ _ HI _ _ Hj).
  - rewrite (Permutation_map n_key Hperm). exact Hnd.
  - rewrite (Permutation_length Hperm). exact Hcount.
  - rewrite (bytes_perm _ _ (Permutation_map n_key Hperm)). exact Hks.
  - rewrite (bytes_perm _ _ (Permutation_map n_data Hperm)). exact Hds.
Qed.

(** A fresh table. *)
Lemma inv_created def map hash n :
  Inv hash (created_map def map hash) (repeat [] n).
Proof.
  assert (Hconcat : concat (repeat ([] : list node) n) = [])
    by (induction n as [|k IH]; [reflexivity | exact IH]).
  constructor; rewrite ?Hconcat; cbn; rewrite ?wrap_zero; try reflexivity.
  - intros i ch Hi. apply list_elem_of_lookup_2, list_elem_of_In, repeat_spec in Hi.
    subst ch. constructor.
  - constructor.
Qed.

(** A value stored into an existing node. *)
Lemma inv_update hash m chains i pre n post s data :
  Inv hash m chains -> chains !! i = Some (pre ++ n :: post) ->
  a_size (e_data (n_entry n)) = blob_size (n_data n) ->
  Inv hash (updated_map m (n_entry n) data)
    (<[i := pre ++ updated_node s n data :: post]> chains).
Proof.
  intros HI Hi Hsize.
  destruct (inv_focus _ _ _ _ _ HI Hi) as (Hplaced & Hnd & Hcount & Hks & Hds).
  pose proof (updated_sig s pre n post data) as Hsig.
  assert (Hkeys : map n_key ((pre ++ updated_node s n data :: post) ++ others chains i)
                  = map n_key ((pre ++ n :: post) ++ others chains i))
    by (rewrite !map_app; reflexivity).
  apply (inv_replace hash m _ chains i (pre ++ n :: post)); try assumption.
  - unfold updated_map. destruct (_ =? _); reflexivity.
  - unfold updated_map. destruct (_ =? _); reflexivity.
  - exact (sig_placed _ _ _ _ _ Hsig Hplaced).
  - rewrite Hkeys. exact Hnd.
  - replace (m_entry_count (updated_map m (n_entry n) data)) with (m_entry_count m)
      by (unfold updated_map; destruct (_ =? _); reflexivity).
    rewrite Hcount. rewrite !length_app. reflexivity.
  - replace (m_key_size (updated_map m (n_entry n) data)) with (m_key_size m)
      by (unfold updated_map; destruct (_ =? _); reflexivity).
    rewrite Hkeys. exact Hks.
  - rewrite !map_app, !bytes_app in *. cbn [map] in *. rewrite !bytes_cons in *.
    change (n_data (updated_node s n data)) with data.
    unfold updated_map. rewrite Hsize.
    destruct (Z.eqb_spec (blob_size (n_data n)) (blob_size data)) as [Heq|Hne].
    + rewrite Hds, Heq. reflexivity.
    + cbn [set_m_totals m_data_size]. rewrite Hds, wrap_add_r, wrap_add_l.
      f_equal. lia.
Qed.

(** A new node at the head of its bucket. *)
Lemma inv_insert hash m chains i ch b key data :
  Inv hash m chains -> chains !! i = Some ch ->
  i = Z.to_nat (wrap (hash key) mod m_buckets_len m) ->
  key ∉ map n_key (concat chains) ->
  Inv hash (entry_added m key data)
    (<[i := inserted_node b hash key data ch :: relinked b ch]> chains).
Proof.
  intros HI Hi Hindex Hfresh.
  destruct (inv_focus _ _ _ _ _ HI Hi) as (Hplaced & Hnd & Hcount & Hks & Hds).
  rewrite (Permutation_map n_key (concat_others _ _ _ Hi)) in Hfresh.
  assert (Hkeys : map n_key (relinked b ch ++ others chains i)
                  = map n_key (ch ++ others chains i))
    by (rewrite !map_app, (sig_keys _ _ (sig_relinked b ch)); reflexivity).
  assert (Hdata : map n_data (relinked b ch ++ others chains i)
                  = map n_data (ch ++ others chains i))
    by (rewrite !map_app, data_relinked; reflexivity).
  assert (Hlen : length (relinked b ch ++ others chains i)
                 = length (ch ++ others chains i)).
  { apply (f_equal (@length _)) in Hdata. rewrite !length_map in Hdata. exact Hdata. }
  apply (inv_replace hash m _ chains i ch); try assumption; try reflexivity.
  - constructor.
    + split; [reflexivity | exact (eq_sym Hindex)].
    + exact (sig_placed _ _ _ _ _ (sig_relinked b ch) Hplaced).
  - cbn [app map]. change (n_key (inserted_node b hash key data ch)) with key.
    rewrite Hkeys. apply NoDup_cons. split; assumption.
  - cbn [entry_added set_m_totals m_entry_count app length].
    rewrite Hlen, Hcount, wrap_add_l. f_equal. lia.
  - cbn [entry_added set_m_totals m_key_size app map].
    change (n_key (inserted_node b hash key data ch)) with key.
    rewrite bytes_cons, Hkeys, Hks, wrap_add_l. f_equal. lia.
  - cbn [entry_added set_m_totals m_data_size app map].
    change (n_data (inserted_node b hash key data ch)) with data.
    rewrite bytes_cons, Hdata, Hds, wrap_add_l. f_equal. lia.
Qed.

(** A node taken out of its chain, the nodes around it relinked. *)
Lemma inv_remove hash m chains i l1 n l2 ch' :
  Inv hash m chains -> chains !! i = Some (l1 ++ n :: l2) ->
  map node_sig ch' = map node_sig (l1 ++ l2) ->
  map n_data ch' = map n_data (l1 ++ l2) ->
  a_size (e_key (n_entry n)) = blob_size (n_key n) ->
  a_size (e_data (n_entry n)) = blob_size (n_data n) ->
  Inv hash (entry_removed m (n_entry n)) (<[i := ch']> chains) /\
  n_key n ∉ map n_key (concat (<[i := ch']> chains)).
Proof.
  intros HI Hi Hsig Hdata Hksize Hdsize.
  destruct (inv_focus _ _ _ _ _ HI Hi) as (Hplaced & Hnd & Hcount & Hks & Hds).
  pose proof (sig_keys _ _ Hsig) as Hkeys.
  assert (Hlen : length ch' = length (l1 ++ l2)).
  { apply (f_equal (@length _)) in Hdata. rewrite !length_map in Hdata. exact Hdata. }
  assert (Hnd' : NoDup (n_key n :: map n_key ((l1 ++ l2) ++ others chains i))).
  { assert (Hperm : map n_key ((l1 ++ n :: l2) ++ others chains i)
                    ≡ₚ n_key n :: map n_key ((l1 ++ l2) ++ others chains i)).
    { rewrite <- !app_assoc. cbn [app]. rewrite !map_app. cbn [map].
      rewrite <- Permutation_middle, ?map_app. reflexivity. }
    rewrite <- Hperm. exact Hnd. }
  apply NoDup_cons in Hnd' as [Hfresh Hnd'].
  split.
  - apply (inv_replace hash m _ chains i (l1 ++ n :: l2)); try assumption;
      try reflexivity.
    + apply (sig_placed _ _ _ _ _ Hsig).
      apply Forall_app in Hplaced as [H1 H2]. apply Forall_cons in H2 as [_ H2].
      apply Forall_app. split; assumption.
    + rewrite map_app, Hkeys, <- map_app. exact Hnd'.
    + cbn [entry_removed set_m_totals m_entry_count].
      rewrite Hcount, wrap_sub_l. f_equal.
      rewrite !length_app, Hlen, !length_app. cbn [length]. lia.
    + cbn [entry_removed set_m_totals m_key_size].
      rewrite Hks, Hksize, wrap_sub_l. f_equal.
      rewrite !map_app, !bytes_app, Hkeys, !map_app, !bytes_app. cbn [map].
      rewrite !bytes_cons. lia.
    + cbn [entry_removed set_m_totals m_data_size].
      rewrite Hds, Hdsize, wrap_sub_l. f_equal.
      rewrite !map_app, !bytes_app, Hdata, !map_app, !bytes_app. cbn [map].
      rewrite !bytes_cons. lia.
  - rewrite (Permutation_map n_key (concat_insert_others _ _ _ ch' Hi)).
    rewrite map_app, Hkeys, <- map_app. exact Hfresh.
Qed.

End Invariant.

(** ** One call on a table that satisfies the invariants *)

Section Steps.
Context `{Layout}.

Lemma items_keys chains : map fst (items chains) = map n_key (concat chains).
Proof. unfold items. rewrite map_map. reflexivity. Qed.

Lemma node_items_eq (l l' : list node) :
  map n_key l' = map n_key l -> map n_data l' = map n_data l ->
  map node_item l' = map node_item l.
Proof.
  revert l'. induction l as [|n l IH]; intros [|n' l'] Hk Hd; try discriminate;
    [reflexivity|].
  cbn [map] in *. injection Hk as Hk1 Hk2. injection Hd as Hd1 Hd2.
  unfold node_item at 1 3. rewrite Hk1, Hd1, (IH _ Hk2 Hd2). reflexivity.
Qed.

Lemma items_insert chains i ch ch' :
  chains !! i = Some ch ->
  items (<[i := ch']> chains) ≡ₚ map node_item ch' ++ map node_item (others chains i).
Proof.
  intros Hi. unfold items.
  rewrite (Permutation_map node_item (concat_insert_others _ _ _ ch' Hi)), map_app.
  reflexivity.
Qed.

Lemma items_focus chains i ch :
  chains !! i = Some ch ->
  items chains ≡ₚ map node_item ch ++ map node_item (others chains i).
Proof.
  intros Hi. unfold items.
  rewrite (Permutation_map node_item (concat_others _ _ _ Hi)), map_app. reflexivity.
Qed.

Lemma elem_of_chains (chains : list (list node)) n :
  n ∈ concat chains -> exists i ch, chains !! i = Some ch /\ n ∈ ch.
Proof.
  intros Hn. apply list_elem_of_In, in_concat in Hn as (ch & Hch & Hn).
  apply list_elem_of_In, list_elem_of_lookup_1 in Hch as [i Hi].
  exists i, ch. split; [exact Hi | apply list_elem_of_In, Hn].
Qed.

(** A lookup that finds nothing: the key is in no chain. *)
Lemma search_absent s o m chains hash key :
  Rep s o m chains -> Inv hash m chains ->
  search m chains key hash = Ok HMAP_INVALID_POINTER ->
  key ∉ map n_key (concat chains).
Proof.
  intros HR HI Hsearch Hin.
  apply list_elem_of_In, in_map_iff in Hin as (n & Hkey & Hn).
  apply list_elem_of_In, elem_of_chains in Hn as (j & ch & Hj & Hn).
  pose proof (inv_placed _ _ _ HI _ _ Hj) as Hplaced.
  rewrite Forall_forall in Hplaced. destruct (Hplaced n Hn) as [Hhash Hindex].
  rewrite Hkey in Hhash, Hindex.
  destruct (rep_bucket _ _ _ _ _ _ HR Hj) as (_ & _ & Hnz & _).
  unfold search, bucket_of in Hsearch.
  destruct (m_buckets_len m =? 0); [discriminate|].
  rewrite Hindex, (list_lookup_total_correct _ _ _ Hj) in Hsearch.
  destruct (MAX_COLLISIONS <? _); [discriminate|]. injection Hsearch as Hsearch.
  assert (Hcand : In n (List.filter (same_hash (wrap (hash key))) ch)).
  { apply filter_In. split; [apply list_elem_of_In, Hn|].
    unfold same_hash. apply Z.eqb_eq, Hhash. }
  destruct (List.find _ _) as [n0|] eqn:Hfind.
  - apply find_some in Hfind as [Hin0 _]. apply filter_In in Hin0 as [Hin0 _].
    rewrite Forall_forall in Hnz. apply (Hnz n0); [apply list_elem_of_In, Hin0|].
    exact Hsearch.
  - pose proof (find_none _ _ Hfind n Hcand) as Hno. unfold same_key in Hno.
    rewrite bool_decide_eq_true_2 in Hno by exact Hkey. discriminate.
Qed.

(** [HMAP_set_data] that returns: the table holds [data] under [key] and
    the other keys as before; a key that was absent is counted. *)
Lemma set_step s o m chains hash key data status s' :
  Rep s o m chains -> Inv hash m chains ->
  HMAP_set_data (Some o) (Some key) (Some data) s = Ok (status, s') ->
  status = HMAP_STATUS_SUCCESS /\
  exists m' chains' rest,
    Rep s' o m' chains' /\ Inv hash m' chains' /\
    m_buckets_len m' = m_buckets_len m /\ extends s s' /\
    items chains' ≡ₚ (key, data) :: rest /\
    ((items chains ≡ₚ rest /\ m_entry_count m' = wrap (m_entry_count m + 1) /\
      m_size m' = wrap (m_size m + (blob_size data + blob_size key + sizeof_entry))) \/
     (exists old, items chains ≡ₚ (key, old) :: rest /\
                  m_entry_count m' = m_entry_count m /\
                  m_size m' = if blob_size old =? blob_size data then m_size m
                              else wrap (m_size m + (blob_size data - blob_size old)))).
Proof.
  intros HR HI Hrun. pose proof (inv_hash _ _ _ HI) as Hh.
  pose proof (rep_nonnull _ _ _ _ _ HR (ex_intro _ _ (rep_map _ _ _ _ HR))) as Ho.
  destruct (search m chains key hash) as [p|f] eqn:Hsearch.
  - destruct (decide (p = 0)) as [->|Hp].
    + pose proof (search_ok_buckets _ _ _ _ _ Hsearch) as Hnz.
      destruct (bucket_index_lt m chains (wrap (hash key)) (rep_len _ _ _ _ HR) Hnz)
        as [Hlt _].
      destruct (lookup_lt_is_Some_2 _ _ Hlt) as [ch Hch].
      destruct (HMAP_set_data_insert _ _ _ _ _ key data ch HR Hh Hsearch Hch)
        as (s'' & Hok & HR' & Hext).
      rewrite Hok in Hrun. injection Hrun as <- <-. split; [reflexivity|].
      eexists _, _, (items chains). split; [exact HR'|].
      split; [exact (inv_insert _ _ _ _ _ _ _ _ HI Hch eq_refl
                       (search_absent _ _ _ _ _ _ HR HI Hsearch))|].
      split; [reflexivity|]. split; [exact Hext|]. split.
      * rewrite (items_insert _ _ _ _ Hch), (items_focus _ _ _ Hch). cbn [map app].
        rewrite (node_items_eq _ _ (sig_keys _ _ (sig_relinked _ ch))
                   (data_relinked _ ch)).
        reflexivity.
      * left. split; [reflexivity|]. split; [reflexivity|].
        cbn [entry_added set_m_totals m_size]. rewrite wrap_add_r.
        replace (m_size m + (wrap (blob_size data + blob_size key) + sizeof_entry))
          with (m_size m + sizeof_entry + wrap (blob_size data + blob_size key)) by lia.
        rewrite wrap_add_r. f_equal. lia.
    + destruct (search_found _ _ _ _ _ Hsearch Hp (rep_len _ _ _ _ HR))
        as (pre & n & post & Hi & Hn & Hkey & _).
      subst p.
      destruct (rep_focus _ _ _ _ _ _ _ _ HR Hi) as ((_ & _ & _ & _ & Hds) & _ & _).
      destruct (HMAP_set_data_update _ _ _ _ _ key data _ pre n post HR Hh Hsearch Hi)
        as (s'' & Hok & HR' & Hext & _).
      rewrite Hok in Hrun. injection Hrun as <- <-. split; [reflexivity|].
      eexists _, _, (map node_item (pre ++ post) ++ map node_item (others chains _)).
      split; [exact HR'|].
      split; [exact (inv_update _ _ _ _ _ _ _ s data HI Hi Hds)|].
      split; [unfold updated_map; destruct (_ =? _); reflexivity|].
      split; [exact Hext|]. split.
      * rewrite (items_insert _ _ _ _ Hi), !map_app. cbn [map].
        change (node_item (updated_node s n data)) with (n_key n, data).
        rewrite Hkey, <- app_assoc. cbn [app].
        rewrite <- Permutation_middle, <- !app_assoc. reflexivity.
      * right. exists (n_data n). split.
        -- rewrite (items_focus _ _ _ Hi), !map_app. cbn [map].
           unfold node_item at 2. rewrite Hkey, <- app_assoc. cbn [app].
           rewrite <- Permutation_middle, <- !app_assoc. reflexivity.
        -- unfold updated_map. rewrite Hds.
           destruct (_ =? _); [split; reflexivity|].
           cbn [set_m_totals m_entry_count m_size]. rewrite wrap_add_r.
           split; reflexivity.
  - exfalso. unfold HMAP_set_data, HMAP_INVALID_POINTER in Hrun.
    destruct (Z.eqb_spec (o_data o) 0) as [|_]; [contradiction|].
    rewrite (bind_fault _ _ _ _ (lookup_fault _ _ _ _ _ _ _ HR Hh Hsearch)) in Hrun.
    discriminate.
Qed.

(** [HMAP_remove_entry] that returns: the key is gone, the other keys are
    as before; a key that was present is no longer counted. *)
Lemma remove_step s o m chains hash key status s' :
  Rep s o m chains -> Inv hash m chains ->
  HMAP_remove_entry (Some o) (Some key) s = Ok (status, s') ->
  status = HMAP_STATUS_SUCCESS /\
  exists m' chains',
    Rep s' o m' chains' /\ Inv hash m' chains' /\
    m_buckets_len m' = m_buckets_len m /\ extends s s' /\
    (key ∉ map fst (items chains')) /\
    ((s' = s /\ m' = m /\ chains' = chains) \/
     (exists old, items chains ≡ₚ (key, old) :: items chains' /\
                  m_entry_count m' = wrap (m_entry_count m - 1))).
Proof.
  intros HR HI Hrun. pose proof (inv_hash _ _ _ HI) as Hh.
  pose proof (rep_nonnull _ _ _ _ _ HR (ex_intro _ _ (rep_map _ _ _ _ HR))) as Ho.
  destruct (search m chains key hash) as [p|f] eqn:Hsearch.
  - destruct (decide (p = 0)) as [->|Hp].
    + rewrite (HMAP_remove_entry_absent _ _ _ _ _ _ HR Hh Hsearch) in Hrun.
      injection Hrun as <- <-. split; [reflexivity|].
      exists m, chains. split; [exact HR|]. split; [exact HI|].
      split; [reflexivity|]. split; [split; [lia | auto]|].
      split; [rewrite items_keys; exact (search_absent _ _ _ _ _ _ HR HI Hsearch)|].
      left. repeat split.
    + destruct (search_found _ _ _ _ _ Hsearch Hp (rep_len _ _ _ _ HR))
        as (pre & n & post & Hi & Hn & Hkey & Hhash).
      subst p.
      destruct (rep_focus _ _ _ _ _ _ _ _ HR Hi) as ((_ & _ & _ & Hks & Hds) & _ & _).
      destruct pre as [|x pre0 _] using rev_ind.
      * destruct (decide (e_previous (n_entry n) = HMAP_INVALID_POINTER)) as [Hprev|Hprev].
        -- destruct (HMAP_remove_entry_head _ _ _ _ _ _ _ _ HR Hh Hsearch Hi Hhash Hprev)
             as (s'' & Hok & HR' & Hext).
           rewrite Hok in Hrun. injection Hrun as <- <-. split; [reflexivity|].
           destruct (inv_remove _ _ _ _ [] n post post HI Hi eq_refl eq_refl Hks Hds)
             as [HI' Hgone].
           eexists _, _. split; [exact HR'|]. split; [exact HI'|].
           split; [reflexivity|]. split; [exact Hext|].
           split; [rewrite Hkey in Hgone; rewrite items_keys; exact Hgone|].
           right. exists (n_data n). split; [|reflexivity].
           rewrite (items_insert _ _ _ _ Hi), (items_focus _ _ _ Hi). cbn [app map].
           unfold node_item at 1. rewrite Hkey. reflexivity.
        -- rewrite (HMAP_remove_entry_stale_head _ _ _ _ _ _ _ _ _ HR Hh Hsearch Hi Hprev)
             in Hrun. discriminate.
      * assert (Hi' : chains !! Z.to_nat (wrap (hash key) mod m_buckets_len m)
                      = Some (pre0 ++ x :: n :: post))
          by (rewrite <- app_assoc in Hi; exact Hi).
        destruct (HMAP_remove_entry_middle _ _ _ _ _ _ _ _ _ _ _ HR Hh Hsearch Hi')
          as (s'' & Hok & HR' & Hext).
        rewrite Hok in Hrun. injection Hrun as <- <-. split; [reflexivity|].
        assert (Hsig : map node_sig (pre0 ++ with_next x (e_next (n_entry n))
                                       :: relinked (n_addr x) post)
                       = map node_sig ((pre0 ++ [x]) ++ post)).
        { rewrite <- app_assoc, !map_app. cbn [map app]. rewrite sig_relinked.
          reflexivity. }
        assert (Hdata : map n_data (pre0 ++ with_next x (e_next (n_entry n))
                                      :: relinked (n_addr x) post)
                        = map n_data ((pre0 ++ [x]) ++ post)).
        { rewrite <- app_assoc, !map_app. cbn [map app]. rewrite data_relinked.
          reflexivity. }
        destruct (inv_remove _ _ _ _ _ n post _ HI Hi Hsig Hdata Hks Hds)
          as [HI' Hgone].
        eexists _, _. split; [exact HR'|]. split; [exact HI'|].
        split; [reflexivity|]. split; [exact Hext|].
        split; [rewrite Hkey in Hgone; rewrite items_keys; exact Hgone|].
        right. exists (n_data n). split; [|reflexivity].
        rewrite (items_insert _ _ _ _ Hi), (items_focus _ _ _ Hi).
        rewrite (node_items_eq _ _ (sig_keys _ _ Hsig) Hdata).
        rewrite !map_app. cbn [map]. unfold node_item at 3. rewrite Hkey.
        set (A := map node_item pre0 ++ [node_item x]).
        rewrite <- !app_assoc. cbn [app]. symmetry.
        apply Permutation_cons_app. reflexivity.
  - exfalso. unfold HMAP_remove_entry, HMAP_INVALID_POINTER in Hrun.
    destruct (Z.eqb_spec (o_data o) 0) as [|_]; [contradiction|].
    rewrite (bind_fault _ _ _ _ (lookup_fault _ _ _ _ _ _ _ HR Hh Hsearch)) in Hrun.
    discriminate.
Qed.

(** Every table built from [def] satisfies the invariants, with the hash
    and the bucket count [def] asks for. *)
Lemma built_inv def s o :
  built def s o ->
  exists hash m chains,
    chosen_hash def = Some hash /\ m_buckets_len m = wrap (d_map_size def) /\
    Rep s o m chains /\ Inv hash m chains.
Proof.
  induction 1 as [s o0 o s' Hmem Hrun
                 | s o key data status s' _ (hash & m & chains & Hc & Hlen & HR & HI) Hrun
                 | s o key status s' _ (hash & m & chains & Hc & Hlen & HR & HI) Hrun].
  - destruct (HMAP_create_rep _ _ _ _ _ Hmem Hrun) as (hash & Hc & _ & HR).
    exists hash. eexists _, _. split; [exact Hc|]. split; [|split; [exact HR|]].
    + reflexivity.
    + apply inv_created.
  - destruct (set_step _ _ _ _ _ _ _ _ _ HR HI Hrun)
      as (_ & m' & chains' & _ & HR' & HI' & Hlen' & _).
    exists hash, m', chains'. split; [exact Hc|]. split; [congruence|].
    split; assumption.
  - destruct (remove_step _ _ _ _ _ _ _ _ HR HI Hrun)
      as (_ & m' & chains' & HR' & HI' & Hlen' & _).
    exists hash, m', chains'. split; [exact Hc|]. split; [congruence|].
    split; assumption.
Qed.

Lemma built_reachable def s o : built def s o -> reachable s o.
Proof.
  induction 1 as [s o0 o s' Hmem Hrun | s o key data status s' _ IH Hrun
                 | s o key status s' _ IH Hrun].
  - exact (reachable_create _ _ _ _ _ Hmem Hrun).
  - exact (reachable_set _ _ _ _ _ _ IH Hrun).
  - exact (reachable_remove _ _ _ _ _ IH Hrun).
Qed.

Lemma reachable_built s o : reachable s o -> exists def, built def s o.
Proof.
  induction 1 as [s def o0 o s' Hmem Hrun | s o key data status s' _ [def IH] Hrun
                 | s o key status s' _ [def IH] Hrun].
  - exists def. exact (built_create _ _ _ _ _ Hmem Hrun).
  - exists def. exact (built_set _ _ _ _ _ _ _ IH Hrun).
  - exists def. exact (built_remove _ _ _ _ _ _ IH Hrun).
Qed.

End Steps.

(** ** Walking a well-formed table *)

Section Walk.
Context `{Layout}.

Lemma chain_entries_spec (h : gmap Z block) (ch : list node) :
  forall fuel p,
    next_linked p ch -> Forall (node_ok h) ch -> h !! 0 = None ->
    (length ch <= fuel)%nat ->
    chain_entries fuel h p = map n_entry ch.
Proof.
  induction ch as [|n ch IH]; intros fuel p Hlink Hok Hnull Hfuel.
  - cbn in Hlink. subst p. destruct fuel; [reflexivity|].
    cbn [chain_entries]. unfold HMAP_INVALID_POINTER. rewrite Hnull. reflexivity.
  - destruct fuel as [|fuel]; [cbn in Hfuel; lia|].
    destruct Hlink as [-> Hlink]. apply Forall_cons in Hok as [(Ha & _) Hok].
    cbn [chain_entries map]. rewrite Ha. f_equal.
    apply IH; [exact Hlink | exact Hok | exact Hnull | cbn in Hfuel; lia].
Qed.

Lemma chain_blocks_spec (h : gmap Z block) (ch : list node) :
  forall fuel p,
    next_linked p ch -> Forall (node_ok h) ch -> h !! 0 = None ->
    (length ch <= fuel)%nat ->
    chain_blocks fuel h p = flat_map node_fp ch.
Proof.
  induction ch as [|n ch IH]; intros fuel p Hlink Hok Hnull Hfuel.
  - cbn in Hlink. subst p. destruct fuel; [reflexivity|].
    cbn [chain_blocks]. unfold HMAP_INVALID_POINTER. rewrite Hnull. reflexivity.
  - destruct fuel as [|fuel]; [cbn in Hfuel; lia|].
    destruct Hlink as [-> Hlink]. apply Forall_cons in Hok as [(Ha & _) Hok].
    cbn [chain_blocks flat_map]. rewrite Ha. unfold node_fp at 1. cbn [app].
    do 3 f_equal.
    apply IH; [exact Hlink | exact Hok | exact Hnull | cbn in Hfuel; lia].
Qed.

Lemma rep_null s o m chains : Rep s o m chains -> heap s !! 0 = None.
Proof.
  intros HR. destruct (heap s !! 0) as [b|] eqn:Hb; [|reflexivity].
  pose proof (rep_live _ _ _ _ HR 0 (ex_intro _ _ Hb)). lia.
Qed.

Lemma walk_chains {A} s o m chains (walk : addr -> list A) (spec : list node -> list A) :
  Rep s o m chains ->
  (forall ch, chain_ok s ch -> Forall (node_ok (heap s)) ch ->
              (length ch <= size (heap s))%nat -> walk (chain_head ch) = spec ch) ->
  flat_map walk (map chain_head chains) = flat_map spec chains.
Proof.
  intros HR Hwalk.
  assert (Hall : forall i ch, chains !! i = Some ch -> walk (chain_head ch) = spec ch).
  { intros i ch Hi. destruct (rep_bucket _ _ _ _ _ _ HR Hi) as (Hch & Hok & _ & Hlen).
    apply Hwalk; assumption. }
  clear Hwalk HR. induction chains as [|ch chains IH]; [reflexivity|].
  cbn [map flat_map]. rewrite (Hall 0%nat ch eq_refl). f_equal.
  apply IH. intros i ch' Hi. exact (Hall (S i) ch' Hi).
Qed.

Lemma flat_map_concat_map {A B} (f : A -> B) (ls : list (list A)) :
  flat_map (map f) ls = map f (concat ls).
Proof.
  induction ls as [|l ls IH]; [reflexivity|].
  cbn [flat_map concat]. rewrite map_app, IH. reflexivity.
Qed.

Lemma flat_map_concat {A B} (f : A -> list B) (ls : list (list A)) :
  flat_map (flat_map f) ls = flat_map f (concat ls).
Proof.
  induction ls as [|l ls IH]; [reflexivity|].
  cbn [flat_map concat]. rewrite flat_map_app, IH. reflexivity.
Qed.

(** The walk along the [next] links finds the entries of the chains. *)
Lemma table_entries_rep s o m chains :
  Rep s o m chains -> table_entries s o = map n_entry (concat chains).
Proof.
  intros HR. unfold table_entries.
  rewrite (rep_map _ _ _ _ HR), (rep_buckets _ _ _ _ HR).
  rewrite (walk_chains s o m chains _ (map n_entry) HR), flat_map_concat_map;
    [reflexivity|].
  intros ch [Hlink _] Hok Hlen.
  exact (chain_entries_spec _ _ _ _ Hlink Hok (rep_null _ _ _ _ HR) Hlen).
Qed.

Lemma table_blocks_rep s o m chains :
  Rep s o m chains -> table_blocks s o = table_fp o m chains.
Proof.
  intros HR. unfold table_blocks, table_fp.
  rewrite (rep_map _ _ _ _ HR), (rep_buckets _ _ _ _ HR).
  rewrite (walk_chains s o m chains _ (flat_map node_fp) HR), flat_map_concat;
    [reflexivity|].
  intros ch [Hlink _] Hok Hlen.
  exact (chain_blocks_spec _ _ _ _ Hlink Hok (rep_null _ _ _ _ HR) Hlen).
Qed.

Lemma table_items_rep s o m chains :
  Rep s o m chains -> table_items s o = items chains.
Proof.
  intros HR. unfold table_items, items. rewrite (table_entries_rep _ _ _ _ HR).
  rewrite map_map. pose proof (rep_nodes _ _ _ _ HR) as Hok.
  induction (concat chains) as [|n l IH]; [reflexivity|].
  apply Forall_cons in Hok as [(_ & Hk & Hd & _) Hok].
  cbn [map]. rewrite (IH Hok). f_equal.
  unfold entry_item, node_item. rewrite Hk, Hd. reflexivity.
Qed.

End Walk.

(** ** Lookups and the keys a table holds *)

Section LookupItems.
Context `{Layout}.

Lemma reachable_inv s o :
  reachable s o -> exists hash m chains, Rep s o m chains /\ Inv hash m chains.
Proof.
  intros Hreach. destruct (reachable_built _ _ Hreach) as [def Hbuilt].
  destruct (built_inv _ _ _ Hbuilt) as (hash & m & chains & _ & _ & HR & HI).
  eauto.
Qed.

Lemma items_functional (l : list (list byte * list byte)) k v v' :
  NoDup (map fst l) -> (k, v) ∈ l -> (k, v') ∈ l -> v = v'.
Proof.
  induction l as [|[k0 v0] l IH]; intros Hnd H1 H2.
  - apply elem_of_nil in H1. contradiction.
  - cbn [map fst] in Hnd. apply NoDup_cons in Hnd as [Hfresh Hnd].
    assert (Hin : forall w, (k0, w) ∈ l -> False).
    { intros w Hw. apply Hfresh. apply list_elem_of_In.
      apply list_elem_of_In in Hw. exact (in_map fst _ _ Hw). }
    apply elem_of_cons in H1 as [H1|H1], H2 as [H2|H2].
    + congruence.
    + injection H1 as -> ->. destruct (Hin _ H2).
    + injection H2 as -> ->. destruct (Hin _ H1).
    + exact (IH Hnd H1 H2).
Qed.

Lemma item_in_chain (chains : list (list node)) i pre n post :
  chains !! i = Some (pre ++ n :: post) -> node_item n ∈ items chains.
Proof.
  intros Hi. unfold items. apply list_elem_of_In, in_map, in_concat.
  exists (pre ++ n :: post). split; [|apply in_elt].
  apply list_elem_of_In. exact (list_elem_of_lookup_2 _ _ _ Hi).
Qed.

Lemma search_fault m chains key hash f :
  search m chains key hash = Fault f ->
  (f = DivisionByZero /\ m_buckets_len m = 0) \/
  (f = OutOfBounds /\ m_buckets_len m <> 0).
Proof.
  unfold search. destruct (Z.eqb_spec (m_buckets_len m) 0) as [Hz|Hnz].
  - intros [= <-]. left. split; [reflexivity | exact Hz].
  - destruct (MAX_COLLISIONS <? _); [|discriminate].
    intros [= <-]. right. split; [reflexivity | exact Hnz].
Qed.

(** A lookup that finds an entry: its key is the key looked up, and the
    table holds the entry's data under it. *)
Lemma search_present s o m chains hash key p :
  Rep s o m chains -> search m chains key hash = Ok p -> p <> 0 ->
  exists i pre n post,
    chains !! i = Some (pre ++ n :: post) /\ n_addr n = p /\ n_key n = key /\
    (key, n_data n) ∈ items chains.
Proof.
  intros HR Hsearch Hp.
  destruct (search_found _ _ _ _ _ Hsearch Hp (rep_len _ _ _ _ HR))
    as (pre & n & post & Hi & Hn & Hkey & _).
  eexists _, pre, n, post. split; [exact Hi|]. split; [exact Hn|].
  split; [exact Hkey|]. rewrite <- Hkey. exact (item_in_chain _ _ _ _ _ Hi).
Qed.

Lemma items_empty_buckets s o m chains :
  Rep s o m chains -> m_buckets_len m = 0 -> items chains = [].
Proof.
  intros HR Hz. pose proof (rep_len _ _ _ _ HR) as Hlen.
  destruct chains; [reflexivity | cbn in Hlen; lia].
Qed.

(** The entries with a given hash all sit in the bucket the hash selects. *)
Lemma filter_concat_bucket (P : node -> bool) (chains : list (list node)) :
  forall i,
    (forall j ch, chains !! j = Some ch -> Forall (fun n => P n = true -> j = i) ch) ->
    List.filter P (concat chains) = List.filter P (chains !!! i).
Proof.
  assert (Hnone : forall (ch : list node),
             Forall (fun n => P n = true -> False) ch -> List.filter P ch = []).
  { induction ch as [|n ch IH]; intros Hall; [reflexivity|].
    apply Forall_cons in Hall as [Hn Hall]. cbn [List.filter].
    destruct (P n) eqn:HP; [destruct (Hn eq_refl) | exact (IH Hall)]. }
  induction chains as [|ch chains IH]; intros i Hplaced; [reflexivity|].
  cbn [concat]. rewrite List.filter_app. destruct i as [|i].
  - rewrite (IH (length chains)).
    + rewrite list_lookup_total_alt, lookup_ge_None_2 by lia. cbn.
      rewrite app_nil_r. reflexivity.
    + intros j chj Hj. eapply Forall_impl; [exact (Hplaced (S j) chj Hj)|].
      cbn beta. intros n Hn HP. specialize (Hn HP). discriminate.
  - rewrite Hnone.
    + cbn [app]. rewrite (IH i); [reflexivity|].
      intros j chj Hj. eapply Forall_impl; [exact (Hplaced (S j) chj Hj)|].
      cbn beta. intros n Hn HP. specialize (Hn HP). lia.
    + eapply Forall_impl; [exact (Hplaced 0%nat ch eq_refl)|].
      cbn beta. intros n Hn HP. specialize (Hn HP). discriminate.
Qed.

Lemma candidates_all s o m chains hash key_hash :
  Rep s o m chains -> Inv hash m chains -> m_buckets_len m <> 0 ->
  List.filter (same_hash key_hash) (bucket_of m chains key_hash)
  = List.filter (same_hash key_hash) (concat chains).
Proof.
  intros HR HI Hnz. unfold bucket_of. symmetry. apply filter_concat_bucket.
  intros j ch Hj. eapply Forall_impl; [exact (inv_placed _ _ _ HI _ _ Hj)|].
  cbn beta. intros n [Hhash Hindex] Hsame. unfold same_hash in Hsame.
  apply Z.eqb_eq in Hsame. rewrite <- Hsame, Hhash. exact (eq_sym Hindex).
Qed.

Lemma filter_length_perm {A} (P : A -> bool) (l l' : list A) :
  l ≡ₚ l' -> length (List.filter P l) = length (List.filter P l').
Proof.
  induction 1 as [|x l l' _ IH|x y l|l1 l2 l3 _ IH1 _ IH2]; cbn [List.filter].
  - reflexivity.
  - destruct (P x); cbn [length]; congruence.
  - destruct (P x), (P y); reflexivity.
  - congruence.
Qed.

Lemma inv_hashes hash m chains :
  Inv hash m chains ->
  Forall (fun n => e_key_hash (n_entry n) = wrap (hash (n_key n))) (concat chains).
Proof.
  intros HI. apply Forall_forall. intros n Hn.
  apply elem_of_chains in Hn as (i & ch & Hi & Hn).
  pose proof (inv_placed _ _ _ HI _ _ Hi) as Hplaced.
  rewrite Forall_forall in Hplaced. exact (proj1 (Hplaced n Hn)).
Qed.

(** The candidates of a lookup, counted on the keys of the table. *)
Lemma candidates_keys s o m chains hash key_hash :
  Rep s o m chains -> Inv hash m chains -> m_buckets_len m <> 0 ->
  length (List.filter (same_hash key_hash) (bucket_of m chains key_hash))
  = length (List.filter (fun k => wrap (hash k) =? key_hash) (map fst (items chains))).
Proof.
  intros HR HI Hnz. rewrite (candidates_all _ _ _ _ _ _ HR HI Hnz), items_keys.
  pose proof (inv_hashes _ _ _ HI) as Hall.
  induction (concat chains) as [|n l IH]; [reflexivity|].
  apply Forall_cons in Hall as [Hn Hall]. cbn [map List.filter].
  unfold same_hash at 1. rewrite Hn.
  destruct (wrap (hash (n_key n)) =? key_hash); cbn [length]; rewrite (IH Hall);
    reflexivity.
Qed.

Lemma search_overrun_iff s o m chains hash key :
  Rep s o m chains -> Inv hash m chains -> m_buckets_len m <> 0 ->
  search m chains key hash = Fault OutOfBounds <->
  MAX_COLLISIONS
  < Z.of_nat (length (List.filter (fun k => wrap (hash k) =? wrap (hash key))
                        (map fst (items chains)))).
Proof.
  intros HR HI Hnz. rewrite <- (candidates_keys _ _ _ _ _ _ HR HI Hnz).
  unfold search. destruct (Z.eqb_spec (m_buckets_len m) 0) as [|_]; [contradiction|].
  destruct (Z.ltb_spec MAX_COLLISIONS
              (Z.of_nat (length (List.filter (same_hash (wrap (hash key)))
                                   (bucket_of m chains (wrap (hash key)))))))
    as [Hover|Hfits].
  - split; [intros _; exact Hover | reflexivity].
  - split; [discriminate | lia].
Qed.

End LookupItems.

(** ** The default hash and the byte loops, further *)

Section HashBytes.
Context `{Layout}.

Lemma hash_sdbm_fold (key : blob) : hash_sdbm key = fold_left sdbm_step key 0.
Proof.
  unfold hash_sdbm, blob_size. rewrite Nat2Z.id.
  apply (hash_sdbm_loop_fold [] key 0).
Qed.

Lemma uint_modulus_pos : 0 < 2 ^ uint_bits.
Proof. pose proof uint_range_16. lia. Qed.

Lemma sdbm_step_zero : sdbm_step 0 x00 = 0.
Proof.
  unfold sdbm_step. rewrite !Z.shiftl_0_l. change (byte_value x00) with 0.
  apply Z.mod_0_l. pose proof uint_modulus_pos. lia.
Qed.

Lemma fold_sdbm_zeros n : fold_left sdbm_step (repeat x00 n) 0 = 0.
Proof.
  induction n as [|n IH]; [reflexivity|].
  cbn [repeat fold_left]. rewrite sdbm_step_zero. exact IH.
Qed.

(** X1.  The comment in the source, [hash = ( hash * 65599 ) + byte]: one more
    byte at the end of the key multiplies the hash by 65599 and adds the
    byte, in [unsigned int]. *)
Theorem hash_sdbm_snoc (key : blob) (b : byte) :
  hash_sdbm (key ++ [b]) = wrap (hash_sdbm key * 65599 + byte_value b).
Proof.
  rewrite !hash_sdbm_fold, fold_left_app. cbn [fold_left].
  apply sdbm_step_65599.
Qed.

(** X2.  Zero bytes in front of a key do not change its hash: the keys
    [0^n ++ key] all collide with [key]. *)
Theorem hash_sdbm_leading_zeros (n : nat) (key : blob) :
  hash_sdbm (repeat x00 n ++ key) = hash_sdbm key.
Proof.
  rewrite !hash_sdbm_fold, fold_left_app, fold_sdbm_zeros. reflexivity.
Qed.

Lemma copy_anon_data_loop_short (done done' rest room : list byte) :
  length done = length done' -> (length room < length rest)%nat ->
  copy_anon_data_loop (length rest) (Z.of_nat (length done)) (done ++ room) (done' ++ rest)
  = Fault OutOfBounds.
Proof.
  revert done done' room.
  induction rest as [|b rest IH]; intros done done' room Hd Hr; [cbn in Hr; lia|].
  cbn [length copy_anon_data_loop].
  rewrite (array_load_ok (done' ++ b :: rest) (length done) b)
    by (rewrite Hd, lookup_app_r, Nat.sub_diag by lia; reflexivity).
  destruct room as [|r room].
  - rewrite array_store_out by (rewrite length_app; cbn; lia). reflexivity.
  - rewrite array_store_ok by (rewrite length_app; cbn; lia).
    rewrite insert_app_r_alt, Nat.sub_diag by lia. cbn [insert list_insert].
    replace (Z.of_nat (length done) + 1) with (Z.of_nat (length (done ++ [b])))
      by (rewrite length_app; cbn; lia).
    replace (done ++ b :: room) with ((done ++ [b]) ++ room)
      by (rewrite <- app_assoc; reflexivity).
    replace (done' ++ b :: rest) with ((done' ++ [b]) ++ rest)
      by (rewrite <- app_assoc; reflexivity).
    apply IH; [rewrite !length_app; cbn; lia | cbn in Hr; lia].
Qed.

Lemma copy_anon_data_short (destination source : list byte) :
  (length destination < length source)%nat ->
  copy_anon_data destination source (blob_size source) = Fault OutOfBounds.
Proof.
  intros Hl. unfold copy_anon_data, blob_size. rewrite Nat2Z.id.
  pose proof (copy_anon_data_loop_short [] [] source destination eq_refl Hl) as Hloop.
  cbn [app length] in Hloop. change (Z.of_nat 0) with 0 in Hloop.
  rewrite Hloop. reflexivity.
Qed.

(** X4.  [copy_anon_data] knows the size of the source only: it overwrites the
    first [source->size] bytes of the destination, leaves the bytes behind
    them, and reports the source's size; a destination with fewer bytes
    than the source is overrun. *)
Theorem copy_anon_data_outcome (destination source : list byte) :
  copy_anon_data destination source (blob_size source)
  = if (length source <=? length destination)%nat
    then Ok (source ++ drop (length source) destination, blob_size source)
    else Fault OutOfBounds.
Proof.
  destruct (Nat.leb_spec (length source) (length destination)) as [Hle|Hlt].
  - apply copy_anon_data_spec, Hle.
  - apply copy_anon_data_short, Hlt.
Qed.

(** X5.  [anon_data_match] on two blobs never faults and answers
    [HMAP_BOOL_TRUE] exactly when they are the same bytes. *)
Theorem anon_data_match_decides_equality (data_1 data_2 : list byte) :
  exists answer,
    anon_data_match data_1 (blob_size data_1) data_2 (blob_size data_2) = Ok answer /\
    (answer = HMAP_BOOL_TRUE <-> data_1 = data_2).
Proof.
  rewrite anon_data_match_spec. eexists. split; [reflexivity|].
  case_bool_decide; split; intros; congruence.
Qed.

End HashBytes.

(** ** The table as a finite map *)

Section Table.
Context `{Layout}.

Lemma key_of_item (l : list (list byte * list byte)) k v :
  (k, v) ∈ l -> k ∈ map fst l.
Proof.
  intros Hin. apply list_elem_of_In. apply list_elem_of_In in Hin.
  exact (in_map fst _ _ Hin).
Qed.

Lemma item_of_key (l : list (list byte * list byte)) k :
  k ∈ map fst l -> exists v, (k, v) ∈ l.
Proof.
  intros Hin. apply list_elem_of_In, in_map_iff in Hin as ([k' v] & Hk & Hin).
  cbn in Hk. subst k'. exists v. apply list_elem_of_In, Hin.
Qed.

(** What a lookup yields, in terms of the items of the chains. *)
Lemma search_items s o m chains hash key :
  Rep s o m chains -> Inv hash m chains ->
  (exists i pre n post,
     search m chains key hash = Ok (n_addr n) /\ n_addr n <> 0 /\
     chains !! i = Some (pre ++ n :: post) /\ n_key n = key /\
     (key, n_data n) ∈ items chains) \/
  (search m chains key hash = Ok HMAP_INVALID_POINTER /\ key ∉ map fst (items chains)) \/
  (search m chains key hash = Fault OutOfBounds /\ m_buckets_len m <> 0) \/
  (search m chains key hash = Fault DivisionByZero /\ items chains = []).
Proof.
  intros HR HI. destruct (search m chains key hash) as [p|f] eqn:Hsearch.
  - destruct (decide (p = 0)) as [->|Hp].
    + right. left. split; [reflexivity|]. rewrite items_keys.
      exact (search_absent _ _ _ _ _ _ HR HI Hsearch).
    + left. destruct (search_present _ _ _ _ _ _ _ HR Hsearch Hp)
        as (i & pre & n & post & Hi & Hn & Hkey & Hitem).
      subst p. exists i, pre, n, post. repeat split; assumption.
  - destruct (search_fault _ _ _ _ _ Hsearch) as [[-> Hz]|[-> Hnz]].
    + do 3 right. split; [reflexivity | exact (items_empty_buckets _ _ _ _ HR Hz)].
    + right. right. left. split; [reflexivity | exact Hnz].
Qed.

Lemma holds_value_items s o m chains hash key v :
  Rep s o m chains -> Inv hash m chains ->
  (key, v) ∈ items chains ->
  holds_value s o key v \/
  (forall out, HMAP_get_data (Some o) (Some key) (Some out) s = Fault OutOfBounds).
Proof.
  intros HR HI Hin. pose proof (inv_hash _ _ _ HI) as Hh.
  destruct (search_items s o m chains hash key HR HI)
    as [(i & pre & n & post & Hsearch & _ & Hi & _ & Hitem)
       |[[_ Habsent]|[[Hsearch _]|[_ Hempty]]]].
  - left. pose proof (inv_keys _ _ _ HI) as Hnd. rewrite <- items_keys in Hnd.
    rewrite (items_functional _ _ _ _ Hnd Hin Hitem).
    exact (node_holds_value _ _ _ _ _ _ _ _ _ _ HR Hh Hsearch Hi).
  - destruct (Habsent (key_of_item _ _ _ Hin)).
  - right. intros out. exact (HMAP_get_data_fault _ _ _ _ _ _ _ _ HR Hh Hsearch).
  - rewrite Hempty in Hin. apply elem_of_nil in Hin. contradiction.
Qed.

Lemma holds_value_fits s o m chains hash key v :
  Rep s o m chains -> Inv hash m chains ->
  (key, v) ∈ items chains ->
  Z.of_nat (length (List.filter (fun k => wrap (hash k) =? wrap (hash key))
                      (map fst (items chains)))) <= MAX_COLLISIONS ->
  holds_value s o key v.
Proof.
  intros HR HI Hin Hfits. pose proof (inv_hash _ _ _ HI) as Hh.
  destruct (search_items s o m chains hash key HR HI)
    as [(i & pre & n & post & Hsearch & _ & Hi & _ & Hitem)
       |[[_ Habsent]|[[Hsearch Hnz]|[_ Hempty]]]].
  - pose proof (inv_keys _ _ _ HI) as Hnd. rewrite <- items_keys in Hnd.
    rewrite (items_functional _ _ _ _ Hnd Hin Hitem).
    exact (node_holds_value _ _ _ _ _ _ _ _ _ _ HR Hh Hsearch Hi).
  - destruct (Habsent (key_of_item _ _ _ Hin)).
  - apply (search_overrun_iff _ _ _ _ _ _ HR HI Hnz) in Hsearch. lia.
  - rewrite Hempty in Hin. apply elem_of_nil in Hin. contradiction.
Qed.

(** X7.  The entry count [HMAP_get_entry_count] reports is the number of
    entries the buckets lead to (as an [unsigned int]), and no two of them
    hold the same key: on every table built through the interface. *)
Theorem entry_count_counts_entries s o :
  reachable s o ->
  NoDup (map fst (table_items s o)) /\
  entry_count s o (wrap (Z.of_nat (length (table_entries s o)))).
Proof.
  intros Hreach. destruct (reachable_inv _ _ Hreach) as (hash & m & chains & HR & HI).
  split.
  - rewrite (table_items_rep _ _ _ _ HR), items_keys. exact (inv_keys _ _ _ HI).
  - unfold entry_count. rewrite (HMAP_get_entry_count_rep _ _ _ _ _ HR).
    rewrite (inv_count _ _ _ HI), (table_entries_rep _ _ _ _ HR), length_map.
    reflexivity.
Qed.

(** X8.  The two byte totals of the map structure are the bytes of the keys
    and of the values of the entries the buckets lead to. *)
Theorem byte_totals_count_bytes s o :
  reachable s o ->
  exists m,
    heap s !! o_data o = Some (BMap m) /\
    m_key_size m = wrap (bytes (map fst (table_items s o))) /\
    m_data_size m = wrap (bytes (map snd (table_items s o))).
Proof.
  intros Hreach. destruct (reachable_inv _ _ Hreach) as (hash & m & chains & HR & HI).
  exists m. split; [exact (rep_map _ _ _ _ HR)|].
  rewrite (table_items_rep _ _ _ _ HR). unfold items. rewrite !map_map.
  split; [exact (inv_key_size _ _ _ HI) | exact (inv_data_size _ _ _ HI)].
Qed.

(** X9.  A value that [HMAP_get_data] yields for a key is the value of an
    entry of the table with that key. *)
Theorem HMAP_get_data_sound s o key v :
  reachable s o -> holds_value s o key v -> (key, v) ∈ table_items s o.
Proof.
  intros Hreach Hget. destruct (reachable_inv _ _ Hreach) as (hash & m & chains & HR & HI).
  destruct (holds_value_node _ _ _ _ _ _ _ HR (inv_hash _ _ _ HI) Hget)
    as (pre & n & post & Hi & _ & Hkey & Hdata).
  rewrite (table_items_rep _ _ _ _ HR), <- Hkey, <- Hdata.
  exact (item_in_chain _ _ _ _ _ Hi).
Qed.

(** X10.  Every entry of the table is found by [HMAP_get_data], unless the
    lookup overruns its candidate array. *)
Theorem HMAP_get_data_complete s o key v :
  reachable s o -> (key, v) ∈ table_items s o ->
  holds_value s o key v \/
  (forall out, HMAP_get_data (Some o) (Some key) (Some out) s = Fault OutOfBounds).
Proof.
  intros Hreach Hin. destruct (reachable_inv _ _ Hreach) as (hash & m & chains & HR & HI).
  rewrite (table_items_rep _ _ _ _ HR) in Hin.
  exact (holds_value_items _ _ _ _ _ _ _ HR HI Hin).
Qed.

(** X11.  When [HMAP_key_in_map] returns, it has left the memory alone and its
    answer says whether an entry of the table has the key. *)
Theorem HMAP_key_in_map_decides s o key answer s' :
  reachable s o ->
  HMAP_key_in_map (Some o) (Some key) s = Ok (answer, s') ->
  s' = s /\ (answer = HMAP_BOOL_TRUE <-> key ∈ map fst (table_items s o)).
Proof.
  intros Hreach Hrun. destruct (reachable_inv _ _ Hreach) as (hash & m & chains & HR & HI).
  rewrite (HMAP_key_in_map_rep _ _ _ _ _ key HR (inv_hash _ _ _ HI)) in Hrun.
  rewrite (table_items_rep _ _ _ _ HR).
  destruct (search_items s o m chains hash key HR HI)
    as [(i & pre & n & post & Hsearch & Hnz & _ & _ & Hitem)
       |[[Hsearch Habsent]|[[Hsearch _]|[Hsearch _]]]];
    rewrite Hsearch in Hrun; try discriminate.
  - destruct (Z.eqb_spec (n_addr n) 0) as [|_]; [contradiction|].
    injection Hrun as <- <-. split; [reflexivity|].
    split; [intros _; exact (key_of_item _ _ _ Hitem) | reflexivity].
  - cbn in Hrun. injection Hrun as <- <-. split; [reflexivity|].
    split; [discriminate | intros Hin; destruct (Habsent Hin)].
Qed.

(** X12.  When [HMAP_get_data] returns, the memory is as before and the status
    is [HMAP_STATUS_KEY_NOT_IN_MAP] if no entry has the key and
    [HMAP_STATUS_SUCCESS] otherwise. *)
Theorem HMAP_get_data_status s o key out status out' s' :
  reachable s o ->
  HMAP_get_data (Some o) (Some key) (Some out) s = Ok ((status, out'), s') ->
  s' = s /\
  status = (if bool_decide (key ∈ map fst (table_items s o))
            then HMAP_STATUS_SUCCESS else HMAP_STATUS_KEY_NOT_IN_MAP).
Proof.
  intros Hreach Hrun. destruct (reachable_inv _ _ Hreach) as (hash & m & chains & HR & HI).
  pose proof (inv_hash _ _ _ HI) as Hh.
  rewrite (table_items_rep _ _ _ _ HR).
  destruct (search_items s o m chains hash key HR HI)
    as [(i & pre & n & post & Hsearch & Hnz & Hi & _ & Hitem)
       |[[Hsearch Habsent]|[[Hsearch _]|[Hsearch _]]]].
  - rewrite (HMAP_get_data_found _ _ _ _ _ _ _ _ _ _ _ HR Hh Hsearch Hi) in Hrun.
    destruct (copy_anon_data _ _ _); [|discriminate]. injection Hrun as <- _ <-.
    split; [reflexivity|].
    rewrite bool_decide_eq_true_2 by exact (key_of_item _ _ _ Hitem). reflexivity.
  - rewrite (HMAP_get_data_absent _ _ _ _ _ _ _ HR Hh Hsearch) in Hrun.
    injection Hrun as <- _ <-. split; [reflexivity|].
    rewrite bool_decide_eq_false_2 by exact Habsent. reflexivity.
  - rewrite (HMAP_get_data_fault _ _ _ _ _ _ _ _ HR Hh Hsearch) in Hrun. discriminate.
  - rewrite (HMAP_get_data_fault _ _ _ _ _ _ _ _ HR Hh Hsearch) in Hrun. discriminate.
Qed.

(** X13.  [HMAP_set_data] that returns has succeeded; afterwards the table
    holds the given value under the given key, and under every other key
    what it held before. *)
Theorem HMAP_set_data_effect s o key data status s' :
  reachable s o ->
  HMAP_set_data (Some o) (Some key) (Some data) s = Ok (status, s') ->
  status = HMAP_STATUS_SUCCESS /\
  forall k v,
    (k, v) ∈ table_items s' o <->
    (k = key /\ v = data) \/ (k <> key /\ (k, v) ∈ table_items s o).
Proof.
  intros Hreach Hrun. destruct (reachable_inv _ _ Hreach) as (hash & m & chains & HR & HI).
  destruct (set_step _ _ _ _ _ _ _ _ _ HR HI Hrun)
    as (Hst & m' & chains' & rest & HR' & HI' & _ & _ & Hnew & Hold).
  split; [exact Hst|]. intros k v.
  rewrite (table_items_rep _ _ _ _ HR), (table_items_rep _ _ _ _ HR').
  pose proof (inv_keys _ _ _ HI') as Hnd. rewrite <- items_keys, Hnew in Hnd.
  cbn [map fst] in Hnd. apply NoDup_cons in Hnd as [Hfresh _].
  assert (Hrest : (k, v) ∈ rest -> k <> key).
  { intros Hin ->. exact (Hfresh (key_of_item _ _ _ Hin)). }
  rewrite Hnew, elem_of_cons.
  destruct Hold as [[Hold _]|(old & Hold & _)]; rewrite Hold, ?elem_of_cons.
  - split; [intros [[= -> ->]|Hin]; [tauto | right; split; [exact (Hrest Hin) | exact Hin]]
           | intros [[-> ->]|[_ Hin]]; [left; reflexivity | right; exact Hin]].
  - split.
    + intros [[= -> ->]|Hin]; [tauto|]. right. split; [exact (Hrest Hin) | tauto].
    + intros [[-> ->]|[Hne [[= -> _]|Hin]]]; [left; reflexivity | contradiction | tauto].
Qed.

(** X14.  [HMAP_remove_entry] that returns has succeeded; afterwards no entry
    has the key, and the table holds under every other key what it held
    before. *)
Theorem HMAP_remove_entry_effect s o key status s' :
  reachable s o ->
  HMAP_remove_entry (Some o) (Some key) s = Ok (status, s') ->
  status = HMAP_STATUS_SUCCESS /\
  forall k v,
    (k, v) ∈ table_items s' o <-> k <> key /\ (k, v) ∈ table_items s o.
Proof.
  intros Hreach Hrun. destruct (reachable_inv _ _ Hreach) as (hash & m & chains & HR & HI).
  destruct (remove_step _ _ _ _ _ _ _ _ HR HI Hrun)
    as (Hst & m' & chains' & HR' & HI' & _ & _ & Hgone & Hold).
  split; [exact Hst|]. intros k v.
  rewrite (table_items_rep _ _ _ _ HR), (table_items_rep _ _ _ _ HR').
  assert (Hrest : (k, v) ∈ items chains' -> k <> key).
  { intros Hin ->. exact (Hgone (key_of_item _ _ _ Hin)). }
  destruct Hold as [(_ & _ & ->)|(old & Hold & _)].
  - tauto.
  - rewrite Hold, elem_of_cons. split; [tauto|].
    intros [Hne [[= -> _]|Hin]]; [contradiction | exact Hin].
Qed.

(** X15.  After [HMAP_set_data] has returned, [HMAP_get_data] of the key yields
    the value just set, unless the lookup overruns its candidate array. *)
Theorem HMAP_set_then_get s o key data status s' :
  reachable s o ->
  HMAP_set_data (Some o) (Some key) (Some data) s = Ok (status, s') ->
  holds_value s' o key data \/
  (forall out, HMAP_get_data (Some o) (Some key) (Some out) s' = Fault OutOfBounds).
Proof.
  intros Hreach Hrun. destruct (reachable_inv _ _ Hreach) as (hash & m & chains & HR & HI).
  destruct (set_step _ _ _ _ _ _ _ _ _ HR HI Hrun)
    as (_ & m' & chains' & rest & HR' & HI' & _ & _ & Hnew & _).
  apply (holds_value_items _ _ _ _ _ _ _ HR' HI').
  rewrite Hnew. apply elem_of_cons. left. reflexivity.
Qed.

(** X16.  After [HMAP_remove_entry] has returned, [HMAP_key_in_map] of the key
    answers [HMAP_BOOL_FALSE]. *)
Theorem HMAP_remove_then_absent s o key status s' :
  reachable s o ->
  HMAP_remove_entry (Some o) (Some key) s = Ok (status, s') ->
  HMAP_key_in_map (Some o) (Some key) s' = Ok (HMAP_BOOL_FALSE, s').
Proof.
  intros Hreach Hrun. destruct (reachable_inv _ _ Hreach) as (hash & m & chains & HR & HI).
  pose proof (inv_hash _ _ _ HI) as Hh.
  destruct (remove_step _ _ _ _ _ _ _ _ HR HI Hrun)
    as (_ & m' & chains' & HR' & HI' & Hlen & _ & Hgone & Hold).
  rewrite (HMAP_key_in_map_rep _ _ _ _ _ key HR' (inv_hash _ _ _ HI')).
  assert (Hbefore : exists p, search m chains key hash = Ok p).
  { destruct (search m chains key hash) as [p|f] eqn:Hs; [eauto|].
    unfold HMAP_remove_entry, HMAP_INVALID_POINTER in Hrun.
    pose proof (rep_nonnull _ _ _ _ _ HR (ex_intro _ _ (rep_map _ _ _ _ HR))) as Ho.
    destruct (Z.eqb_spec (o_data o) 0) as [|_]; [contradiction|].
    rewrite (bind_fault _ _ _ _ (lookup_fault _ _ _ _ _ _ _ HR Hh Hs)) in Hrun.
    discriminate. }
  destruct Hbefore as [p0 Hbefore].
  pose proof (search_ok_buckets _ _ _ _ _ Hbefore) as Hnz.
  assert (Hnz' : m_buckets_len m' <> 0) by congruence.
  destruct (search m' chains' key hash) as [p|f] eqn:Hsearch.
  - destruct (decide (p = 0)) as [->|Hp]; [reflexivity|].
    destruct (search_present _ _ _ _ _ _ _ HR' Hsearch Hp)
      as (i & pre & n & post & _ & _ & _ & Hitem).
    destruct (Hgone (key_of_item _ _ _ Hitem)).
  - exfalso. destruct (search_fault _ _ _ _ _ Hsearch) as [[_ Hz]|[-> _]];
      [contradiction|].
    apply (search_overrun_iff _ _ _ _ _ _ HR' HI' Hnz') in Hsearch.
    assert (Hfits : ~ MAX_COLLISIONS
                      < Z.of_nat (length (List.filter
                                            (fun k => wrap (hash k) =? wrap (hash key))
                                            (map fst (items chains))))).
    { intros Hover. apply (search_overrun_iff _ _ _ _ _ _ HR HI Hnz) in Hover.
      congruence. }
    destruct Hold as [(_ & _ & ->)|(old & Hold & _)]; [contradiction|].
    rewrite (filter_length_perm _ _ _ (Permutation_map fst Hold)) in Hfits.
    cbn [map fst List.filter] in Hfits.
    destruct (wrap (hash key) =? wrap (hash key)); cbn [length] in Hfits; lia.
Qed.

(** X17.  A lookup overruns the candidate array of [get_entry_by_key] exactly
    when more than [MAX_COLLISIONS] keys of the table have the hash of the
    key looked up; every interface procedure that looks the key up then
    overruns it. *)
Theorem lookup_overruns_iff def s o hash key :
  built def s o -> chosen_hash def = Some hash -> wrap (d_map_size def) <> 0 ->
  (HMAP_key_in_map (Some o) (Some key) s = Fault OutOfBounds <->
   MAX_COLLISIONS
   < Z.of_nat (length (List.filter (fun k => wrap (hash k) =? wrap (hash key))
                         (map fst (table_items s o))))) /\
  (HMAP_key_in_map (Some o) (Some key) s = Fault OutOfBounds ->
   forall data out,
     HMAP_get_data (Some o) (Some key) (Some out) s = Fault OutOfBounds /\
     HMAP_set_data (Some o) (Some key) (Some data) s = Fault OutOfBounds /\
     HMAP_remove_entry (Some o) (Some key) s = Fault OutOfBounds).
Proof.
  intros Hbuilt Hchosen Hsize.
  destruct (built_inv _ _ _ Hbuilt) as (hash' & m & chains & Hc & Hlen & HR & HI).
  assert (hash' = hash) as -> by congruence.
  pose proof (inv_hash _ _ _ HI) as Hh.
  assert (Hnz : m_buckets_len m <> 0) by congruence.
  pose proof (rep_nonnull _ _ _ _ _ HR (ex_intro _ _ (rep_map _ _ _ _ HR))) as Ho.
  rewrite (table_items_rep _ _ _ _ HR).
  rewrite <- (search_overrun_iff _ _ _ _ _ key HR HI Hnz).
  rewrite (HMAP_key_in_map_rep _ _ _ _ _ key HR Hh).
  assert (Hiff : match search m chains key hash with
                 | Ok p => Ok (if p =? 0 then HMAP_BOOL_FALSE else HMAP_BOOL_TRUE, s)
                 | Fault f => Fault f
                 end = Fault OutOfBounds
                 <-> search m chains key hash = Fault OutOfBounds).
  { destruct (search m chains key hash); split; congruence. }
  split; [exact Hiff|]. intros Hover data out. apply Hiff in Hover.
  pose proof (lookup_fault _ _ _ _ _ _ _ HR Hh Hover) as Hlookup.
  split; [exact (HMAP_get_data_fault _ _ _ _ _ _ _ _ HR Hh Hover)|].
  unfold HMAP_set_data, HMAP_remove_entry, HMAP_INVALID_POINTER.
  destruct (Z.eqb_spec (o_data o) 0) as [|_]; [contradiction|].
  split; apply bind_fault; exact Hlookup.
Qed.

(** X18.  On a table built from a definition, a lookup divides by zero exactly
    when the definition asked for no bucket. *)
Theorem lookup_divides_by_zero_iff def s o key :
  built def s o ->
  HMAP_key_in_map (Some o) (Some key) s = Fault DivisionByZero <->
  wrap (d_map_size def) = 0.
Proof.
  intros Hbuilt.
  destruct (built_inv _ _ _ Hbuilt) as (hash & m & chains & Hc & Hlen & HR & HI).
  rewrite (HMAP_key_in_map_rep _ _ _ _ _ key HR (inv_hash _ _ _ HI)), <- Hlen.
  unfold search. destruct (Z.eqb_spec (m_buckets_len m) 0) as [Hz|Hnz].
  - split; [intros _; exact Hz | reflexivity].
  - split; [|contradiction]. destruct (MAX_COLLISIONS <? _); discriminate.
Qed.

(** X19.  [HMAP_get_hash] applies the hash function the definition chose, on
    every table built from it, and leaves the memory alone. *)
Theorem HMAP_get_hash_is_table_hash def s o :
  built def s o ->
  exists hash,
    chosen_hash def = Some hash /\
    forall data out,
      HMAP_get_hash (Some o) (Some data) (Some out) s
      = Ok ((HMAP_STATUS_SUCCESS, Some (wrap (hash data))), s).
Proof.
  intros Hbuilt.
  destruct (built_inv _ _ _ Hbuilt) as (hash & m & chains & Hc & Hlen & HR & HI).
  exists hash. split; [exact Hc|]. intros data out.
  pose proof (rep_nonnull _ _ _ _ _ HR (ex_intro _ _ (rep_map _ _ _ _ HR))) as Ho.
  unfold HMAP_get_hash, HMAP_INVALID_POINTER.
  destruct (Z.eqb_spec (o_data o) 0) as [|_]; [contradiction|].
  rewrite (bind_ok _ _ _ _ _ (load_map_ok _ _ _ (rep_map _ _ _ _ HR))).
  rewrite (bind_ok _ _ _ _ _ (call_hash_ok _ _ _ _ (inv_hash _ _ _ HI))).
  reflexivity.
Qed.

(** X20.  [HMAP_set_data] on a table built through the interface returns
    success, or its lookup divides by zero or overruns the candidate
    array: it never follows a dangling pointer and never walks a cycle. *)
Theorem HMAP_set_data_outcome s o key data :
  reachable s o ->
  (exists s', HMAP_set_data (Some o) (Some key) (Some data) s
              = Ok (HMAP_STATUS_SUCCESS, s')) \/
  HMAP_set_data (Some o) (Some key) (Some data) s = Fault DivisionByZero \/
  HMAP_set_data (Some o) (Some key) (Some data) s = Fault OutOfBounds.
Proof.
  intros Hreach. destruct (reachable_inv _ _ Hreach) as (hash & m & chains & HR & HI).
  pose proof (inv_hash _ _ _ HI) as Hh.
  pose proof (rep_nonnull _ _ _ _ _ HR (ex_intro _ _ (rep_map _ _ _ _ HR))) as Ho.
  destruct (search m chains key hash) as [p|f] eqn:Hsearch.
  - left. destruct (decide (p = 0)) as [->|Hp].
    + pose proof (search_ok_buckets _ _ _ _ _ Hsearch) as Hnz.
      destruct (bucket_index_lt m chains (wrap (hash key)) (rep_len _ _ _ _ HR) Hnz)
        as [Hlt _].
      destruct (lookup_lt_is_Some_2 _ _ Hlt) as [ch Hch].
      destruct (HMAP_set_data_insert _ _ _ _ _ key data ch HR Hh Hsearch Hch)
        as (s' & Hok & _).
      eauto.
    + destruct (search_found _ _ _ _ _ Hsearch Hp (rep_len _ _ _ _ HR))
        as (pre & n & post & Hi & Hn & _).
      subst p.
      destruct (HMAP_set_data_update _ _ _ _ _ key data _ pre n post HR Hh Hsearch Hi)
        as (s' & Hok & _).
      eauto.
  - right. pose proof (lookup_fault _ _ _ _ _ _ _ HR Hh Hsearch) as Hlookup.
    unfold HMAP_set_data, HMAP_INVALID_POINTER.
    destruct (Z.eqb_spec (o_data o) 0) as [|_]; [contradiction|].
    rewrite (bind_fault _ _ _ _ Hlookup).
    destruct (search_fault _ _ _ _ _ Hsearch) as [[-> _]|[-> _]]; tauto.
Qed.

(** X21.  [HMAP_remove_entry] on a table built through the interface returns
    success, or its lookup divides by zero or overruns the candidate
    array, or the entry found heads its bucket with a [previous] link to a
    block that is no longer live, which the removal then writes through. *)
Theorem HMAP_remove_entry_outcome s o key :
  reachable s o ->
  (exists s', HMAP_remove_entry (Some o) (Some key) s
              = Ok (HMAP_STATUS_SUCCESS, s')) \/
  HMAP_remove_entry (Some o) (Some key) s = Fault DivisionByZero \/
  HMAP_remove_entry (Some o) (Some key) s = Fault OutOfBounds \/
  (HMAP_remove_entry (Some o) (Some key) s = Fault InvalidPointer /\
   exists p e,
     key_storage s o key p e /\
     e_previous e <> HMAP_INVALID_POINTER /\ heap s !! e_previous e = None).
Proof.
  intros Hreach. destruct (reachable_inv _ _ Hreach) as (hash & m & chains & HR & HI).
  pose proof (inv_hash _ _ _ HI) as Hh.
  pose proof (rep_nonnull _ _ _ _ _ HR (ex_intro _ _ (rep_map _ _ _ _ HR))) as Ho.
  destruct (search m chains key hash) as [p|f] eqn:Hsearch.
  - destruct (decide (p = 0)) as [->|Hp].
    + left. exists s. exact (HMAP_remove_entry_absent _ _ _ _ _ _ HR Hh Hsearch).
    + destruct (search_found _ _ _ _ _ Hsearch Hp (rep_len _ _ _ _ HR))
        as (pre & n & post & Hi & Hn & Hkey & Hhash).
      subst p. destruct pre as [|x pre0 _] using rev_ind.
      * destruct (decide (e_previous (n_entry n) = HMAP_INVALID_POINTER)) as [Hprev|Hprev].
        -- left.
           destruct (HMAP_remove_entry_head _ _ _ _ _ _ _ _ HR Hh Hsearch Hi Hhash Hprev)
             as (s' & Hok & _).
           eauto.
        -- do 3 right.
           split; [exact (HMAP_remove_entry_stale_head _ _ _ _ _ _ _ _ _
                            HR Hh Hsearch Hi Hprev)|].
           exists (n_addr n), (n_entry n).
           split; [exact (node_key_storage _ _ _ _ _ _ _ _ _ _ HR Hh Hsearch Hi Hkey)|].
           split; [exact Hprev|].
           destruct (rep_bucket _ _ _ _ _ _ HR Hi) as ((_ & [Hnull|[Hnone _]] & _) & _);
             [contradiction | exact Hnone].
      * left. rewrite <- app_assoc in Hi. cbn [app] in Hi.
        destruct (HMAP_remove_entry_middle _ _ _ _ _ _ _ _ _ _ _ HR Hh Hsearch Hi)
          as (s' & Hok & _).
        eauto.
  - right. pose proof (lookup_fault _ _ _ _ _ _ _ HR Hh Hsearch) as Hlookup.
    unfold HMAP_remove_entry, HMAP_INVALID_POINTER.
    destruct (Z.eqb_spec (o_data o) 0) as [|_]; [contradiction|].
    rewrite (bind_fault _ _ _ _ Hlookup).
    destruct (search_fault _ _ _ _ _ Hsearch) as [[-> _]|[-> _]]; tauto.
Qed.

(** X22.  The blocks of a table are live and pairwise distinct: the map
    structure, the bucket array, and three blocks for every entry. *)
Theorem table_blocks_separate s o :
  reachable s o ->
  NoDup (table_blocks s o) /\
  (forall q, q ∈ table_blocks s o -> is_Some (heap s !! q)) /\
  length (table_blocks s o) = (2 + 3 * length (table_entries s o))%nat.
Proof.
  intros Hreach. destruct (reachable_rep _ _ Hreach) as (m & chains & HR).
  rewrite (table_blocks_rep _ _ _ _ HR), (table_entries_rep _ _ _ _ HR).
  unfold table_fp. split; [exact (rep_sep _ _ _ _ HR)|]. split.
  - intros q Hq. rewrite !elem_of_cons in Hq. destruct Hq as [->|[->|Hq]].
    + rewrite (rep_map _ _ _ _ HR). eauto.
    + rewrite (rep_buckets _ _ _ _ HR). eauto.
    + exact (nodes_live _ _ _ (rep_nodes _ _ _ _ HR) Hq).
  - cbn [length]. rewrite length_map. do 2 f_equal.
    induction (concat chains) as [|n l IH]; [reflexivity|].
    cbn [flat_map length app node_fp]. rewrite IH. lia.
Qed.

(** X23.  [HMAP_destroy] of a table built through the interface hands every
    block of the table to the free hook and touches no other block. *)
Theorem HMAP_destroy_frees_table s o :
  reachable s o ->
  exists s',
    HMAP_destroy (Some o) s = Ok ((HMAP_STATUS_SUCCESS, Some null_obj), s') /\
    brk s' = brk s /\
    (forall q, q ∈ table_blocks s o -> heap s' !! q = None) /\
    (forall q, q ∉ table_blocks s o -> heap s' !! q = heap s !! q).
Proof.
  intros Hreach. destruct (reachable_rep _ _ Hreach) as (m & chains & HR).
  destruct (HMAP_destroy_rep _ _ _ _ HR) as (s' & Hrun & Hbrk & Hfreed & Hframe).
  exists s'. rewrite (table_blocks_rep _ _ _ _ HR).
  split; [exact Hrun|]. split; [exact Hbrk|]. split; assumption.
Qed.

(** X24.  [HMAP_get_entry_count] and [HMAP_get_size] do not check their
    out-pointer: on an initialized table a null one is written through. *)
Theorem null_out_pointer_is_written s o :
  reachable s o ->
  HMAP_get_entry_count (Some o) None s = Fault InvalidPointer /\
  HMAP_get_size (Some o) None s = Fault InvalidPointer.
Proof.
  intros Hreach. destruct (reachable_rep _ _ Hreach) as (m & chains & HR).
  pose proof (rep_nonnull _ _ _ _ _ HR (ex_intro _ _ (rep_map _ _ _ _ HR))) as Ho.
  unfold HMAP_get_entry_count, HMAP_get_size, HMAP_INVALID_POINTER.
  destruct (Z.eqb_spec (o_data o) 0) as [|_]; [contradiction|].
  rewrite !(bind_ok _ _ _ _ _ (load_map_ok _ _ _ (rep_map _ _ _ _ HR))).
  split; reflexivity.
Qed.

(** X25.  [HMAP_get_data] copies the whole value whatever room the caller has:
    a buffer shorter than the stored value is overrun. *)
Theorem HMAP_get_data_overruns_short_buffer s o key v out :
  reachable s o -> holds_value s o key v ->
  (length (out_storage out) < length v)%nat ->
  HMAP_get_data (Some o) (Some key) (Some out) s = Fault OutOfBounds.
Proof.
  intros Hreach Hget Hshort.
  destruct (reachable_rep _ _ Hreach) as (m & chains & HR).
  destruct (rep_hash _ _ _ _ HR) as [hash Hh].
  destruct (holds_value_node _ _ _ _ _ _ _ HR Hh Hget)
    as (pre & n & post & Hi & Hsearch & _ & Hdata).
  rewrite (HMAP_get_data_found _ _ _ _ _ _ _ _ _ _ _ HR Hh Hsearch Hi), Hdata.
  rewrite (copy_anon_data_short _ _ Hshort). reflexivity.
Qed.

(** X6.  The observers never change the memory, whatever they are given and
    whatever they return. *)
Theorem observers_leave_memory obj key data count size hash_out :
  readonly (HMAP_get_data obj key data) /\
  readonly (HMAP_key_in_map obj key) /\
  readonly (HMAP_get_entry_count obj count) /\
  readonly (HMAP_get_size obj size) /\
  readonly (HMAP_get_hash obj key hash_out).
Proof.
  split; [apply HMAP_get_data_readonly|].
  split; [apply HMAP_key_in_map_readonly|].
  split; [apply HMAP_get_entry_count_readonly|].
  split; [apply HMAP_get_size_readonly | apply HMAP_get_hash_readonly].
Qed.

End Table.

(** ** Counting entries and bytes *)

Section Accounting.
Context `{Layout}.

(** X26.  [HMAP_set_data] that returns: a new key is counted and the total
    size grows by the bytes of key and value and the size of an entry
    structure; for a key already stored the count stays and the total size
    follows the length of the value (all in [unsigned int]). *)
Theorem HMAP_set_data_accounting s o key data count total status s' :
  reachable s o -> entry_count s o count -> total_size s o total ->
  HMAP_set_data (Some o) (Some key) (Some data) s = Ok (status, s') ->
  (key ∉ map fst (table_items s o) ->
   entry_count s' o (wrap (count + 1)) /\
   total_size s' o (wrap (total + (blob_size data + blob_size key + sizeof_entry)))) /\
  (forall old, (key, old) ∈ table_items s o ->
   entry_count s' o count /\
   total_size s' o (if blob_size old =? blob_size data then total
                    else wrap (total + (blob_size data - blob_size old)))).
Proof.
  intros Hreach Hcount Htotal Hrun.
  destruct (reachable_inv _ _ Hreach) as (hash & m & chains & HR & HI).
  unfold entry_count in Hcount. rewrite (HMAP_get_entry_count_rep _ _ _ _ _ HR) in Hcount.
  injection Hcount as <-.
  unfold total_size in Htotal. rewrite (HMAP_get_size_rep _ _ _ _ _ HR) in Htotal.
  injection Htotal as <-.
  destruct (set_step _ _ _ _ _ _ _ _ _ HR HI Hrun)
    as (_ & m' & chains' & rest & HR' & HI' & _ & _ & Hnew & Hold).
  rewrite (table_items_rep _ _ _ _ HR).
  pose proof (inv_keys _ _ _ HI) as Hnd. rewrite <- items_keys in Hnd.
  pose proof (inv_keys _ _ _ HI') as Hnd'. rewrite <- items_keys, Hnew in Hnd'.
  cbn [map fst] in Hnd'. apply NoDup_cons in Hnd' as [Hfresh _].
  unfold entry_count, total_size.
  rewrite (HMAP_get_entry_count_rep _ _ _ _ _ HR'), (HMAP_get_size_rep _ _ _ _ _ HR').
  destruct Hold as [(Hold & Hc & Hs)|(old0 & Hold & Hc & Hs)].
  - split.
    + intros _. rewrite Hc, Hs. split; reflexivity.
    + intros old Hin. rewrite Hold in Hin. destruct (Hfresh (key_of_item _ _ _ Hin)).
  - split.
    + intros Habsent. exfalso. apply Habsent. rewrite Hold. cbn [map fst].
      apply elem_of_cons. left. reflexivity.
    + intros old Hin.
      assert (old = old0) as ->.
      { apply (items_functional _ key _ _ Hnd Hin). rewrite Hold.
        apply elem_of_cons. left. reflexivity. }
      rewrite Hc, Hs. split; reflexivity.
Qed.

(** X27.  [HMAP_remove_entry] that returns: a key that was stored is no longer
    counted; for a key that was not, the memory is as before. *)
Theorem HMAP_remove_entry_accounting s o key count status s' :
  reachable s o -> entry_count s o count ->
  HMAP_remove_entry (Some o) (Some key) s = Ok (status, s') ->
  (key ∈ map fst (table_items s o) -> entry_count s' o (wrap (count - 1))) /\
  (key ∉ map fst (table_items s o) -> s' = s).
Proof.
  intros Hreach Hcount Hrun.
  destruct (reachable_inv _ _ Hreach) as (hash & m & chains & HR & HI).
  unfold entry_count in Hcount. rewrite (HMAP_get_entry_count_rep _ _ _ _ _ HR) in Hcount.
  injection Hcount as <-.
  destruct (remove_step _ _ _ _ _ _ _ _ HR HI Hrun)
    as (_ & m' & chains' & HR' & HI' & _ & _ & Hgone & Hold).
  rewrite (table_items_rep _ _ _ _ HR).
  destruct Hold as [(-> & -> & ->)|(old & Hold & Hc)].
  - split; [intros Hin; destruct (Hgone Hin) | reflexivity].
  - split.
    + intros _. unfold entry_count.
      rewrite (HMAP_get_entry_count_rep _ _ _ _ _ HR'), Hc. reflexivity.
    + intros Habsent. exfalso. apply Habsent. rewrite Hold. cbn [map fst].
      apply elem_of_cons. left. reflexivity.
Qed.

(** X28.  On a fresh table with at least one bucket every key and value, the
    empty ones included, make the round trip, and the entry is counted. *)
Theorem fresh_table_round_trip def o0 s o s1 key data :
  mem_ok s ->
  HMAP_create (Some def) (Some o0) s = Ok ((HMAP_STATUS_SUCCESS, Some o), s1) ->
  wrap (d_map_size def) <> 0 ->
  exists s2,
    HMAP_set_data (Some o) (Some key) (Some data) s1 = Ok (HMAP_STATUS_SUCCESS, s2) /\
    holds_value s2 o key data /\
    entry_count s2 o 1 /\
    table_items s2 o = [(key, data)].
Proof.
  intros Hmem Hcreate Hsize.
  destruct (HMAP_create_rep _ _ _ _ _ Hmem Hcreate) as (hash & Hc & _ & HR).
  pose proof (inv_created def (brk s) hash (Z.to_nat (wrap (d_map_size def)))) as HI.
  set (m := created_map def (brk s) hash) in *.
  set (chains := repeat [] (Z.to_nat (wrap (d_map_size def)))) in *.
  assert (Hnz : m_buckets_len m <> 0) by exact Hsize.
  assert (Hempty : items chains = []).
  { unfold items, chains. clear.
    induction (Z.to_nat (wrap (d_map_size def))) as [|k IH]; [reflexivity | exact IH]. }
  assert (Hsearch : search m chains key hash = Ok HMAP_INVALID_POINTER).
  { destruct (search_items s1 o m chains hash key HR HI)
      as [(i & pre & n & post & _ & _ & _ & _ & Hitem)
         |[[Hsearch _]|[[Hsearch _]|[Hsearch _]]]].
    - rewrite Hempty in Hitem. apply elem_of_nil in Hitem. contradiction.
    - exact Hsearch.
    - apply (search_overrun_iff _ _ _ _ _ _ HR HI Hnz) in Hsearch.
      rewrite Hempty in Hsearch. cbn in Hsearch. unfold MAX_COLLISIONS in Hsearch. lia.
    - destruct (search_fault _ _ _ _ _ Hsearch) as [[_ Hz]|[Hf _]];
        [contradiction | discriminate]. }
  destruct (bucket_index_lt m chains (wrap (hash key)) (rep_len _ _ _ _ HR) Hnz)
    as [Hlt _].
  destruct (lookup_lt_is_Some_2 _ _ Hlt) as [ch Hch].
  destruct (HMAP_set_data_insert _ _ _ _ _ key data ch HR (inv_hash _ _ _ HI) Hsearch Hch)
    as (s2 & Hrun & _).
  exists s2. split; [exact Hrun|].
  destruct (set_step _ _ _ _ _ _ _ _ _ HR HI Hrun)
    as (_ & m' & chains' & rest & HR' & HI' & Hlen' & _ & Hnew & Hold).
  assert (Hrest : rest = []).
  { destruct Hold as [(Hold & _)|(old & Hold & _)]; rewrite Hempty in Hold.
    - exact (Permutation_nil Hold).
    - destruct (Permutation_nil_cons Hold). }
  subst rest.
  assert (Hitems : items chains' = [(key, data)]).
  { symmetry in Hnew. exact (Permutation_length_1_inv Hnew). }
  assert (Hnz' : m_buckets_len m' <> 0) by congruence.
  split; [|split].
  - apply (holds_value_fits _ _ _ _ _ _ _ HR' HI').
    + rewrite Hitems. apply elem_of_cons. left. reflexivity.
    + rewrite Hitems. cbn [map fst List.filter]. unfold MAX_COLLISIONS.
      destruct (_ =? _); cbn [length]; lia.
  - unfold entry_count.
    rewrite (HMAP_get_entry_count_rep _ _ _ _ _ HR'), (inv_count _ _ _ HI').
    replace (length (concat chains')) with (length (items chains'))
      by (unfold items; apply length_map).
    rewrite Hitems. cbn [length]. rewrite wrap_small by lia. reflexivity.
  - rewrite (table_items_rep _ _ _ _ HR'). exact Hitems.
Qed.

End Accounting.

Section CreateLeak.
Context `{Layout}.

(** X29.  [HMAP_create] allocates the map structure and the bucket array before
    it looks at the hash type: a definition that selects the custom hash
    without giving a function is refused with both blocks left allocated
    and the handle cleared, so that nothing can free them. *)
Theorem HMAP_create_invalid_def_leaks def o0 s :
  mem_ok s -> is_Some (d_malloc def) -> is_Some (d_free def) ->
  d_hash_type def = HMAP_HASH_FUNC_CUSTOM -> d_hash def = None ->
  exists s',
    HMAP_create (Some def) (Some o0) s
    = Ok ((HMAP_STATUS_INVALID_DEF, Some null_obj), s') /\
    heap s !! brk s = None /\ heap s !! (brk s + 1) = None /\
    is_Some (heap s' !! brk s) /\ is_Some (heap s' !! (brk s + 1)) /\
    (forall p, p <> brk s -> p <> brk s + 1 -> heap s' !! p = heap s !! p).
Proof.
  intros [Hbrk Hlive] [fm Hm] [ff Hf] Htype Hhash.
  assert (Hfresh : forall p, brk s <= p -> heap s !! p = None).
  { intros p Hp. destruct (heap s !! p) as [b|] eqn:Hb; [|reflexivity].
    pose proof (Hlive p (ex_intro _ _ Hb)). lia. }
  unfold HMAP_create. rewrite Hm, Hf. exec.
  pose proof (HMAP_create_loop_spec [] (repeat 0 (Z.to_nat (wrap (d_map_size def)))))
    as Hloop.
  cbn [app length] in Hloop. change (Z.of_nat 0) with 0 in Hloop.
  rewrite repeat_length in Hloop. rewrite Hloop. exec.
  rewrite Htype, Z.eqb_refl, Hhash. eexists. split; [reflexivity|].
  split; [apply Hfresh; lia|]. split; [apply Hfresh; lia|].
  cbn [heap]. split; [|split].
  - heap_simpl. eauto.
  - heap_simpl. eauto.
  - intros p Hp1 Hp2. heap_simpl. reflexivity.
Qed.

End CreateLeak.

Section Arguments.
Context `{Layout}.

(** X30.  Every procedure checks its pointer arguments before it looks at the
    handle: with a null [obj], [key], [data] or [hash] argument it returns
    [HMAP_STATUS_INVALID_ARG] ([HMAP_BOOL_FALSE] for [HMAP_key_in_map]),
    whatever the other arguments are, and leaves the memory and the
    out-arguments alone.  In [HMAP_get_entry_count], [HMAP_get_size] and
    [HMAP_destroy] the handle is the only argument checked. *)
Theorem null_arguments_are_rejected obj key out data hash_out count s :
  (obj = None \/ key = None \/ out = None ->
   HMAP_get_data obj key out s = Ok ((HMAP_STATUS_INVALID_ARG, out), s)) /\
  (obj = None \/ key = None \/ data = None ->
   HMAP_set_data obj key data s = Ok (HMAP_STATUS_INVALID_ARG, s)) /\
  (obj = None \/ key = None ->
   HMAP_remove_entry obj key s = Ok (HMAP_STATUS_INVALID_ARG, s)) /\
  (obj = None \/ key = None ->
   HMAP_key_in_map obj key s = Ok (HMAP_BOOL_FALSE, s)) /\
  (obj = None \/ data = None \/ hash_out = None ->
   HMAP_get_hash obj data hash_out s = Ok ((HMAP_STATUS_INVALID_ARG, hash_out), s)) /\
  HMAP_get_entry_count None count s = Ok ((HMAP_STATUS_INVALID_ARG, count), s) /\
  HMAP_get_size None count s = Ok ((HMAP_STATUS_INVALID_ARG, count), s) /\
  HMAP_destroy None s = Ok ((HMAP_STATUS_INVALID_ARG, None), s).
Proof.
  split; [|split; [|split; [|split; [|split]]]].
  - intros [-> | [-> | ->]]; [|destruct obj|destruct obj, key]; reflexivity.
  - intros [-> | [-> | ->]]; [|destruct obj|destruct obj, key]; reflexivity.
  - intros [-> | ->]; [|destruct obj]; reflexivity.
  - intros [-> | ->]; [|destruct obj]; reflexivity.
  - intros [-> | [-> | ->]]; [|destruct obj|destruct obj, data]; reflexivity.
  - repeat split.
Qed.

End Arguments.

(** ** The theorems at work on the table that holds "a" *)

Lemma s_created_built : built (def_sdbm 8) s_created obj1.
Proof.
  apply (built_create (def_sdbm 8) mem_init null_obj obj1 s_created mem_ok_init).
  apply (run_eq (HMAP_create (Some (def_sdbm 8)) (Some null_obj) mem_init)).
  vm_compute. reflexivity.
Qed.

Lemma s_a_built : built (def_sdbm 8) s_a obj1.
Proof.
  apply (built_set (def_sdbm 8) s_created obj1 key_a ["1"%byte] HMAP_STATUS_SUCCESS s_a
           s_created_built).
  apply (run_eq (HMAP_set_data (Some obj1) (Some key_a) (Some ["1"%byte]) s_created)).
  vm_compute. reflexivity.
Qed.

Lemma s_a_holds : holds_value s_a obj1 key_a ["1"%byte].
Proof.
  apply (readonly_run _ _ _ (HMAP_get_data_readonly _ _ _)). vm_compute. reflexivity.
Qed.

Lemma s_a_count : entry_count s_a obj1 1.
Proof.
  apply (readonly_run _ _ _ (HMAP_get_entry_count_readonly _ _)). vm_compute.
  reflexivity.
Qed.

Lemma s_a_total : total_size s_a obj1 186.
Proof.
  apply (readonly_run _ _ _ (HMAP_get_size_readonly _ _)). vm_compute. reflexivity.
Qed.

Lemma s_a_item : (key_a, ["1"%byte]) ∈ table_items s_a obj1.
Proof. apply list_elem_of_In. vm_compute. left. reflexivity. Qed.

Lemma s_a_set_longer :
  HMAP_set_data (Some obj1) (Some key_a) (Some ["2"%byte; "2"%byte]) s_a
  = Ok (HMAP_STATUS_SUCCESS, s_a_longer).
Proof.
  apply (run_eq (HMAP_set_data (Some obj1) (Some key_a) (Some ["2"%byte; "2"%byte]) s_a)).
  vm_compute. reflexivity.
Qed.

Lemma s_a_remove :
  HMAP_remove_entry (Some obj1) (Some key_a) s_a = Ok (HMAP_STATUS_SUCCESS, s_a_removed).
Proof.
  apply (run_eq (HMAP_remove_entry (Some obj1) (Some key_a) s_a)).
  vm_compute. reflexivity.
Qed.

Lemma entry_count_counts_entries_witness :
  NoDup (map fst (table_items s_a obj1)) /\
  entry_count s_a obj1 (wrap (Z.of_nat (length (table_entries s_a obj1)))).
Proof. exact (entry_count_counts_entries s_a obj1 s_a_reachable). Defined.

Lemma byte_totals_count_bytes_witness :
  exists m,
    heap s_a !! o_data obj1 = Some (BMap m) /\
    m_key_size m = wrap (bytes (map fst (table_items s_a obj1))) /\
    m_data_size m = wrap (bytes (map snd (table_items s_a obj1))).
Proof. exact (byte_totals_count_bytes s_a obj1 s_a_reachable). Defined.

Lemma HMAP_get_data_sound_witness : (key_a, ["1"%byte]) ∈ table_items s_a obj1.
Proof.
  exact (HMAP_get_data_sound s_a obj1 key_a ["1"%byte] s_a_reachable s_a_holds).
Defined.

Lemma HMAP_get_data_complete_witness :
  holds_value s_a obj1 key_a ["1"%byte] \/
  (forall out, HMAP_get_data (Some obj1) (Some key_a) (Some out) s_a = Fault OutOfBounds).
Proof.
  exact (HMAP_get_data_complete s_a obj1 key_a ["1"%byte] s_a_reachable s_a_item).
Defined.

Lemma HMAP_key_in_map_decides_witness :
  s_a = s_a /\ (HMAP_BOOL_TRUE = HMAP_BOOL_TRUE <-> key_a ∈ map fst (table_items s_a obj1)).
Proof.
  apply (HMAP_key_in_map_decides s_a obj1 key_a HMAP_BOOL_TRUE s_a s_a_reachable).
  apply (readonly_run _ _ _ (HMAP_key_in_map_readonly _ _)). vm_compute. reflexivity.
Defined.

Lemma HMAP_get_data_status_witness :
  s_a = s_a /\
  HMAP_STATUS_SUCCESS
  = (if bool_decide (key_a ∈ map fst (table_items s_a obj1))
     then HMAP_STATUS_SUCCESS else HMAP_STATUS_KEY_NOT_IN_MAP).
Proof.
  apply (HMAP_get_data_status s_a obj1 key_a (buffer 1) HMAP_STATUS_SUCCESS
           (Some {| out_storage := ["1"%byte]; out_size := 1 |}) s_a s_a_reachable).
  exact s_a_holds.
Defined.

Lemma HMAP_set_data_effect_witness :
  HMAP_STATUS_SUCCESS = HMAP_STATUS_SUCCESS /\
  forall k v,
    (k, v) ∈ table_items s_a_longer obj1 <->
    (k = key_a /\ v = ["2"%byte; "2"%byte]) \/
    (k <> key_a /\ (k, v) ∈ table_items s_a obj1).
Proof.
  exact (HMAP_set_data_effect s_a obj1 key_a ["2"%byte; "2"%byte] HMAP_STATUS_SUCCESS
           s_a_longer s_a_reachable s_a_set_longer).
Defined.

Lemma HMAP_remove_entry_effect_witness :
  HMAP_STATUS_SUCCESS = HMAP_STATUS_SUCCESS /\
  forall k v,
    (k, v) ∈ table_items s_a_removed obj1 <-> k <> key_a /\ (k, v) ∈ table_items s_a obj1.
Proof.
  exact (HMAP_remove_entry_effect s_a obj1 key_a HMAP_STATUS_SUCCESS s_a_removed
           s_a_reachable s_a_remove).
Defined.

Lemma HMAP_set_then_get_witness :
  holds_value s_a_longer obj1 key_a ["2"%byte; "2"%byte] \/
  (forall out,
     HMAP_get_data (Some obj1) (Some key_a) (Some out) s_a_longer = Fault OutOfBounds).
Proof.
  exact (HMAP_set_then_get s_a obj1 key_a ["2"%byte; "2"%byte] HMAP_STATUS_SUCCESS
           s_a_longer s_a_reachable s_a_set_longer).
Defined.

Lemma HMAP_remove_then_absent_witness :
  HMAP_key_in_map (Some obj1) (Some key_a) s_a_removed = Ok (HMAP_BOOL_FALSE, s_a_removed).
Proof.
  exact (HMAP_remove_then_absent s_a obj1 key_a HMAP_STATUS_SUCCESS s_a_removed
           s_a_reachable s_a_remove).
Defined.

Lemma lookup_overruns_iff_witness :
  (HMAP_key_in_map (Some obj1) (Some key_a) s_a = Fault OutOfBounds <->
   MAX_COLLISIONS
   < Z.of_nat (length (List.filter (fun k => wrap (hash_sdbm k) =? wrap (hash_sdbm key_a))
                         (map fst (table_items s_a obj1))))) /\
  (HMAP_key_in_map (Some obj1) (Some key_a) s_a = Fault OutOfBounds ->
   forall data out,
     HMAP_get_data (Some obj1) (Some key_a) (Some out) s_a = Fault OutOfBounds /\
     HMAP_set_data (Some obj1) (Some key_a) (Some data) s_a = Fault OutOfBounds /\
     HMAP_remove_entry (Some obj1) (Some key_a) s_a = Fault OutOfBounds).
Proof.
  apply (lookup_overruns_iff (def_sdbm 8) s_a obj1 hash_sdbm key_a s_a_built).
  - reflexivity.
  - vm_compute. discriminate.
Defined.

Lemma lookup_divides_by_zero_iff_witness :
  HMAP_key_in_map (Some obj1) (Some key_a) s_a = Fault DivisionByZero <->
  wrap (d_map_size (def_sdbm 8)) = 0.
Proof. exact (lookup_divides_by_zero_iff (def_sdbm 8) s_a obj1 key_a s_a_built). Defined.

Lemma HMAP_get_hash_is_table_hash_witness :
  exists hash,
    chosen_hash (def_sdbm 8) = Some hash /\
    forall data out,
      HMAP_get_hash (Some obj1) (Some data) (Some out) s_a
      = Ok ((HMAP_STATUS_SUCCESS, Some (wrap (hash data))), s_a).
Proof. exact (HMAP_get_hash_is_table_hash (def_sdbm 8) s_a obj1 s_a_built). Defined.

Lemma HMAP_set_data_outcome_witness :
  (exists s', HMAP_set_data (Some obj1) (Some key_i) (Some ["2"%byte]) s_a
              = Ok (HMAP_STATUS_SUCCESS, s')) \/
  HMAP_set_data (Some obj1) (Some key_i) (Some ["2"%byte]) s_a = Fault DivisionByZero \/
  HMAP_set_data (Some obj1) (Some key_i) (Some ["2"%byte]) s_a = Fault OutOfBounds.
Proof. exact (HMAP_set_data_outcome s_a obj1 key_i ["2"%byte] s_a_reachable). Defined.

Lemma HMAP_remove_entry_outcome_witness :
  (exists s', HMAP_remove_entry (Some obj1) (Some key_a) s_a
              = Ok (HMAP_STATUS_SUCCESS, s')) \/
  HMAP_remove_entry (Some obj1) (Some key_a) s_a = Fault DivisionByZero \/
  HMAP_remove_entry (Some obj1) (Some key_a) s_a = Fault OutOfBounds \/
  (HMAP_remove_entry (Some obj1) (Some key_a) s_a = Fault InvalidPointer /\
   exists p e,
     key_storage s_a obj1 key_a p e /\
     e_previous e <> HMAP_INVALID_POINTER /\ heap s_a !! e_previous e = None).
Proof. exact (HMAP_remove_entry_outcome s_a obj1 key_a s_a_reachable). Defined.

Lemma table_blocks_separate_witness :
  NoDup (table_blocks s_a obj1) /\
  (forall q, q ∈ table_blocks s_a obj1 -> is_Some (heap s_a !! q)) /\
  length (table_blocks s_a obj1) = (2 + 3 * length (table_entries s_a obj1))%nat.
Proof. exact (table_blocks_separate s_a obj1 s_a_reachable). Defined.

Lemma HMAP_destroy_frees_table_witness :
  exists s',
    HMAP_destroy (Some obj1) s_a = Ok ((HMAP_STATUS_SUCCESS, Some null_obj), s') /\
    brk s' = brk s_a /\
    (forall q, q ∈ table_blocks s_a obj1 -> heap s' !! q = None) /\
    (forall q, q ∉ table_blocks s_a obj1 -> heap s' !! q = heap s_a !! q).
Proof. exact (HMAP_destroy_frees_table s_a obj1 s_a_reachable). Defined.

Lemma null_out_pointer_is_written_witness :
  HMAP_get_entry_count (Some obj1) None s_a = Fault InvalidPointer /\
  HMAP_get_size (Some obj1) None s_a = Fault InvalidPointer.
Proof. exact (null_out_pointer_is_written s_a obj1 s_a_reachable). Defined.

Lemma HMAP_get_data_overruns_short_buffer_witness :
  HMAP_get_data (Some obj1) (Some key_a) (Some (buffer 0)) s_a = Fault OutOfBounds.
Proof.
  apply (HMAP_get_data_overruns_short_buffer s_a obj1 key_a ["1"%byte] (buffer 0)
           s_a_reachable s_a_holds).
  cbn. lia.
Defined.

Lemma HMAP_set_data_accounting_witness :
  (key_a ∉ map fst (table_items s_a obj1) ->
   entry_count s_a_longer obj1 (wrap (1 + 1)) /\
   total_size s_a_longer obj1
     (wrap (186 + (blob_size ["2"%byte; "2"%byte] + blob_size key_a + sizeof_entry)))) /\
  (forall old, (key_a, old) ∈ table_items s_a obj1 ->
   entry_count s_a_longer obj1 1 /\
   total_size s_a_longer obj1
     (if blob_size old =? blob_size ["2"%byte; "2"%byte] then 186
      else wrap (186 + (blob_size ["2"%byte; "2"%byte] - blob_size old)))).
Proof.
  exact (HMAP_set_data_accounting s_a obj1 key_a ["2"%byte; "2"%byte] 1 186
           HMAP_STATUS_SUCCESS s_a_longer s_a_reachable s_a_count s_a_total
           s_a_set_longer).
Defined.

Lemma HMAP_remove_entry_accounting_witness :
  (key_a ∈ map fst (table_items s_a obj1) -> entry_count s_a_removed obj1 (wrap (1 - 1))) /\
  (key_a ∉ map fst (table_items s_a obj1) -> s_a_removed = s_a).
Proof.
  exact (HMAP_remove_entry_accounting s_a obj1 key_a 1 HMAP_STATUS_SUCCESS s_a_removed
           s_a_reachable s_a_count s_a_remove).
Defined.

Lemma fresh_table_round_trip_witness :
  exists s2,
    HMAP_set_data (Some obj1) (Some []) (Some []) s_created
    = Ok (HMAP_STATUS_SUCCESS, s2) /\
    holds_value s2 obj1 [] [] /\
    entry_count s2 obj1 1 /\
    table_items s2 obj1 = [([], [])].
Proof.
  apply (fresh_table_round_trip (def_sdbm 8) null_obj mem_init obj1 s_created [] []
           mem_ok_init).
  - apply (run_eq (HMAP_create (Some (def_sdbm 8)) (Some null_obj) mem_init)).
    vm_compute. reflexivity.
  - vm_compute. discriminate.
Defined.

Lemma HMAP_create_invalid_def_leaks_witness :
  exists s',
    HMAP_create (Some def_custom_missing) (Some null_obj) mem_init
    = Ok ((HMAP_STATUS_INVALID_DEF, Some null_obj), s') /\
    heap mem_init !! brk mem_init = None /\ heap mem_init !! (brk mem_init + 1) = None /\
    is_Some (heap s' !! brk mem_init) /\ is_Some (heap s' !! (brk mem_init + 1)) /\
    (forall p, p <> brk mem_init -> p <> brk mem_init + 1 ->
               heap s' !! p = heap mem_init !! p).
Proof.
  apply (HMAP_create_invalid_def_leaks def_custom_missing null_obj mem_init mem_ok_init).
  - cbn. eauto.
  - cbn. eauto.
  - reflexivity.
  - reflexivity.
Defined.
